(** * ViDove: the subtitle-segment model of [src/srt_util/srt.py]

    A shallow embedding of [SrtSegment] and [SrtScript] and the properties
    of their constructors, merge, sentence forming, translation
    reconciliation and length-based splitting.

    Conventions of the embedding.
    - A Python [str] is a list of Unicode code points ([char := N]);
      [py "..."] turns an ASCII literal into such a list.
    - A Python [float] is an exact rational ([Q]); every arithmetic result
      is kept in lowest terms ([Qred]) so that equal values are equal
      terms.  Binary rounding is not modelled.
    - A raised exception is a [Raise e] result; [Ok v] is normal return.
    - Objects that are mutated through aliases live in an explicit store
      ([Module Store], a [gmap] from locations to segments). *)

From Stdlib Require Import List ZArith NArith QArith Qround Lia Lqa Bool String Ascii.
From stdpp Require Import gmap.
Import ListNotations.

Local Open Scope Z_scope.

(** ** Exceptions and results *)

Inductive exn : Type :=
| IndexError
| ValueError
| ZeroDivisionError
| OverflowError
| UnboundLocalError
| NotImplementedError
| RecursionError.

Inductive result (A : Type) : Type :=
| Ok (a : A)
| Raise (e : exn).

Arguments Ok {A} a.
Arguments Raise {A} e.

Definition bind {A B : Type} (m : result A) (f : A -> result B) : result B :=
  match m with
  | Ok a => f a
  | Raise e => Raise e
  end.

Notation "'let*' x ':=' m 'in' k" := (bind m (fun x => k))
  (at level 10, x pattern, m at level 100, k at level 200).

Definition of_option {A : Type} (e : exn) (o : option A) : result A :=
  match o with
  | Some a => Ok a
  | None => Raise e
  end.

(** ** Python strings *)

Definition char : Type := N.
Definition str : Type := list char.

Definition py (s : string) : str :=
  List.map N_of_ascii (list_ascii_of_string s).

Definition char_eqb (a b : char) : bool := N.eqb a b.

Fixpoint str_eqb (a b : str) : bool :=
  match a, b with
  | [], [] => true
  | x :: a', y :: b' => char_eqb x y && str_eqb a' b'
  | _, _ => false
  end.

(** [s.startswith(p)] *)
Fixpoint startswith (p s : str) : bool :=
  match p, s with
  | [], _ => true
  | x :: p', y :: s' => char_eqb x y && startswith p' s'
  | _ :: _, [] => false
  end.

(** [p in s] for strings *)
Fixpoint contains (p s : str) : bool :=
  startswith p s ||
  match s with
  | [] => false
  | _ :: s' => contains p s'
  end.

(** [s[-1]] *)
Definition last_char (s : str) : result char :=
  match rev s with
  | [] => Raise IndexError
  | c :: _ => Ok c
  end.

(** [s.split(sep)] for a non-empty separator: [cur] is the piece being
    read (reversed), [skip] the number of separator characters still to be
    passed over after a match. *)
Fixpoint split_go (sep : str) (skip : nat) (cur : str) (s : str) : list str :=
  match s with
  | [] => [rev cur]
  | c :: s' =>
      match skip with
      | S k => split_go sep k cur s'
      | O =>
          if startswith sep s
          then rev cur :: split_go sep (Nat.pred (List.length sep)) [] s'
          else split_go sep O (c :: cur) s'
      end
  end.

Definition split (sep s : str) : list str := split_go sep O [] s.

(** [[m.start() for m in re.finditer(pat, s)]] for a pattern without
    regular-expression metacharacters: the start offsets of the
    non-overlapping occurrences, left to right. *)
Fixpoint finditer_go (pat : str) (skip : nat) (pos : nat) (s : str) : list nat :=
  match s with
  | [] => []
  | _ :: s' =>
      match skip with
      | S k => finditer_go pat k (S pos) s'
      | O =>
          if startswith pat s
          then pos :: finditer_go pat (Nat.pred (List.length pat)) (S pos) s'
          else finditer_go pat O (S pos) s'
      end
  end.

Definition finditer (pat s : str) : list nat := finditer_go pat O O s.

(** [c.isspace()]: the characters that [str.lstrip()], [str.strip()] and
    [int()] pass over. *)
Definition is_space (c : char) : bool :=
  ((9 <=? c) && (c <=? 13) || (28 <=? c) && (c <=? 32)
   || (c =? 133) || (c =? 160) || (c =? 5760)
   || (8192 <=? c) && (c <=? 8202)
   || (c =? 8232) || (c =? 8233) || (c =? 8239) || (c =? 8287)
   || (c =? 12288))%N.

Fixpoint lstrip (s : str) : str :=
  match s with
  | c :: s' => if is_space c then lstrip s' else s
  | [] => []
  end.

Definition rstrip (s : str) : str := rev (lstrip (rev s)).

Definition is_digit (c : char) : bool := ((48 <=? c) && (c <=? 57))%N.

(** [c.encode('utf-8').isalpha()] for one code point: the encoding of a
    code point above 127 has no ASCII letter in it. *)
Definition utf8_isalpha (c : char) : bool :=
  ((65 <=? c) && (c <=? 90) || (97 <=? c) && (c <=? 122))%N.

(** ** Python integers as text *)

Definition digit_char (d : Z) : char := Z.to_N (48 + d).

Fixpoint digits_go (fuel : nat) (n : Z) (acc : str) : str :=
  match fuel with
  | O => acc
  | S f =>
      let acc' := digit_char (n mod 10) :: acc in
      if n / 10 =? 0 then acc' else digits_go f (n / 10) acc'
  end.

Definition str_of_nonneg (n : Z) : str :=
  digits_go (S (Z.to_nat (Z.log2 n))) n [].

(** ["%d" % n] *)
Definition str_of_Z (n : Z) : str :=
  if n <? 0 then 45%N :: str_of_nonneg (- n) else str_of_nonneg n.

(** ["%0wd" % n] for [0 <= n] *)
Definition fmt_0d (w : nat) (n : Z) : str :=
  let s := str_of_nonneg n in
  repeat 48%N (w - List.length s) ++ s.

Fixpoint digits_value (acc : Z) (s : str) : option Z :=
  match s with
  | [] => Some acc
  | c :: s' =>
      if is_digit c then digits_value (acc * 10 + (Z.of_N c - 48)) s'
      else None
  end.

(** [int(s)]: surrounding whitespace, an optional sign, decimal digits.
    (Digit grouping with underscores and non-ASCII digits are left out.) *)
Definition py_int (s : str) : result Z :=
  let body := rstrip (lstrip s) in
  let '(neg, ds) :=
    match body with
    | 45%N :: r => (true, r)
    | 43%N :: r => (false, r)
    | _ => (false, body)
    end in
  match ds with
  | [] => Raise ValueError
  | _ =>
      match digits_value 0 ds with
      | Some v => Ok (if neg then - v else v)
      | None => Raise ValueError
      end
  end.


(** ** Python floats, as exact rationals in lowest terms *)

Definition float : Type := Q.

Definition fadd (x y : float) : float := Qred (x + y).
Definition fsub (x y : float) : float := Qred (x - y).
Definition fmul (x y : float) : float := Qred (x * y).
Definition fdiv (x y : float) : float := Qred (x / y).
Definition float_of_int (z : Z) : float := inject_Z z.

Arguments fadd (x y)%_Q.
Arguments fsub (x y)%_Q.
Arguments fmul (x y)%_Q.
Arguments fdiv (x y)%_Q.

(** [x > y] *)
Definition fgtb (x y : float) : bool := negb (Qle_bool x y).

(** [int(x)]: truncation toward zero *)
Definition int_of_float (x : float) : Z := Z.quot (Qnum x) (Zpos (Qden x)).

(** [x % m] for a positive [m]: the result is in [[0, m)] *)
Definition fmod (x m : float) : float :=
  Qred (x - m * inject_Z (Qfloor (x / m))).

Arguments fgtb (x y)%_Q.
Arguments fmod (x m)%_Q.

(** ** [datetime.timedelta] *)

Record timedelta : Type := mk_timedelta {
  days : Z;
  seconds : Z;
  microseconds : Z
}.

(** [timedelta(seconds=secs, milliseconds=ms)]: normalised so that
    [0 <= seconds < 86400] and [0 <= microseconds < 1000000]; more than
    999999999 days in either direction is an [OverflowError]. *)
Definition timedelta_new (secs ms : Z) : result timedelta :=
  let us := secs * 1000000 + ms * 1000 in
  let d := us / 86400000000 in
  if Z.abs d >? 999999999 then Raise OverflowError
  else Ok {| days := d;
             seconds := (us mod 86400000000) / 1000000;
             microseconds := us mod 1000000 |}.

(** [str(t)] *)
Definition timedelta_str (t : timedelta) : str :=
  let mm := seconds t / 60 in
  let ss := seconds t mod 60 in
  let hh := mm / 60 in
  let mm := mm mod 60 in
  let s := str_of_Z hh ++ py ":" ++ fmt_0d 2 mm ++ py ":" ++ fmt_0d 2 ss in
  let s :=
    if days t =? 0 then s
    else str_of_Z (days t) ++ py " day"
         ++ (if Z.abs (days t) =? 1 then [] else py "s") ++ py ", " ++ s in
  if microseconds t =? 0 then s
  else s ++ py "." ++ fmt_0d 6 (microseconds t).

(** ** The punctuation table *)

Inductive lang : Type := EN | ES | FR | DE | RU | ZH | JA | AR | KR.

Record punctuation : Type := mk_punctuation {
  punc_str : str;
  comma : str;
  sentence_end : list str
}.

Definition punctuation_dict (l : lang) : punctuation :=
  match l with
  | EN => {| punc_str := py ". , ? ! : ; - ( ) [ ] { }";
             comma := py ", ";
             sentence_end := [py "."; py "!"; py "?"; py ";"] |}
  | ES => {| punc_str := py ". , ? ! : ; - ( ) [ ] { } " ++ [161; 32; 191]%N;
             comma := py ", ";
             sentence_end := [py "."; py "!"; py "?"; py ";"; [161%N]; [191%N]] |}
  | FR => {| punc_str := py ".,?!:;" ++ [171; 187; 8212]%N;
             comma := py ", ";
             sentence_end := [py "."; py "!"; py "?"; py ";"] |}
  | DE => {| punc_str := py ".,?!:;" ++ [8222; 8220; 8211]%N;
             comma := py ", ";
             sentence_end := [py "."; py "!"; py "?"; py ";"] |}
  | RU => {| punc_str := py ".,?!:;-" ++ [171; 187; 8212]%N;
             comma := py ", ";
             sentence_end := [py "."; py "!"; py "?"; py ";"] |}
  | ZH => {| punc_str := [12290; 65292; 65311; 65281; 65306; 65307; 65288; 65289]%N;
             comma := [65292%N];
             sentence_end := [[12290%N]; [65281%N]; [65311%N]] |}
  | JA => {| punc_str := [12290; 12289; 65311; 65281; 65306; 65307; 65288; 65289]%N;
             comma := [12289%N];
             sentence_end := [[12290%N]; [65281%N]; [65311%N]] |}
  | AR => {| punc_str := py ".,?!:;-()[]" ++ [1548; 1563; 32; 1567; 32; 171; 187]%N;
             comma := [1548; 32]%N;
             sentence_end := [py "."; py "!"; py "?"; py ";"; [1567%N]] |}
  | KR => {| punc_str := py ".,?!:;()[]{}";
             comma := py ", ";
             sentence_end := [py "."; py "!"; py "?"; py ";"] |}
  end.

(** ** [SrtSegment] *)

Record SrtSegment : Type := mk_SrtSegment {
  src_lang : lang;
  tgt_lang : lang;
  start : float;
  end_ : float;
  start_ms : float;
  end_ms : float;
  start_time : option timedelta;
  end_time : option timedelta;
  start_time_str : str;
  end_time_str : str;
  source_text : str;
  duration : str;
  translation : str
}.

(** The raw record [{'start': .., 'end': .., 'text': ..}] of the speech
    recogniser. *)
Record raw_record : Type := mk_raw {
  raw_start : float;
  raw_end : float;
  raw_text : str
}.

Arguments mk_raw (raw_start raw_end)%_Q raw_text.

(** The two shapes of [args[0]] that [__init__] tells apart. *)
Inductive init_arg : Type :=
| FromDict (segment : raw_record)
| FromList (lines : list str).

(** [int((x * 100) % 100 * 10)] *)
Definition ms_of (x : float) : Z :=
  int_of_float (fmul (fmod (fmul x 100) 100) 10).

(** [str(0) + str(t).split('.')[0] + ',000'] when [ms == 0], else
    [str(0) + str(t).split('.')[0] + ',' + str(t).split('.')[1][:3]] *)
Definition time_str (t : timedelta) (ms : Z) : result str :=
  let parts := split (py ".") (timedelta_str t) in
  if ms =? 0 then
    let* hms := of_option IndexError (nth_error parts 0) in
    Ok (py "0" ++ hms ++ py ",000")
  else
    let* hms := of_option IndexError (nth_error parts 0) in
    let* frac := of_option IndexError (nth_error parts 1) in
    Ok (py "0" ++ hms ++ py "," ++ firstn 3 frac).

Definition init_from_dict (src tgt : lang) (segment : raw_record) : result SrtSegment :=
  let start_ms := ms_of (raw_start segment) in
  let end_ms := ms_of (raw_end segment) in
  let end_ms :=
    if (start_ms =? end_ms)
       && (int_of_float (raw_start segment) =? int_of_float (raw_end segment))
    then end_ms + 500 else end_ms in
  let* start_time := timedelta_new (int_of_float (raw_start segment)) start_ms in
  let* end_time := timedelta_new (int_of_float (raw_end segment)) end_ms in
  let* start_time_str := time_str start_time start_ms in
  let* end_time_str := time_str end_time end_ms in
  Ok {| src_lang := src;
        tgt_lang := tgt;
        start := raw_start segment;
        end_ := raw_end segment;
        start_ms := float_of_int start_ms;
        end_ms := float_of_int end_ms;
        start_time := Some start_time;
        end_time := Some end_time;
        start_time_str := start_time_str;
        end_time_str := end_time_str;
        source_text := lstrip (raw_text segment);
        duration := start_time_str ++ py " --> " ++ end_time_str;
        translation := [] |}.

(** [int(h) * 3600 + int(m) * 60 + int(s) + ms / 100] over
    [time_str.split(',')[0].split(':')] *)
Definition parse_seconds (time_str : str) (ms : float) : result float :=
  let* hms := of_option IndexError (nth_error (split (py ",") time_str) 0) in
  let l := split (py ":") hms in
  let* h0 := of_option IndexError (nth_error l 0) in
  let* h := py_int h0 in
  let* m0 := of_option IndexError (nth_error l 1) in
  let* m := py_int m0 in
  let* s0 := of_option IndexError (nth_error l 2) in
  let* s := py_int s0 in
  Ok (fadd (float_of_int (h * 3600 + m * 60 + s)) (fdiv ms 100)).

(** [int(time_str.split(',')[1]) / 10] *)
Definition parse_ms (time_str : str) : result float :=
  let* f := of_option IndexError (nth_error (split (py ",") time_str) 1) in
  let* n := py_int f in
  Ok (fdiv (float_of_int n) 10).

Definition init_from_list (src tgt : lang) (lines : list str) : result SrtSegment :=
  let* source_text := of_option IndexError (nth_error lines 2) in
  let* duration := of_option IndexError (nth_error lines 1) in
  let* start_time_str :=
    of_option IndexError (nth_error (split (py " --> ") duration) 0) in
  let* end_time_str :=
    of_option IndexError (nth_error (split (py " --> ") duration) 1) in
  let* start_ms := parse_ms start_time_str in
  let* end_ms := parse_ms end_time_str in
  let* start := parse_seconds start_time_str start_ms in
  let* end_ := parse_seconds end_time_str end_ms in
  let* translation :=
    if (List.length lines <? 5)%nat then Ok []
    else of_option IndexError (nth_error lines 3) in
  Ok {| src_lang := src;
        tgt_lang := tgt;
        start := start;
        end_ := end_;
        start_ms := start_ms;
        end_ms := end_ms;
        start_time := None;
        end_time := None;
        start_time_str := start_time_str;
        end_time_str := end_time_str;
        source_text := source_text;
        duration := duration;
        translation := translation |}.

(** [SrtSegment.__init__] *)
Definition SrtSegment_init (src tgt : lang) (arg : init_arg) : result SrtSegment :=
  match arg with
  | FromDict segment => init_from_dict src tgt segment
  | FromList lines => init_from_list src tgt lines
  end.

(** Attribute assignments [self.x = v]. *)
Definition with_source_text (s : SrtSegment) (v : str) : SrtSegment :=
  mk_SrtSegment (src_lang s) (tgt_lang s) (start s) (end_ s) (start_ms s)
    (end_ms s) (start_time s) (end_time s) (start_time_str s)
    (end_time_str s) v (duration s) (translation s).

Definition with_translation (s : SrtSegment) (v : str) : SrtSegment :=
  mk_SrtSegment (src_lang s) (tgt_lang s) (start s) (end_ s) (start_ms s)
    (end_ms s) (start_time s) (end_time s) (start_time_str s)
    (end_time_str s) (source_text s) (duration s) v.

Definition with_end_time_str (s : SrtSegment) (v : str) : SrtSegment :=
  mk_SrtSegment (src_lang s) (tgt_lang s) (start s) (end_ s) (start_ms s)
    (end_ms s) (start_time s) (end_time s) (start_time_str s)
    v (source_text s) (duration s) (translation s).

Definition with_end (s : SrtSegment) (v : float) : SrtSegment :=
  mk_SrtSegment (src_lang s) (tgt_lang s) (start s) v (start_ms s)
    (end_ms s) (start_time s) (end_time s) (start_time_str s)
    (end_time_str s) (source_text s) (duration s) (translation s).

Definition with_end_ms (s : SrtSegment) (v : float) : SrtSegment :=
  mk_SrtSegment (src_lang s) (tgt_lang s) (start s) (end_ s) (start_ms s)
    v (start_time s) (end_time s) (start_time_str s)
    (end_time_str s) (source_text s) (duration s) (translation s).

Definition with_duration (s : SrtSegment) (v : str) : SrtSegment :=
  mk_SrtSegment (src_lang s) (tgt_lang s) (start s) (end_ s) (start_ms s)
    (end_ms s) (start_time s) (end_time s) (start_time_str s)
    (end_time_str s) (source_text s) v (translation s).

(** [merge_seg], on values: what the receiver becomes when [seg] is
    another object.  The in-place version, with aliasing, is
    [Store.merge_seg]. *)
Definition merge_seg (self seg : SrtSegment) : SrtSegment :=
  let self := with_source_text self (source_text self ++ py " " ++ source_text seg) in
  let self := with_translation self (translation self ++ py " " ++ translation seg) in
  let self := with_end_time_str self (end_time_str seg) in
  let self := with_end self (end_ seg) in
  let self := with_end_ms self (end_ms seg) in
  with_duration self (start_time_str self ++ py " --> " ++ end_time_str self).

(** [__add__], on values: [merge_seg] applied to a copy of [self]. *)
Definition add (self other : SrtSegment) : SrtSegment :=
  let result := self in
  merge_seg result other.

(** ** [SrtScript] *)

Record SrtScript : Type := mk_SrtScript {
  script_src_lang : lang;
  script_tgt_lang : lang;
  segments : list SrtSegment
}.

Definition with_segments (self : SrtScript) (l : list SrtSegment) : SrtScript :=
  mk_SrtScript (script_src_lang self) (script_tgt_lang self) l.

Fixpoint init_all (src tgt : lang) (l : list init_arg) : result (list SrtSegment) :=
  match l with
  | [] => Ok []
  | a :: l' =>
      let* s := SrtSegment_init src tgt a in
      let* r := init_all src tgt l' in
      Ok (s :: r)
  end.

(** [SrtScript.__init__] (the domain dictionary is left out) *)
Definition SrtScript_init (src tgt : lang) (l : list init_arg) : result SrtScript :=
  let* segs := init_all src tgt l in
  Ok (mk_SrtScript src tgt segs).

Definition merge_segs (self : SrtScript) (idx_list : list nat) : result SrtSegment :=
  match idx_list with
  | [] => Raise NotImplementedError
  | i0 :: rest =>
      let* seg_result := of_option IndexError (nth_error (segments self) i0) in
      fold_left
        (fun acc idx =>
           let* seg_result := acc in
           let* seg := of_option IndexError (nth_error (segments self) idx) in
           Ok (add seg_result seg))
        rest (Ok seg_result)
  end.

(** The test of [form_whole_sentence]:
    [seg.source_text[-1] in ending_puncs and len(seg.source_text) > 10
     and 'vs.' not in seg.source_text] *)
Definition ends_sentence (ending_puncs : list str) (seg : SrtSegment) : result bool :=
  let* c := last_char (source_text seg) in
  Ok (existsb (str_eqb [c]) ending_puncs
      && (10 <? List.length (source_text seg))%nat
      && negb (contains (py "vs.") (source_text seg))).

(** The first loop of [form_whole_sentence], from segment number [i] on;
    it returns [merge_list] and the [sentence] left open at the end. *)
Fixpoint collect_sentences (ending_puncs : list str) (i : nat)
    (segs : list SrtSegment) (merge_list : list (list nat))
    (sentence : list nat) : result (list (list nat) * list nat) :=
  match segs with
  | [] => Ok (merge_list, sentence)
  | seg :: segs' =>
      let* b := ends_sentence ending_puncs seg in
      if b
      then collect_sentences ending_puncs (S i) segs'
             (merge_list ++ [sentence ++ [i]]) []
      else collect_sentences ending_puncs (S i) segs'
             merge_list (sentence ++ [i])
  end.

(** The second loop. *)
Fixpoint merge_runs (self : SrtScript) (merge_list : list (list nat))
    : result (list SrtSegment) :=
  match merge_list with
  | [] => Ok []
  | idx_list :: rest =>
      let* s := merge_segs self idx_list in
      let* r := merge_runs self rest in
      Ok (s :: r)
  end.

Definition form_whole_sentence (self : SrtScript) : result SrtScript :=
  let ending_puncs := sentence_end (punctuation_dict (script_src_lang self)) in
  let* collected :=
    collect_sentences ending_puncs O (segments self) [] [] in
  let merge_list := fst collected in
  let* segs := merge_runs self merge_list in
  Ok (with_segments self segs).

(** ** The external translator

    A call of [inner_func] either returns the reply of the service or
    raises.  The service is outside the program: a run of
    [set_translation] is taken against the sequence of outcomes of the
    calls it makes, in order. *)

Inductive outcome : Type :=
| Reply (content : str)
| Failure.

(** One request as sent: the number of lines asked for and the text. *)
Definition request : Type := (Z * str)%type.

(** The loop [while flag:] around [inner_func]: it calls again after
    every exception; [None] when the outcomes run out with no reply, the
    loop being still at work.  A reply comes back [.strip()]ped. *)
Fixpoint request_until_reply (target : Z) (translate : str)
    (world : list outcome) (sent : list request)
    : option (str * list outcome * list request) :=
  match world with
  | [] => None
  | Failure :: world' =>
      request_until_reply target translate world' (sent ++ [(target, translate)])
  | Reply content :: world' =>
      Some (rstrip (lstrip content), world', sent ++ [(target, translate)])
  end.

Definition newline : str := [10%N].
Definition newline2 : str := [10%N; 10%N].

Record reconciled : Type := mk_reconciled {
  rec_count : nat;
  rec_translate : str;
  rec_lines : list str;
  rec_world : list outcome;
  rec_sent : list request
}.

(** [while count < 5 and len(lines) != required:], with
    [remaining = 5 - count]. *)
Fixpoint solve_unmatched (remaining : nat) (required : Z) (st : reconciled)
    : option reconciled :=
  match remaining with
  | O => Some st
  | S remaining' =>
      if Z.of_nat (List.length (rec_lines st)) =? required then Some st
      else
        match request_until_reply required (rec_translate st)
                (rec_world st) (rec_sent st) with
        | None => None
        | Some (translate, world', sent') =>
            solve_unmatched remaining' required
              (mk_reconciled (S (rec_count st)) translate
                 (split newline translate) world' sent')
        end
  end.

(** Python's [l[lo:hi]] and the offset at which the slice starts. *)
Definition slice_index (len i : Z) : Z :=
  if i <? 0 then Z.max (i + len) 0 else Z.min i len.

Definition slice_start {A : Type} (l : list A) (lo : Z) : nat :=
  Z.to_nat (slice_index (Z.of_nat (List.length l)) lo).

Definition slice_stop {A : Type} (l : list A) (hi : Z) : nat :=
  Z.to_nat (slice_index (Z.of_nat (List.length l)) hi).

Definition py_slice {A : Type} (l : list A) (lo hi : Z) : list A :=
  firstn (slice_stop l hi - slice_start l lo) (skipn (slice_start l lo) l).

(** [lines[i] = v] *)
Fixpoint set_nth {A : Type} (i : nat) (v : A) (l : list A) : list A :=
  match l, i with
  | [], _ => []
  | _ :: l', O => v :: l'
  | x :: l', S i' => x :: set_nth i' v l'
  end.

(** [lines.remove(x)]: drops the first element equal to [x]. *)
Fixpoint list_remove (x : str) (l : list str) : list str :=
  match l with
  | [] => []
  | y :: l' => if str_eqb y x then l' else y :: list_remove x l'
  end.

(** The assignment loop of [set_translation] over the sliced segments,
    from position [i] on.  The branch for a line with ["Note:"] in it
    removes the line and then executes [max_num -= 1]; [max_num] is bound
    nowhere in the function, so that statement raises. *)
Fixpoint assign_lines (lines : list str) (i : nat) (segs : list SrtSegment)
    : result (list SrtSegment) :=
  match segs with
  | [] => Ok []
  | seg :: segs' =>
      if (i <? List.length lines)%nat then
        let* line := of_option IndexError (nth_error lines i) in
        if contains (py "Note:") line then
          let lines := list_remove line lines in
          Raise UnboundLocalError
        else
          let* c := of_option IndexError (nth_error line 0) in
          let lines :=
            if existsb (char_eqb c) [32%N; 10%N]
            then set_nth i (skipn 1 line) lines else lines in
          let* line := of_option IndexError (nth_error lines i) in
          let seg := with_translation seg line in
          let* rest := assign_lines lines (S i) segs' in
          Ok (seg :: rest)
      else
        let* rest := assign_lines lines (S i) segs' in
        Ok (seg :: rest)
  end.

(** What a run of [set_translation] leaves behind: the collection (or the
    exception), the row written to the audit log when the line count was
    short ([count], [solved]), and the requests sent to the translator. *)
Record translation_run : Type := mk_translation_run {
  run_script : result SrtScript;
  run_log : option (nat * bool);
  run_requests : list request;
  run_world : list outcome
}.

(** The loop over [self.segments[start_seg_id - 1:end_seg_id]]: the
    sliced segments are the objects of the collection, so what the loop
    assigns shows in the collection at the same places. *)
Definition store_lines (self : SrtScript) (id_range : Z * Z)
    (lines : list str) : result SrtScript :=
  let start_seg_id := fst id_range in
  let end_seg_id := snd id_range in
  let lo := slice_start (segments self) (start_seg_id - 1) in
  let sliced := py_slice (segments self) (start_seg_id - 1) end_seg_id in
  let* sliced' := assign_lines lines O sliced in
  Ok (with_segments self
        (firstn lo (segments self) ++ sliced'
         ++ skipn (lo + List.length sliced) (segments self))).

(** [set_translation(translate, id_range, ...)]; [None] when the
    translator never replies. *)
Definition set_translation (self : SrtScript) (translate : str)
    (id_range : Z * Z) (world : list outcome) : option translation_run :=
  let start_seg_id := fst id_range in
  let end_seg_id := snd id_range in
  let required := end_seg_id - start_seg_id + 1 in
  let lines := split newline2 translate in
  if Z.of_nat (List.length lines) <? required then
    match solve_unmatched 5 required
            (mk_reconciled 0 translate lines world []) with
    | None => None
    | Some st =>
        let solved :=
          negb (Z.of_nat (List.length (rec_lines st)) <? required) in
        Some (mk_translation_run (store_lines self id_range (rec_lines st))
                (Some (rec_count st, solved)) (rec_sent st) (rec_world st))
    end
  else
    Some (mk_translation_run (store_lines self id_range lines) None [] world).

(** ** Splitting long segments *)

(** [l[len(l) // 2] if len(l) % 2 == 1 else l[len(l) // 2 - 1]], for a
    non-empty [l]. *)
Definition middle (l : list nat) : nat :=
  if Nat.odd (List.length l)
  then nth (List.length l / 2) l O
  else nth (List.length l / 2 - 1) l O.

(** The first [i >= from] with [not translation[i].encode('utf-8').isalpha()],
    [s] being [translation[from:]]. *)
Fixpoint first_non_alpha (from : nat) (s : str) : option nat :=
  match s with
  | [] => None
  | c :: s' =>
      if negb (utf8_isalpha c) then Some from
      else first_non_alpha (S from) s'
  end.

Definition src_split_index (src_comma_str source_text : str) : nat :=
  let src_commas := finditer src_comma_str source_text in
  if negb (List.length src_commas =? 0)%nat then middle src_commas
  else
    let src_space := finditer (py " ") source_text in
    if (0 <? List.length src_space)%nat then middle src_space else O.

Definition trans_split_index (tgt_comma_str translation : str) : nat :=
  let trans_commas := finditer tgt_comma_str translation in
  if negb (List.length trans_commas =? 0)%nat then middle trans_commas
  else
    let trans_split_idx := (List.length translation / 2)%nat in
    match first_non_alpha trans_split_idx (skipn trans_split_idx translation) with
    | Some i => i
    | None => trans_split_idx
    end.

(** [a / b] on integers *)
Definition true_div (a b : Z) : result float :=
  if b =? 0 then Raise ZeroDivisionError
  else Ok (fdiv (float_of_int a) (float_of_int b)).

(** The two leading-comma statements at the top of [split_seg]. *)
Definition strip_source_comma (src_comma_str source_text : str) : str :=
  if (2 <? List.length source_text)%nat then
    if str_eqb (firstn 2 source_text) src_comma_str
    then skipn 2 source_text else source_text
  else source_text.

Definition strip_translation_comma (tgt_comma_str translation : str) : result str :=
  let* c := of_option IndexError (nth_error translation 0) in
  if str_eqb [c] tgt_comma_str then Ok (skipn 1 translation) else Ok translation.

(** [len(seg.translation) > text_threshold and
     (seg.end - seg.start) > time_threshold] *)
Definition too_long (seg : SrtSegment) (text_threshold : Z)
    (time_threshold : float) : bool :=
  (text_threshold <? Z.of_nat (List.length (translation seg)))
  && fgtb (fsub (end_ seg) (start seg)) time_threshold.

(** One activation of [split_seg]; [rec] stands for the recursive call. *)
Definition split_seg_body (rec : SrtSegment -> result (list SrtSegment))
    (self : SrtScript) (seg : SrtSegment) (text_threshold : Z)
    (time_threshold : float) : result (list SrtSegment) :=
  let src_comma_str := comma (punctuation_dict (script_src_lang self)) in
  let tgt_comma_str := comma (punctuation_dict (script_tgt_lang self)) in
  let seg := with_source_text seg (strip_source_comma src_comma_str (source_text seg)) in
  let* stripped := strip_translation_comma tgt_comma_str (translation seg) in
  let seg := with_translation seg stripped in
  let source_text' := source_text seg in
  let translation' := translation seg in
  let src_split_idx := src_split_index src_comma_str source_text' in
  let trans_split_idx := trans_split_index tgt_comma_str translation' in
  let* time_split_ratio :=
    true_div (Z.of_nat trans_split_idx)
             (Z.of_nat (List.length (translation seg)) - 1) in
  let src_seg1 := firstn src_split_idx source_text' in
  let src_seg2 := skipn src_split_idx source_text' in
  let trans_seg1 := firstn trans_split_idx translation' in
  let trans_seg2 := skipn trans_split_idx translation' in
  let start_seg1 := start seg in
  let end_seg1 := fadd (start seg) (fmul (fsub (end_ seg) (start seg)) time_split_ratio) in
  let start_seg2 := end_seg1 in
  let end_seg2 := end_ seg in
  let* seg1 :=
    SrtSegment_init (script_src_lang self) (script_tgt_lang self)
      (FromDict (mk_raw start_seg1 end_seg1 src_seg1)) in
  let seg1 := with_translation seg1 trans_seg1 in
  let* seg2 :=
    SrtSegment_init (script_src_lang self) (script_tgt_lang self)
      (FromDict (mk_raw start_seg2 end_seg2 src_seg2)) in
  let seg2 := with_translation seg2 trans_seg2 in
  let* result_list :=
    if too_long seg1 text_threshold time_threshold
    then rec seg1 else Ok [seg1] in
  let* result_list :=
    if too_long seg2 text_threshold time_threshold
    then let* r := rec seg2 in Ok (result_list ++ r)
    else Ok (result_list ++ [seg2]) in
  Ok result_list.

Arguments split_seg_body rec self seg text_threshold%_Z time_threshold%_Q.

(** [split_seg], run with room for [limit] nested activations: the
    interpreter raises [RecursionError] when the stack is used up. *)
Fixpoint split_seg (limit : nat) (self : SrtScript) (seg : SrtSegment)
    (text_threshold : Z) (time_threshold : float) : result (list SrtSegment) :=
  match limit with
  | O => Raise RecursionError
  | S limit' =>
      split_seg_body
        (fun s => split_seg limit' self s text_threshold time_threshold)
        self seg text_threshold time_threshold
  end.

Fixpoint split_each (limit : nat) (self : SrtScript) (segs : list SrtSegment)
    (text_threshold : Z) (time_threshold : float) : result (list SrtSegment) :=
  match segs with
  | [] => Ok []
  | seg :: segs' =>
      let* seg_list :=
        if too_long seg text_threshold time_threshold
        then split_seg limit self seg text_threshold time_threshold
        else Ok [seg] in
      let* rest := split_each limit self segs' text_threshold time_threshold in
      Ok (seg_list ++ rest)
  end.

Arguments split_seg limit%_nat self seg text_threshold%_Z time_threshold%_Q.
Arguments too_long seg text_threshold%_Z time_threshold%_Q.

Definition check_len_and_split (limit : nat) (self : SrtScript)
    (text_threshold : Z) (time_threshold : float) : result SrtScript :=
  let* segs :=
    split_each limit self (segments self) text_threshold time_threshold in
  Ok (with_segments self segs).

Arguments check_len_and_split limit%_nat self text_threshold%_Z time_threshold%_Q.

(** ** Segments as objects

    [merge_seg] assigns to the attributes of its receiver and [__add__]
    works on a [deepcopy]; who is changed is a matter of object identity.
    Objects live in a store, a finite map from locations to their
    attribute records. *)

Module Store.

Definition loc : Type := positive.

(** One statement [self.x = e], [e] reading attributes of [self] and
    [seg] as they are when the statement runs. *)
Definition assign (self seg : loc)
    (f : SrtSegment -> SrtSegment -> SrtSegment) (h : gmap loc SrtSegment) : option (gmap loc SrtSegment) :=
  a ← h !! self;
  b ← h !! seg;
  Some (<[self := f a b]> h).

(** [self.merge_seg(seg)], statement by statement. *)
Definition merge_seg (self seg : loc) (h : gmap loc SrtSegment) : option (gmap loc SrtSegment) :=
  h ← assign self seg
        (fun a b => with_source_text a (source_text a ++ py " " ++ source_text b)) h;
  h ← assign self seg
        (fun a b => with_translation a (translation a ++ py " " ++ translation b)) h;
  h ← assign self seg (fun a b => with_end_time_str a (end_time_str b)) h;
  h ← assign self seg (fun a b => with_end a (end_ b)) h;
  h ← assign self seg (fun a b => with_end_ms a (end_ms b)) h;
  assign self seg
    (fun a _ => with_duration a (start_time_str a ++ py " --> " ++ end_time_str a)) h.

(** [deepcopy(x)]: every attribute of a segment is an immutable value,
    so the copy is a new object with the same attributes. *)
Definition deepcopy (x : loc) (h : gmap loc SrtSegment) : option (loc * gmap loc SrtSegment) :=
  v ← h !! x;
  let l := fresh (dom h) in
  Some (l, <[l := v]> h).

(** [self + other] *)
Definition add (self other : loc) (h : gmap loc SrtSegment) : option (loc * gmap loc SrtSegment) :=
  r ← deepcopy self h;
  h' ← merge_seg r.1 other r.2;
  Some (r.1, h').

End Store.

(** ** The specification's wording, for comparison *)

(** [s.endswith(p)] *)
Definition endswith (p s : str) : bool := startswith (rev p) (rev s).

(** The merge trigger as the specification words it: the text ends with a
    sentence terminator, is longer than 10 and does not end in ["vs."]. *)
Definition spec_ends_sentence (ending_puncs : list str) (text : str) : bool :=
  match rev text with
  | [] => false
  | c :: _ =>
      existsb (str_eqb [c]) ending_puncs
      && (10 <? List.length text)%nat
      && negb (endswith (py "vs.") text)
  end.

(** ** Concrete inputs used in the examples below *)

(** A segment object with the given times (in seconds), texts and time
    strings. *)
Definition plain_segment (src tgt : lang) (t0 t1 : float)
    (t0_str t1_str text trans : string) : SrtSegment :=
  mk_SrtSegment src tgt t0 t1 0%Q 0%Q None None (py t0_str) (py t1_str)
    (py text) (py t0_str ++ py " --> " ++ py t1_str) (py trans).

Arguments plain_segment src tgt (t0 t1)%_Q (t0_str t1_str text trans)%_string.

Definition hello_segment : SrtSegment :=
  plain_segment EN ES 0 1 "00:00:00,000" "00:00:01,000" "Hello" "Hola".

Definition world_segment : SrtSegment :=
  plain_segment EN ES 1 2 "00:00:01,000" "00:00:02,000" "world" "mundo".

Definition two_objects : gmap Store.loc SrtSegment :=
  <[1%positive := hello_segment]> (<[2%positive := world_segment]> ∅).

Definition sentence_segment : SrtSegment :=
  plain_segment EN ES 0 2 "00:00:00,000" "00:00:02,000"
    "Hello world, this is it." "".

(** Ends with a full stop, is 21 characters long and does not end in
    ["vs."], but has ["vs."] inside. *)
Definition versus_segment : SrtSegment :=
  plain_segment EN ES 0 2 "00:00:00,000" "00:00:02,000"
    "Cats vs. dogs is fun." "".

(** A sentence followed by a fragment with no terminator. *)
Definition records_with_tail : list init_arg :=
  [FromDict (mk_raw 0 2 (py "Hello world, this is it."));
   FromDict (mk_raw 2 3 (py "and then"))].

(** Counting the outcomes of translator calls. *)
Definition is_reply (o : outcome) : bool :=
  match o with
  | Reply _ => true
  | Failure => false
  end.

Definition replies (w : list outcome) : nat :=
  List.length (List.filter is_reply w).

Definition failures (w : list outcome) : nat :=
  List.length (List.filter (fun o => negb (is_reply o)) w).

(** What the assignment loop stores for a line: the line without its
    first character when that is a space or a newline. *)
Definition trim_line (line : str) : str :=
  match line with
  | [] => []
  | c :: _ => if existsb (char_eqb c) [32%N; 10%N] then skipn 1 line else line
  end.

(** A line that the assignment loop gets through: not empty and without
    ["Note:"]. *)
Definition plain_line (line : str) : bool :=
  negb (contains (py "Note:") line) && negb (str_eqb line []).

Definition greeting_script : SrtScript :=
  mk_SrtScript EN ES
    [plain_segment EN ES 0 1 "00:00:00,000" "00:00:01,000" "Hello." "";
     plain_segment EN ES 1 2 "00:00:01,000" "00:00:02,000" "Good bye." ""].

(** The translator fails once and then answers five times. *)
Definition patient_world : list outcome :=
  [Failure; Reply (py "Hola." ++ newline ++ py " Adios."); Reply (py "a");
   Reply (py "b"); Reply (py "c"); Reply (py "d")].

(** The translator fails five times before its first answer. *)
Definition failing_world : list outcome :=
  [Failure; Failure; Failure; Failure; Failure;
   Reply (py "Hola." ++ newline ++ py "Adios.")].

(** A record that ends before it starts. *)
Definition backwards_record : raw_record := mk_raw 2 1 (py " Hello").

(** A two-character translation that starts with the target comma, in a
    script translated to Chinese. *)
Definition comma_then_letter : SrtScript :=
  mk_SrtScript EN ZH
    [mk_SrtSegment EN ZH 0%Q 10%Q 0%Q 0%Q None None (py "00:00:00,000")
       (py "00:00:10,000") (py "Hello") (py "00:00:00,000 --> 00:00:10,000")
       [65292%N; 97%N]].

(** A Chinese segment of ten seconds whose English translation has one
    comma, with more than 30 characters after it. *)
Definition idea_source : str := [25105; 35273; 24471; 19981; 38169]%N.

Definition idea_segment : SrtSegment :=
  mk_SrtSegment ZH EN 0%Q 10%Q 0%Q 0%Q
    (Some (mk_timedelta 0 0 0)) (Some (mk_timedelta 0 10 0))
    (py "00:00:00,000") (py "00:00:10,000") idea_source
    (py "00:00:00,000 --> 00:00:10,000")
    (py "I think this is a good idea, but we should still check all of the numbers again").

Definition idea_script : SrtScript := mk_SrtScript ZH EN [idea_segment].

(** The second half of [idea_segment] after the split at its comma. *)
Definition idea_second_half : SrtSegment :=
  mk_SrtSegment ZH EN (45 # 13)%Q 10%Q 461%Q 0%Q
    (Some (mk_timedelta 0 3 461000)) (Some (mk_timedelta 0 10 0))
    (py "00:00:03,461") (py "00:00:10,000") idea_source
    (py "00:00:03,461 --> 00:00:10,000")
    (py ", but we should still check all of the numbers again").

(** ** Time stamps as text *)

(** The text ["H:MM:SS"] of [sec] whole seconds, and the time stamp
    ["0H:MM:SS,mmm"] with [ms] milliseconds. *)
Definition clock_text (sec : Z) : str :=
  str_of_Z (sec / 60 / 60) ++ py ":" ++ fmt_0d 2 (sec / 60 mod 60)
  ++ py ":" ++ fmt_0d 2 (sec mod 60).

Definition stamp_text (sec ms : Z) : str :=
  py "0" ++ clock_text sec ++ py "," ++ fmt_0d 3 ms.

(** The characters of a time stamp: digits, [:] and [,]. *)
Definition stamp_char (c : char) : bool :=
  is_digit c || N.eqb c 58 || N.eqb c 44.

(** The integers [0 .. n-1], for checks by enumeration. *)
Definition Zbelow (n : nat) : list Z := List.map Z.of_nat (seq 0 n).

Definition returns_Z (r : result Z) (z : Z) : bool :=
  match r with
  | Ok v => v =? z
  | Raise _ => false
  end.

(** A record whose start and end fall into the same millisecond. *)
Definition short_record : raw_record := mk_raw 1 (2049 # 2048) (py "Hi").

(** One second to four and a half seconds. *)
Definition hello_record : raw_record := mk_raw 1 (9 # 2) (py " Hello world").


(** ** Further methods of [SrtSegment] *)

(** [s.replace(old, new)] for a non-empty [old]: the non-overlapping
    occurrences, left to right. *)
Fixpoint replace_go (old new : str) (skip : nat) (s : str) : str :=
  match s with
  | [] => []
  | c :: s' =>
      match skip with
      | S k => replace_go old new k s'
      | O =>
          if startswith old s
          then new ++ replace_go old new (Nat.pred (List.length old)) s'
          else c :: replace_go old new O s'
      end
  end.

Definition str_replace (old new s : str) : str := replace_go old new O s.

(** [remove_trans_punc]: one [replace] for every character of the
    target language's punctuation string, in order. *)
Definition remove_trans_punc (seg : SrtSegment) : SrtSegment :=
  with_translation seg
    (fold_left (fun translation punc => str_replace [punc] (py " ") translation)
       (punc_str (punctuation_dict (tgt_lang seg))) (translation seg)).

(** [__str__], [get_trans_str], [get_bilingual_str] *)
Definition segment_str (seg : SrtSegment) : str :=
  duration seg ++ newline ++ source_text seg ++ newline2.

Definition get_trans_str (seg : SrtSegment) : str :=
  duration seg ++ newline ++ translation seg ++ newline2.

Definition get_bilingual_str (seg : SrtSegment) : str :=
  duration seg ++ newline ++ source_text seg ++ newline
  ++ translation seg ++ newline2.

(** ** Further methods of [SrtScript] *)

Definition remove_trans_punctuation (self : SrtScript) : SrtScript :=
  with_segments self (List.map remove_trans_punc (segments self)).

(** [get_source_only] *)
Fixpoint source_only (segs : list SrtSegment) : str :=
  match segs with
  | [] => []
  | seg :: segs' => source_text seg ++ newline ++ newline2 ++ source_only segs'
  end.

Definition get_source_only (self : SrtScript) : str :=
  source_only (segments self).

(** The loop shared by [reform_src_str], [reform_trans_str] and
    [form_bilingual_str]: [result += f'{i + 1}\n'] and then the view of
    the segment, from segment number [i] on. *)
Fixpoint numbered (view : SrtSegment -> str) (i : nat)
    (segs : list SrtSegment) : str :=
  match segs with
  | [] => []
  | seg :: segs' =>
      str_of_Z (Z.of_nat i + 1) ++ newline ++ view seg
      ++ numbered view (S i) segs'
  end.

Definition reform_src_str (self : SrtScript) : str :=
  numbered segment_str O (segments self).

Definition reform_trans_str (self : SrtScript) : str :=
  numbered get_trans_str O (segments self).

Definition form_bilingual_str (self : SrtScript) : str :=
  numbered get_bilingual_str O (segments self).

(** The line boundaries of [str.splitlines()]. *)
Definition is_linebreak (c : char) : bool :=
  ((10 <=? c) && (c <=? 13) || (28 <=? c) && (c <=? 30)
   || (c =? 133) || (c =? 8232) || (c =? 8233))%N.

(** [s.splitlines()]: a carriage return followed by a line feed is one
    boundary, and a boundary at the very end opens no further line. *)
Fixpoint splitlines_go (cur : str) (s : str) : list str :=
  match s with
  | [] =>
      match cur with
      | [] => []
      | _ => [rev cur]
      end
  | c :: s' =>
      if is_linebreak c then
        match c, s' with
        | 13%N, 10%N :: s'' => rev cur :: splitlines_go [] s''
        | _, _ => rev cur :: splitlines_go [] s'
        end
      else splitlines_go (c :: cur) s'
  end.

Definition splitlines (s : str) : list str := splitlines_go [] s.

(** [[l[i:i + n] for i in range(0, len(l), n)]], for [1 <= n]. *)
Fixpoint blocks_go {A : Type} (fuel : nat) (n : nat) (l : list A)
    : list (list A) :=
  match fuel with
  | O => []
  | S fuel' =>
      match l with
      | [] => []
      | _ => firstn n l :: blocks_go fuel' n (skipn n l)
      end
  end.

Definition blocks {A : Type} (n : nat) (l : list A) : list (list A) :=
  blocks_go (List.length l) n l.

(** What [parse_from_srt_file] comes to: a collection or an exception
    of the constructors, or the [RuntimeError] of a call with neither a
    path nor a string. *)
Inductive parsed : Type :=
| Parsed (script : result SrtScript)
| NeedInput.

(** The lines of the file at [path], as [f.readlines()] gives them in
    text mode ([content] is the decoded text; a line ends at a line feed,
    a carriage return or both), each [rstrip]ped. *)
Definition is_newline (c : char) : bool := ((c =? 10) || (c =? 13))%N.

Fixpoint readlines_go (cur : str) (s : str) : list str :=
  match s with
  | [] =>
      match cur with
      | [] => []
      | _ => [rev cur]
      end
  | c :: s' =>
      if is_newline c then
        match c, s' with
        | 13%N, 10%N :: s'' => rev cur :: readlines_go [] s''
        | _, _ => rev cur :: readlines_go [] s'
        end
      else readlines_go (c :: cur) s'
  end.

Definition read_stripped_lines (content : str) : list str :=
  List.map rstrip (readlines_go [] content).

(** [parse_from_srt_file]; [path] stands for the text of the file at
    that path. *)
Definition parse_from_srt_file (src tgt : lang) (path srt_str : option str)
    : parsed :=
  let lines :=
    match path, srt_str with
    | Some content, _ => Some (read_stripped_lines content)
    | None, Some s => Some (splitlines s)
    | None, None => None
    end in
  match lines with
  | None => NeedInput
  | Some script_lines =>
      Parsed
        (let* line2 := of_option IndexError (nth_error script_lines 2) in
         let* bilingual :=
           if negb (str_eqb line2 []) then
             let* line3 := of_option IndexError (nth_error script_lines 3) in
             Ok (negb (str_eqb line3 []))
           else Ok false in
         let segs :=
           if bilingual then blocks 5 script_lines else blocks 4 script_lines in
         SrtScript_init src tgt (List.map FromList segs))
  end.

(** ** [split_script] *)

(** A value, or the [AssertionError] of a failed [assert]. *)
Inductive asserted (A : Type) : Type :=
| Holds (a : A)
| AssertionError.

Arguments Holds {A} a.
Arguments AssertionError {A}.

(** [s.strip()] *)
Definition strip (s : str) : str := rstrip (lstrip s).

(** The variables of the loop of [split_script]. *)
Record chunking : Type := mk_chunking {
  script_arr : list str;
  range_arr : list (Z * Z);
  chunk_start : Z;
  chunk_end : Z;
  chunk_script : str
}.

Fixpoint split_script_loop (chunk_size : Z) (script_split : list str)
    (st : chunking) : chunking :=
  match script_split with
  | [] => st
  | sentence :: rest =>
      if Z.of_nat (List.length (chunk_script st))
         + Z.of_nat (List.length sentence) + 1 <=? chunk_size
      then
        split_script_loop chunk_size rest
          (mk_chunking (script_arr st) (range_arr st) (chunk_start st)
             (chunk_end st + 1) (chunk_script st ++ sentence ++ newline2))
      else
        split_script_loop chunk_size rest
          (mk_chunking (script_arr st ++ [strip (chunk_script st)])
             (range_arr st ++ [(chunk_start st, chunk_end st)])
             (chunk_end st + 1) (chunk_end st + 1) (sentence ++ newline2))
  end.

(** [split_script(script_in, chunk_size)] *)
Definition split_script (script_in : str) (chunk_size : Z)
    : asserted (list str * list (Z * Z)) :=
  let script_split := split newline2 script_in in
  let st := split_script_loop chunk_size script_split
              (mk_chunking [] [] 1 0 []) in
  let final :=
    match strip (chunk_script st) with
    | [] => (script_arr st, range_arr st)
    | _ :: _ =>
        (script_arr st ++ [strip (chunk_script st)],
         range_arr st
         ++ [(chunk_start st, Z.of_nat (List.length script_split) - 1)])
    end in
  if (List.length (fst final) =? List.length (snd final))%nat
  then Holds final else AssertionError.

(** ** [extract_words] *)

(** [s.split()]: the runs of characters that are not whitespace. *)
Fixpoint split_words_go (cur : str) (s : str) : list str :=
  match s with
  | [] =>
      match cur with
      | [] => []
      | _ => [rev cur]
      end
  | c :: s' =>
      if is_space c then
        match cur with
        | [] => split_words_go [] s'
        | _ => rev cur :: split_words_go [] s'
        end
      else split_words_go (c :: cur) s'
  end.

Definition split_words (s : str) : list str := split_words_go [] s.

(** [[words[i:i + j] for i in range(len(words) - j + 1)]] *)
Definition windows {A : Type} (j : nat) (words : list A) : list (list A) :=
  List.map (fun i => firstn j (skipn i words))
    (seq 0 (List.length words + 1 - j)).

(** The loop [for j in range(n, 0, -1)], from [j] down. *)
Fixpoint windows_down {A : Type} (j : nat) (words : list A) : list (list A) :=
  match j with
  | O => []
  | S j' => windows j words ++ windows_down j' words
  end.

Definition extract_words (sentence : str) (n : nat) : list (list str) :=
  windows_down n (split_words sentence).

(** ** [check_len_and_split_range] *)

(** The loop over the sliced segments: the new segments and
    [extra_len]. *)
Fixpoint split_range_loop (limit : nat) (self : SrtScript)
    (segs : list SrtSegment) (text_threshold : Z) (time_threshold : float)
    (acc : list SrtSegment) (extra_len : Z)
    : result (list SrtSegment * Z) :=
  match segs with
  | [] => Ok (acc, extra_len)
  | seg :: segs' =>
      if too_long seg text_threshold time_threshold then
        let* seg_list :=
          split_seg limit self seg text_threshold time_threshold in
        split_range_loop limit self segs' text_threshold time_threshold
          (acc ++ seg_list)
          (extra_len + (Z.of_nat (List.length seg_list) - 1))
      else
        split_range_loop limit self segs' text_threshold time_threshold
          (acc ++ [seg]) extra_len
  end.

(** [l[lo:hi] = new] *)
Definition assign_slice {A : Type} (l : list A) (lo hi : Z) (new : list A)
    : list A :=
  firstn (slice_start l lo) l ++ new
  ++ skipn (Nat.max (slice_start l lo) (slice_stop l hi)) l.

Definition check_len_and_split_range (limit : nat) (self : SrtScript)
    (range : Z * Z) (text_threshold : Z) (time_threshold : float)
    : result (SrtScript * Z) :=
  let start_seg_id := fst range in
  let end_seg_id := snd range in
  let* r :=
    split_range_loop limit self
      (py_slice (segments self) (start_seg_id - 1) end_seg_id)
      text_threshold time_threshold [] 0 in
  Ok (with_segments self
        (assign_slice (segments self) (start_seg_id - 1) end_seg_id (fst r)),
      snd r).

Arguments check_len_and_split_range limit%_nat self range
  text_threshold%_Z time_threshold%_Q.

(** ** Notions used in the further properties *)

(** What is left of a character after all the replacements of
    [remove_trans_punc]. *)
Definition blanked (puncs : str) (c : char) : char :=
  if existsb (char_eqb c) puncs then 32%N else c.

(** A text that stays on one line. *)
Definition one_line (s : str) : bool :=
  forallb (fun c => negb (is_linebreak c)) s.

(** The lines of the blocks written for the segments from number [i]
    on: source-only and bilingual. *)
Fixpoint src_lines (i : nat) (segs : list SrtSegment) : list str :=
  match segs with
  | [] => []
  | seg :: segs' =>
      str_of_Z (Z.of_nat i + 1) :: duration seg :: source_text seg :: []
      :: src_lines (S i) segs'
  end.

Fixpoint bilingual_lines (i : nat) (segs : list SrtSegment) : list str :=
  match segs with
  | [] => []
  | seg :: segs' =>
      str_of_Z (Z.of_nat i + 1) :: duration seg :: source_text seg
      :: translation seg :: [] :: bilingual_lines (S i) segs'
  end.

(** Ranges that follow each other: the first starts at [from], each
    next one right after the end of the one before, and [next] is where
    a further range would start. *)
Fixpoint chained (from : Z) (ranges : list (Z * Z)) (next : Z) : Prop :=
  match ranges with
  | [] => from = next
  | (s, e) :: rest => s = from /\ chained (e + 1) rest next
  end.

(** Segments whose times follow each other from [t0] to [t1]: each
    starts where the one before ends. *)
Fixpoint tiles (t0 : float) (segs : list SrtSegment) (t1 : float) : Prop :=
  match segs with
  | [] => t0 = t1
  | seg :: rest => start seg = t0 /\ tiles (end_ seg) rest t1
  end.

(** The texts of merged segments: [parts] with one space between each
    two. *)
Fixpoint join_space (parts : list str) : str :=
  match parts with
  | [] => []
  | p :: rest =>
      match rest with
      | [] => p
      | _ :: _ => p ++ py " " ++ join_space rest
      end
  end.

(** A segment that closes a sentence of [form_whole_sentence]. *)
Definition closes (ending_puncs : list str) (seg : SrtSegment) : bool :=
  match ends_sentence ending_puncs seg with
  | Ok true => true
  | _ => false
  end.

(** Two segments that differ in their translation at most. *)
Definition same_but_translation (a b : SrtSegment) : Prop :=
  with_translation a (translation b) = b.

(** A text with a character that is not whitespace. *)
Definition has_text (s : str) : bool :=
  existsb (fun c => negb (is_space c)) s.

(** A segment that is what the text-block constructor makes of its own
    duration and texts, all of them on one line. *)
Definition from_src_block (src tgt : lang) (seg : SrtSegment) : Prop :=
  init_from_list src tgt [[]; duration seg; source_text seg; []] = Ok seg
  /\ one_line (duration seg) = true
  /\ one_line (source_text seg) = true.

Definition from_bilingual_block (src tgt : lang) (seg : SrtSegment) : Prop :=
  init_from_list src tgt
    [[]; duration seg; source_text seg; translation seg; []] = Ok seg
  /\ one_line (duration seg) = true
  /\ one_line (source_text seg) = true
  /\ one_line (translation seg) = true.

(** ** Further concrete inputs *)

Definition bilingual_script : SrtScript :=
  mk_SrtScript EN ES [hello_segment; world_segment].

Definition half_translated_script : SrtScript :=
  mk_SrtScript EN ES
    [plain_segment EN ES 0 1 "00:00:00,000" "00:00:01,000" "Hello" "";
     world_segment].

(** Ten seconds with a translation of 34 characters and no comma. *)
Definition long_segment : SrtSegment :=
  mk_SrtSegment EN EN 0%Q 10%Q 0%Q 0%Q None None (py "00:00:00,000")
    (py "00:00:10,000") (py "one two three four five six seven")
    (py "00:00:00,000 --> 00:00:10,000")
    (py "uno dos tres cuatro cinco seis siete").

Definition long_script : SrtScript := mk_SrtScript EN EN [long_segment].

(** One segment that has no source text. *)
Definition silent_script : SrtScript :=
  mk_SrtScript EN ES
    [hello_segment;
     plain_segment EN ES 1 2 "00:00:01,000" "00:00:02,000" "" ""].

(** ** [get_real_word] *)

Section RealWord.

(** [str.lower], as any function on texts. *)
Variable lower : str -> str.

Definition get_real_word (word_list : list str) : str * str * Z :=
  let word := fold_left (fun word w => word ++ w ++ py " ") word_list [] in
  let word := py_slice word 0 (-1) in
  let len := Z.of_nat (List.length word) in
  if str_eqb (py_slice word (-2) len) [46%N; 10%N] then
    (word, lower (py_slice word 0 (-2)), len + -2)
  else if existsb (str_eqb (py_slice word (-1) len))
            [py "."; newline; py ","; py "!"; py "?"] then
    (word, lower (py_slice word 0 (-1)), len + -1)
  else (word, lower word, len + 0).

End RealWord.

(** ** [Task.postprocess] *)

(** The two switches of [post_setting]. *)
Record post_setting : Type := mk_post_setting {
  setting_check_len_and_split : bool;
  setting_remove_trans_punctuation : bool
}.

(** The two steps on the collection, [check_len_and_split] being called
    with its default thresholds. *)
Definition postprocess (limit : nat) (setting : post_setting)
    (script : SrtScript) : result SrtScript :=
  let* script :=
    if setting_check_len_and_split setting
    then check_len_and_split limit script 30 1
    else Ok script in
  Ok (if setting_remove_trans_punctuation setting
      then remove_trans_punctuation script
      else script).
(** * Properties *)

(** ** Merging *)

Lemma merge_seg_fields (a b : SrtSegment) :
  merge_seg a b =
  mk_SrtSegment (src_lang a) (tgt_lang a) (start a) (end_ b) (start_ms a)
    (end_ms b) (start_time a) (end_time a) (start_time_str a)
    (end_time_str b) (source_text a ++ py " " ++ source_text b)
    (start_time_str a ++ py " --> " ++ end_time_str b)
    (translation a ++ py " " ++ translation b).
Proof. reflexivity. Qed.

Lemma add_assoc (a b c : SrtSegment) : add (add a b) c = add a (add b c).
Proof.
  unfold add. rewrite !merge_seg_fields. cbn [src_lang tgt_lang start end_
    start_ms end_ms start_time end_time start_time_str end_time_str
    source_text duration translation].
  f_equal; rewrite <- !app_assoc; reflexivity.
Qed.

Lemma merge_segs_three (src tgt : lang) (a b c : SrtSegment) :
  merge_segs (mk_SrtScript src tgt [a; b; c]) [0; 1; 2]%nat = Ok (add (add a b) c).
Proof. reflexivity. Qed.

(** C8. Merging is associative: combining [a] with [b] and then with [c]
    gives the same segment as combining [a] with the combination of [b]
    and [c], and [merge_segs] over the three indices gives that segment
    too; in particular the source text, the translation and the end-time
    attributes agree. *)
Theorem merge_associative (src tgt : lang) (a b c : SrtSegment) :
  let left := add (add a b) c in
  let right := add a (add b c) in
  source_text left = source_text right
  /\ translation left = translation right
  /\ end_ left = end_ right
  /\ end_ms left = end_ms right
  /\ end_time_str left = end_time_str right
  /\ left = right
  /\ merge_segs (mk_SrtScript src tgt [a; b; c]) [0; 1; 2]%nat = Ok left
  /\ source_text left = source_text a ++ py " " ++ source_text b ++ py " " ++ source_text c
  /\ translation left = translation a ++ py " " ++ translation b ++ py " " ++ translation c
  /\ end_ left = end_ c.
Proof.
  cbv zeta. rewrite merge_segs_three, <- add_assoc.
  repeat split; unfold add; rewrite !merge_seg_fields; cbn;
    rewrite <- ?app_assoc; reflexivity.
Qed.

(** ** Merging in place and the value-form [+] *)

Lemma store_assign_eq (self seg : Store.loc) f (h : gmap Store.loc SrtSegment) a b :
  h !! self = Some a -> h !! seg = Some b ->
  Store.assign self seg f h = Some (<[self := f a b]> h).
Proof. intros Ha Hb. unfold Store.assign. rewrite Ha, Hb. reflexivity. Qed.

(** In place, the receiver becomes [merge_seg a b] and nothing else
    changes, also when [seg] is the receiver itself. *)
Lemma store_merge_seg_eq (self seg : Store.loc) (h : gmap Store.loc SrtSegment) a b :
  h !! self = Some a -> h !! seg = Some b ->
  Store.merge_seg self seg h = Some (<[self := merge_seg a b]> h).
Proof.
  intros Ha Hb. unfold Store.merge_seg.
  destruct (decide (self = seg)) as [->|Hne].
  - assert (a = b) by congruence. subst b.
    repeat (erewrite store_assign_eq;
            [ | apply lookup_insert_eq | apply lookup_insert_eq ];
            cbn [mbind option_bind]; rewrite ?insert_insert_eq).
    erewrite store_assign_eq; [ | exact Ha | exact Ha ].
    cbn [mbind option_bind].
    repeat (erewrite store_assign_eq;
            [ | apply lookup_insert_eq | apply lookup_insert_eq ];
            cbn [mbind option_bind]; rewrite ?insert_insert_eq).
    reflexivity.
  - erewrite store_assign_eq; [ | exact Ha | exact Hb ].
    cbn [mbind option_bind].
    repeat (erewrite store_assign_eq;
            [ | apply lookup_insert_eq
              | rewrite lookup_insert_ne by exact Hne; exact Hb ];
            cbn [mbind option_bind]; rewrite ?insert_insert_eq).
    reflexivity.
Qed.

(** C9. [a + b] returns a new object holding [merge_seg] applied to a
    copy of [a] with argument [b]; [a] and [b], and every other object,
    keep all their attributes. *)
Theorem add_leaves_operands (h : gmap Store.loc SrtSegment)
    (a b : Store.loc) (va vb : SrtSegment) :
  h !! a = Some va ->
  h !! b = Some vb ->
  exists (r : Store.loc) (h0 h' : gmap Store.loc SrtSegment),
    Store.add a b h = Some (r, h')
    /\ Store.deepcopy a h = Some (r, h0)
    /\ Store.merge_seg r b h0 = Some h'
    /\ h !! r = None
    /\ h' !! r = Some (merge_seg va vb)
    /\ h' !! a = Some va
    /\ h' !! b = Some vb
    /\ (forall l : Store.loc, l <> r -> h' !! l = h !! l).
Proof.
  intros Ha Hb.
  set (r := fresh (dom h)).
  assert (Hr : h !! r = None).
  { apply not_elem_of_dom. apply is_fresh. }
  assert (Hra : a <> r) by (intros ->; congruence).
  assert (Hrb : b <> r) by (intros ->; congruence).
  exists r, (<[r := va]> h), (<[r := merge_seg va vb]> h).
  assert (Hcopy : Store.deepcopy a h = Some (r, <[r := va]> h)).
  { unfold Store.deepcopy. rewrite Ha. reflexivity. }
  assert (Hmerge : Store.merge_seg r b (<[r := va]> h)
                   = Some (<[r := merge_seg va vb]> h)).
  { erewrite store_merge_seg_eq.
    - rewrite insert_insert_eq. reflexivity.
    - apply lookup_insert_eq.
    - rewrite lookup_insert_ne by congruence. exact Hb. }
  repeat split.
  - unfold Store.add. rewrite Hcopy. cbn [mbind option_bind fst snd].
    rewrite Hmerge. reflexivity.
  - exact Hcopy.
  - exact Hmerge.
  - exact Hr.
  - apply lookup_insert_eq.
  - rewrite lookup_insert_ne by congruence. exact Ha.
  - rewrite lookup_insert_ne by congruence. exact Hb.
  - intros l Hl. rewrite lookup_insert_ne by congruence. reflexivity.
Qed.

Lemma add_leaves_operands_witness :
  exists (r : Store.loc) (h0 h' : gmap Store.loc SrtSegment),
    Store.add 1%positive 2%positive two_objects = Some (r, h')
    /\ Store.deepcopy 1%positive two_objects = Some (r, h0)
    /\ Store.merge_seg r 2%positive h0 = Some h'
    /\ two_objects !! r = None
    /\ h' !! r = Some (merge_seg hello_segment world_segment)
    /\ h' !! 1%positive = Some hello_segment
    /\ h' !! 2%positive = Some world_segment
    /\ (forall l : Store.loc, l <> r -> h' !! l = two_objects !! l).
Proof.
  apply (add_leaves_operands two_objects 1%positive 2%positive
           hello_segment world_segment); reflexivity.
Defined.

(** ** Strings *)

Lemma char_eqb_eq (a b : char) : char_eqb a b = true <-> a = b.
Proof. apply N.eqb_eq. Qed.

Lemma str_eqb_eq (a b : str) : str_eqb a b = true <-> a = b.
Proof.
  revert b. induction a as [|x a IH]; intros [|y b]; cbn; try (split; congruence).
  rewrite andb_true_iff, char_eqb_eq, IH. split.
  - intros [-> ->]. reflexivity.
  - intros H. injection H. auto.
Qed.

Lemma startswith_app (p s : str) :
  startswith p s = true <-> exists t, s = p ++ t.
Proof.
  revert s. induction p as [|x p IH]; intros s; cbn.
  - split; eauto.
  - destruct s as [|y s].
    + split; [discriminate | intros [t Ht]; discriminate].
    + rewrite andb_true_iff, char_eqb_eq, IH. split.
      * intros [-> [t ->]]. eauto.
      * intros [t Ht]. injection Ht as -> ->. eauto.
Qed.

(** [contains p s] says that [p] occurs in [s]. *)
Lemma contains_app (p s : str) :
  contains p s = true <-> exists pre post, s = pre ++ p ++ post.
Proof.
  induction s as [|c s IH].
  - cbn. rewrite orb_false_r, startswith_app. split.
    + intros [t Ht]. exists [], t. exact Ht.
    + intros [pre [post H]]. destruct pre; [|discriminate]. eauto.
  - cbn [contains]. rewrite orb_true_iff, IH, startswith_app. split.
    + intros [[t Ht] | [pre [post H]]].
      * exists [], t. exact Ht.
      * exists (c :: pre), post. rewrite H. reflexivity.
    + intros [pre [post H]]. destruct pre as [|d pre].
      * left. eauto.
      * right. injection H as -> ->. eauto.
Qed.

Lemma existsb_str_eqb (x : str) (l : list str) :
  existsb (str_eqb x) l = true <-> In x l.
Proof.
  rewrite existsb_exists. split.
  - intros [y [Hy He]]. apply str_eqb_eq in He. subst. exact Hy.
  - intros H. exists x. split; [exact H | apply str_eqb_eq; reflexivity].
Qed.

(** ** Forming whole sentences *)

Lemma collect_sentences_step (ending_puncs : list str) (i : nat)
    (seg : SrtSegment) (segs : list SrtSegment)
    (merge_list : list (list nat)) (sentence : list nat) :
  collect_sentences ending_puncs i (seg :: segs) merge_list sentence =
  match ends_sentence ending_puncs seg with
  | Ok true =>
      collect_sentences ending_puncs (S i) segs
        (merge_list ++ [sentence ++ [i]]) []
  | Ok false =>
      collect_sentences ending_puncs (S i) segs merge_list (sentence ++ [i])
  | Raise e => Raise e
  end.
Proof.
  cbn [collect_sentences]. destruct (ends_sentence ending_puncs seg) as [[|]|e];
    reflexivity.
Qed.

(** C5, as the code has it. A segment closes the run of accumulated
    indices exactly when its source text ends with a character of the
    sentence-terminator set, is longer than 10 and has no ["vs."]
    anywhere in it; then the run with this index goes to the merge list
    and a new run starts.  A segment failing one of the three conditions
    is added to the current run. *)
Theorem sentence_trigger (ending_puncs : list str) (i : nat)
    (seg : SrtSegment) (segs : list SrtSegment)
    (merge_list : list (list nat)) (sentence : list nat)
    (c : char) :
  last_char (source_text seg) = Ok c ->
  let trigger :=
    In [c] ending_puncs
    /\ (10 < List.length (source_text seg))%nat
    /\ ~ (exists pre post, source_text seg = pre ++ py "vs." ++ post) in
  (trigger ->
   collect_sentences ending_puncs i (seg :: segs) merge_list sentence =
   collect_sentences ending_puncs (S i) segs (merge_list ++ [sentence ++ [i]]) [])
  /\ (~ trigger ->
      collect_sentences ending_puncs i (seg :: segs) merge_list sentence =
      collect_sentences ending_puncs (S i) segs merge_list (sentence ++ [i])).
Proof.
  intros Hc trigger.
  assert (Hiff : ends_sentence ending_puncs seg = Ok true <-> trigger).
  { unfold ends_sentence, trigger. rewrite Hc. cbn [bind].
    rewrite <- existsb_str_eqb, <- contains_app, <- Nat.ltb_lt.
    destruct (existsb _ _), (_ <? _)%nat, (contains _ _); cbn;
      (split; [ try discriminate; intros _; repeat split; congruence
              | intros (H1 & H2 & H3); first [ reflexivity | discriminate | exfalso; apply H3; reflexivity ] ]). }
  assert (Hval : exists b, ends_sentence ending_puncs seg = Ok b).
  { unfold ends_sentence. rewrite Hc. cbn [bind]. eauto. }
  destruct Hval as [b Hb]. rewrite collect_sentences_step, Hb.
  destruct b; split; intros H; try reflexivity.
  - exfalso. apply H. apply Hiff. exact Hb.
  - apply Hiff in H. congruence.
Qed.

Lemma sentence_trigger_witness :
  collect_sentences (sentence_end (punctuation_dict EN)) 0
    [sentence_segment] [] []
  = collect_sentences (sentence_end (punctuation_dict EN)) 1 []
      ([] ++ [[] ++ [0%nat]]) [].
Proof.
  apply (proj1 (sentence_trigger (sentence_end (punctuation_dict EN)) 0
                  sentence_segment [] [] [] 46%N eq_refl)).
  split; [|split].
  - apply existsb_str_eqb. reflexivity.
  - vm_compute. lia.
  - rewrite <- contains_app. vm_compute. discriminate.
Defined.

(** C5 as worded fails: this text meets the three conditions of the
    specification (terminator, length, not ending in ["vs."]), and the
    segment is added to the open run instead of closing it. *)
Lemma sentence_trigger_counterexample :
  spec_ends_sentence (sentence_end (punctuation_dict EN))
    (source_text versus_segment) = true
  /\ collect_sentences (sentence_end (punctuation_dict EN)) 0
       [versus_segment] [] [] = Ok ([], [0%nat]).
Proof. split; reflexivity. Qed.

(** Every index met by the first loop ends up either in a closed run or
    in the run still open at the end. *)
Lemma collect_sentences_indices (ending_puncs : list str)
    (segs : list SrtSegment) :
  forall (i : nat) (merge_list merge_list' : list (list nat))
         (sentence sentence' : list nat),
    collect_sentences ending_puncs i segs merge_list sentence
    = Ok (merge_list', sentence') ->
    concat merge_list' ++ sentence'
    = concat merge_list ++ sentence ++ seq i (List.length segs).
Proof.
  induction segs as [|seg segs IH]; intros i ml ml' s s' H.
  - cbn in H. injection H as <- <-. cbn. rewrite app_nil_r. reflexivity.
  - rewrite collect_sentences_step in H.
    destruct (ends_sentence ending_puncs seg) as [[|]|e]; try discriminate.
    + apply IH in H. rewrite H. rewrite concat_app. cbn.
      rewrite app_nil_r, <- !app_assoc. reflexivity.
    + apply IH in H. rewrite H. cbn. rewrite <- !app_assoc. reflexivity.
Qed.

(** The run left open by the first loop is exactly the indices after the
    last closing segment; [form_whole_sentence] reads only the closed
    runs. *)
Lemma collect_sentences_open_tail (ending_puncs : list str)
    (segs tail : list SrtSegment) :
  Forall (fun seg => ends_sentence ending_puncs seg = Ok false) tail ->
  forall (i : nat) (merge_list merge_list' : list (list nat))
         (sentence sentence' : list nat),
    collect_sentences ending_puncs i segs merge_list sentence
    = Ok (merge_list', sentence') ->
    collect_sentences ending_puncs i (segs ++ tail) merge_list sentence
    = Ok (merge_list', sentence' ++ seq (i + List.length segs) (List.length tail)).
Proof.
  intros Htail. induction segs as [|seg segs IH]; intros i ml ml' s s' H.
  - cbn in H. injection H as <- <-. cbn [app List.length].
    rewrite Nat.add_0_r. revert i s.
    induction Htail as [|seg tail Hseg _ IHt]; intros i s.
    + cbn. rewrite app_nil_r. reflexivity.
    + rewrite collect_sentences_step, Hseg, IHt. cbn.
      rewrite <- app_assoc. reflexivity.
  - rewrite collect_sentences_step in H. cbn [app].
    rewrite collect_sentences_step.
    destruct (ends_sentence ending_puncs seg) as [[|]|e]; try discriminate;
      apply IH in H; rewrite H; cbn [List.length];
      replace (S i + List.length segs)%nat with (i + S (List.length segs))%nat by lia;
      reflexivity.
Qed.

(** A segment with empty source text stops the first loop:
    [seg.source_text[-1]] raises. *)
Lemma collect_sentences_empty_text (ending_puncs : list str) (i : nat)
    (seg : SrtSegment) (segs : list SrtSegment)
    (merge_list : list (list nat)) (sentence : list nat) :
  source_text seg = [] ->
  collect_sentences ending_puncs i (seg :: segs) merge_list sentence
  = Raise IndexError.
Proof.
  intros H. cbn [collect_sentences]. unfold ends_sentence. rewrite H.
  reflexivity.
Qed.

(** C1 on the code: the fragment after the last closing segment is not
    merged into a final segment; it is gone from the rewritten
    collection. *)
Theorem form_whole_sentence_loses_tail :
  exists script out : SrtScript,
    SrtScript_init EN ZH records_with_tail = Ok script
    /\ List.map source_text (segments script)
       = [py "Hello world, this is it."; py "and then"]
    /\ form_whole_sentence script = Ok out
    /\ List.map source_text (segments out) = [py "Hello world, this is it."].
Proof.
  eexists. eexists. split; [vm_compute; reflexivity|].
  split; [reflexivity|]. split; vm_compute; reflexivity.
Qed.

(** ** Reconciling translated lines *)

Lemma nth_error_set_nth_ne {A : Type} (l : list A) (i k : nat) (v : A) :
  i <> k -> nth_error (set_nth i v l) k = nth_error l k.
Proof.
  revert i k. induction l as [|x l IH]; intros [|i] [|k] H; cbn;
    try reflexivity; try congruence.
  apply IH. congruence.
Qed.

Lemma nth_error_set_nth_eq {A : Type} (l : list A) (i : nat) (v : A) :
  (i < List.length l)%nat -> nth_error (set_nth i v l) i = Some v.
Proof.
  revert i. induction l as [|x l IH]; intros [|i] H; cbn in *;
    try lia; try reflexivity.
  apply IH. lia.
Qed.

Lemma length_set_nth {A : Type} (l : list A) (i : nat) (v : A) :
  List.length (set_nth i v l) = List.length l.
Proof.
  revert i. induction l as [|x l IH]; intros [|i]; cbn; try reflexivity.
  rewrite IH. reflexivity.
Qed.

Lemma plain_line_inv (line : str) :
  plain_line line = true ->
  contains (py "Note:") line = false /\ exists c rest, line = c :: rest.
Proof.
  unfold plain_line. rewrite andb_true_iff, !negb_true_iff. intros [Hn He].
  split; [exact Hn|]. destruct line; [discriminate | eauto].
Qed.

(** The assignment loop on lines it gets through: a segment with a line
    at its position takes the trimmed line, the others are kept. *)
Lemma assign_lines_plain (segs : list SrtSegment) :
  forall (lines : list str) (i : nat),
    (forall k line, (i <= k)%nat -> nth_error lines k = Some line ->
                    plain_line line = true) ->
    exists out,
      assign_lines lines i segs = Ok out
      /\ List.length out = List.length segs
      /\ forall k seg,
           nth_error segs k = Some seg ->
           nth_error out k =
           Some (match nth_error lines (i + k) with
                 | Some line => with_translation seg (trim_line line)
                 | None => seg
                 end).
Proof.
  induction segs as [|seg segs IH]; intros lines i Hplain.
  - exists []. cbn. repeat split. intros [|k] s H; discriminate.
  - cbn [assign_lines].
    destruct (i <? List.length lines)%nat eqn:Hlt.
    + apply Nat.ltb_lt in Hlt.
      destruct (nth_error lines i) as [line|] eqn:Hline;
        [|apply nth_error_None in Hline; lia].
      cbn [of_option bind].
      destruct (plain_line_inv line (Hplain i line (Nat.le_refl i) Hline))
        as [Hnote [c [rest ->]]].
      rewrite Hnote. cbn [nth_error of_option bind].
      set (lines' := if existsb (char_eqb c) [32%N; 10%N]
                     then set_nth i (skipn 1 (c :: rest)) lines else lines).
      assert (Hother : forall k, i <> k -> nth_error lines' k = nth_error lines k).
      { intros k Hk. unfold lines'. destruct (existsb _ _); [|reflexivity].
        apply nth_error_set_nth_ne. exact Hk. }
      assert (Hat : nth_error lines' i = Some (trim_line (c :: rest))).
      { unfold lines', trim_line. destruct (existsb _ _); [|exact Hline].
        apply nth_error_set_nth_eq. exact Hlt. }
      rewrite Hat. cbn [of_option bind].
      destruct (IH lines' (S i)) as [out [Hout [Hlen Hnth]]].
      { intros k l Hk Hl. rewrite Hother in Hl by lia.
        apply (Hplain k l); [lia | exact Hl]. }
      rewrite Hout. cbn [bind]. eexists. split; [reflexivity|].
      split; [cbn; rewrite Hlen; reflexivity|].
      intros [|k] s Hs.
      * cbn in Hs. injection Hs as <-. cbn [nth_error].
        rewrite Nat.add_0_r, Hline. reflexivity.
      * cbn in Hs. cbn [nth_error]. rewrite (Hnth k s Hs).
        rewrite Hother by lia.
        replace (S i + k)%nat with (i + S k)%nat by lia. reflexivity.
    + apply Nat.ltb_ge in Hlt.
      destruct (IH lines (S i)) as [out [Hout [Hlen Hnth]]].
      { intros k l Hk Hl. apply (Hplain k l); [lia | exact Hl]. }
      rewrite Hout. cbn [bind]. eexists. split; [reflexivity|].
      split; [cbn; rewrite Hlen; reflexivity|].
      intros [|k] s Hs.
      * cbn in Hs. injection Hs as <-. cbn [nth_error].
        rewrite Nat.add_0_r.
        destruct (nth_error lines i) eqn:E; [|reflexivity].
        assert (i < List.length lines)%nat
          by (apply nth_error_Some; congruence). lia.
      * cbn in Hs. cbn [nth_error]. rewrite (Hnth k s Hs).
        replace (S i + k)%nat with (i + S k)%nat by lia. reflexivity.
Qed.

Lemma replies_app (u v : list outcome) :
  replies (u ++ v) = (replies u + replies v)%nat.
Proof. unfold replies. rewrite List.filter_app, length_app. reflexivity. Qed.

Lemma failures_app (u v : list outcome) :
  failures (u ++ v) = (failures u + failures v)%nat.
Proof. unfold failures. rewrite List.filter_app, length_app. reflexivity. Qed.

Lemma replies_failures (w : list outcome) :
  (replies w + failures w)%nat = List.length w.
Proof.
  induction w as [|[c|] w IH]; unfold replies, failures in *; cbn in *; lia.
Qed.

(** The retry loop takes the outcomes up to and including the first
    reply; each of them is one request sent. *)
Lemma request_until_reply_some (target : Z) (translate : str)
    (world : list outcome) :
  forall (sent : list request) t world' sent',
    request_until_reply target translate world sent = Some (t, world', sent') ->
    exists used,
      world = used ++ world'
      /\ replies used = 1%nat
      /\ List.length sent' = (List.length sent + List.length used)%nat.
Proof.
  induction world as [|[c|] world IH]; intros sent t world' sent' H.
  - discriminate.
  - cbn in H. injection H as <- <- <-. exists [Reply c].
    repeat split. rewrite length_app. reflexivity.
  - cbn in H. apply IH in H. destruct H as [used [-> [Hr Hl]]].
    exists (Failure :: used). repeat split.
    + exact Hr.
    + rewrite Hl, length_app. cbn. lia.
Qed.

Lemma request_until_reply_total (target : Z) (translate : str)
    (world : list outcome) :
  forall sent : list request,
    (1 <= replies world)%nat ->
    exists t world' sent',
      request_until_reply target translate world sent = Some (t, world', sent').
Proof.
  induction world as [|[c|] world IH]; intros sent H.
  - cbn in H. lia.
  - cbn. eauto.
  - cbn. apply IH. exact H.
Qed.

(** The reconciliation loop: it stops after at most [remaining] replies,
    and earlier only on an exact line count. *)
Lemma solve_unmatched_some (required : Z) (remaining : nat) :
  forall st st' : reconciled,
    solve_unmatched remaining required st = Some st' ->
    exists used,
      rec_world st = used ++ rec_world st'
      /\ rec_count st' = (rec_count st + replies used)%nat
      /\ (replies used <= remaining)%nat
      /\ List.length (rec_sent st')
         = (List.length (rec_sent st) + List.length used)%nat
      /\ (Z.of_nat (List.length (rec_lines st')) <> required ->
          replies used = remaining)
      /\ (replies used = 0%nat -> st' = st).
Proof.
  induction remaining as [|n IH]; intros st st' H.
  - cbn in H. injection H as <-. exists []. cbn. repeat split; lia.
  - cbn [solve_unmatched] in H.
    destruct (Z.of_nat (List.length (rec_lines st)) =? required) eqn:E.
    + injection H as <-. exists []. cbn. apply Z.eqb_eq in E.
      repeat split; lia.
    + destruct (request_until_reply required (rec_translate st)
                  (rec_world st) (rec_sent st)) as [[[t w] s]|] eqn:R;
        [|discriminate].
      apply request_until_reply_some in R. destruct R as [u1 [Hw [Hr Hl]]].
      apply IH in H. cbn [rec_world rec_count rec_sent] in H.
      destruct H as [u2 [Hw2 [Hc [Hle [Hs [Hne _]]]]]].
      exists (u1 ++ u2). rewrite replies_app, length_app, Hr.
      repeat split; try lia.
      rewrite Hw, Hw2, app_assoc. reflexivity.
Qed.

Lemma solve_unmatched_total (required : Z) (remaining : nat) :
  forall st : reconciled,
    (remaining <= replies (rec_world st))%nat ->
    exists st', solve_unmatched remaining required st = Some st'.
Proof.
  induction remaining as [|n IH]; intros st H.
  - cbn. eauto.
  - cbn [solve_unmatched].
    destruct (Z.of_nat (List.length (rec_lines st)) =? required); [eauto|].
    destruct (request_until_reply_total required (rec_translate st)
                (rec_world st) (rec_sent st)) as [t [w [s R]]]; [lia|].
    rewrite R. apply IH. cbn [rec_world].
    apply request_until_reply_some in R. destruct R as [u [Hw [Hr _]]].
    rewrite Hw, replies_app in H. lia.
Qed.

(** A block that already splits into enough lines is assigned at once:
    no request is sent and no row is logged. *)
Lemma set_translation_enough_lines (self : SrtScript) (translate : str)
    (id_range : Z * Z) (world : list outcome) :
  snd id_range - fst id_range + 1
    <= Z.of_nat (List.length (split newline2 translate)) ->
  set_translation self translate id_range world
  = Some (mk_translation_run
            (store_lines self id_range (split newline2 translate))
            None [] world).
Proof.
  intros H. unfold set_translation.
  destruct (_ <? _) eqn:E; [apply Z.ltb_lt in E; lia|].
  reflexivity.
Qed.

Lemma slice_start_le {A : Type} (l : list A) (lo : Z) :
  (slice_start l lo <= List.length l)%nat.
Proof.
  unfold slice_start, slice_index.
  destruct (lo <? 0) eqn:E; [apply Z.ltb_lt in E|]; lia.
Qed.

(** Writing the slice back in place of itself gives the list again. *)
Lemma py_slice_in_place {A : Type} (l : list A) (lo hi : Z) :
  l = firstn (slice_start l lo) l ++ py_slice l lo hi
      ++ skipn (slice_start l lo + List.length (py_slice l lo hi)) l.
Proof.
  unfold py_slice. set (a := slice_start l lo).
  set (m := (slice_stop l hi - a)%nat).
  rewrite <- (firstn_skipn a l) at 1. f_equal.
  rewrite <- (firstn_skipn m (skipn a l)) at 1. f_equal.
  rewrite skipn_skipn, length_firstn, length_skipn.
  destruct (Nat.le_gt_cases m (List.length l - a)) as [H|H].
  - rewrite Nat.min_l by exact H. f_equal. lia.
  - rewrite Nat.min_r by lia.
    rewrite !skipn_all2; [reflexivity | lia | lia].
Qed.

Lemma nth_error_in_slice {A : Type} (pre mid' post : list A) (k : nat) (x : A) :
  nth_error mid' k = Some x ->
  nth_error (pre ++ mid' ++ post) (List.length pre + k) = Some x.
Proof.
  intros H. rewrite nth_error_app2 by lia.
  replace (List.length pre + k - List.length pre)%nat with k by lia.
  rewrite nth_error_app1; [exact H|]. apply nth_error_Some. congruence.
Qed.

(** Lines that are not empty and carry no ["Note:"] are stored by
    position: the segment at place [k] of the range takes line [k],
    trimmed, and a segment with no line at its place is kept, like every
    segment outside the range. *)
Lemma store_lines_plain (self : SrtScript) (id_range : Z * Z)
    (lines : list str) :
  forallb plain_line lines = true ->
  exists out : SrtScript,
    store_lines self id_range lines = Ok out
    /\ List.length (segments out) = List.length (segments self)
    /\ firstn (slice_start (segments self) (fst id_range - 1)) (segments out)
       = firstn (slice_start (segments self) (fst id_range - 1)) (segments self)
    /\ skipn (slice_stop (segments self) (snd id_range)
              `max` slice_start (segments self) (fst id_range - 1)) (segments out)
       = skipn (slice_stop (segments self) (snd id_range)
                `max` slice_start (segments self) (fst id_range - 1)) (segments self)
    /\ forall (k : nat) (seg : SrtSegment),
         nth_error (py_slice (segments self) (fst id_range - 1)
                      (snd id_range)) k = Some seg ->
         nth_error (segments out)
           (slice_start (segments self) (fst id_range - 1) + k)
         = Some (match nth_error lines k with
                 | Some line => with_translation seg (trim_line line)
                 | None => seg
                 end).
Proof.
  intros Hplain. unfold store_lines.
  set (lo := slice_start (segments self) (fst id_range - 1)).
  set (hi := slice_stop (segments self) (snd id_range)).
  set (sliced := py_slice (segments self) (fst id_range - 1) (snd id_range)).
  destruct (assign_lines_plain sliced lines 0) as [out [Hout [Hlen Hnth]]].
  { intros k line _ Hk. rewrite forallb_forall in Hplain.
    apply Hplain. eapply nth_error_In. exact Hk. }
  rewrite Hout. cbn [bind]. eexists. split; [reflexivity|].
  cbn [segments with_segments].
  pose proof (slice_start_le (segments self) (fst id_range - 1)) as Hlo.
  fold lo in Hlo.
  assert (Hpre : List.length (firstn lo (segments self)) = lo)
    by (rewrite length_firstn; lia).
  assert (Hsl : List.length sliced
                = Nat.min (hi - lo) (List.length (segments self) - lo)).
  { unfold sliced, py_slice. fold lo hi.
    rewrite length_firstn, length_skipn. reflexivity. }
  split; [|split; [|split]].
  - rewrite (py_slice_in_place (segments self) (fst id_range - 1)
               (snd id_range)) at 3.
    fold lo sliced. rewrite !length_app, Hlen. reflexivity.
  - rewrite firstn_app, Hpre, Nat.sub_diag, firstn_O, app_nil_r.
    rewrite firstn_firstn. f_equal. lia.
  - rewrite app_assoc, skipn_app.
    rewrite (skipn_all2 (firstn lo (segments self) ++ out))
      by (rewrite length_app, Hpre, Hlen, Hsl; lia).
    rewrite length_app, Hpre, Hlen, Hsl. cbn [app].
    rewrite skipn_skipn.
    destruct (Nat.le_gt_cases (hi - lo) (List.length (segments self) - lo))
      as [H|H].
    + f_equal. lia.
    + rewrite !skipn_all2; [reflexivity | lia | lia].
  - intros k seg Hk. specialize (Hnth k seg Hk). cbn [Nat.add] in Hnth.
    pose proof (nth_error_in_slice (firstn lo (segments self)) out
                  (skipn (lo + List.length sliced) (segments self)) k _ Hnth)
      as H.
    rewrite Hpre in H. exact H.
Qed.




(** C2 on the code: the block has exactly the two lines asked for, no
    request is sent, and the line with ["Note:"] is not dropped: the run
    stops with [UnboundLocalError] at [max_num -= 1]. *)
Theorem set_translation_note_raises :
  Z.of_nat (List.length
              (split newline2 (py "Note: informal." ++ newline2 ++ py "Hola.")))
  = 2 - 1 + 1
  /\ set_translation greeting_script
       (py "Note: informal." ++ newline2 ++ py "Hola.") (1, 2) []
     = Some (mk_translation_run (Raise UnboundLocalError) None [] []).
Proof. split; vm_compute; reflexivity. Qed.

(** Without such a line the exact block is stored by position, each line
    trimmed of one leading space or newline, with no request sent. *)
Lemma set_translation_exact_block :
  exists out : SrtScript,
    set_translation greeting_script
      (py " Hola." ++ newline2 ++ py "Adios.") (1, 2) []
    = Some (mk_translation_run (Ok out) None [] [])
    /\ List.map translation (segments out) = [py "Hola."; py "Adios."].
Proof. eexists. split; vm_compute; reflexivity. Qed.

(** The exact block in general: as many lines as segments asked for, none
    empty and none with ["Note:"], are stored by position, each trimmed of
    one leading space or newline, and no request is sent. *)
Lemma set_translation_exact_plain (self : SrtScript) (translate : str)
    (id_range : Z * Z) (world : list outcome) :
  Z.of_nat (List.length (split newline2 translate))
    = snd id_range - fst id_range + 1 ->
  forallb plain_line (split newline2 translate) = true ->
  exists out : SrtScript,
    set_translation self translate id_range world
    = Some (mk_translation_run (Ok out) None [] world)
    /\ List.length (segments out) = List.length (segments self)
    /\ forall (k : nat) (seg : SrtSegment),
         nth_error (py_slice (segments self) (fst id_range - 1)
                      (snd id_range)) k = Some seg ->
         nth_error (segments out)
           (slice_start (segments self) (fst id_range - 1) + k)
         = Some (match nth_error (split newline2 translate) k with
                 | Some line => with_translation seg (trim_line line)
                 | None => seg
                 end).
Proof.
  intros Hexact Hplain.
  destruct (store_lines_plain self id_range _ Hplain)
    as [out [Hout [Hlen [_ [_ Hnth]]]]].
  exists out. rewrite set_translation_enough_lines by lia.
  rewrite Hout. repeat split; assumption.
Qed.

(** ** Arithmetic of time stamps *)

Lemma int_of_float_nonneg (x : float) :
  (0 <= x)%Q -> int_of_float x = Qfloor x.
Proof.
  destruct x as [n d]. unfold Qle, int_of_float. cbn. intros H.
  apply Z.quot_div_nonneg; lia.
Qed.

Lemma Qfloor_range (x : Q) :
  (inject_Z (Qfloor x) <= x)%Q /\ (x < inject_Z (Qfloor x) + 1)%Q.
Proof.
  split; [apply Qfloor_le|].
  pose proof (Qlt_floor x) as H. rewrite inject_Z_plus in H. exact H.
Qed.

(** [(x * 100) % 100] is a hundred times the fractional part of [x]. *)
Lemma fmod_hundred (x : float) :
  (fmod (fmul x 100) 100 == 100 * (x - inject_Z (Qfloor x)))%Q.
Proof.
  unfold fmod, fmul.
  assert (H : (Qred (x * 100) / 100 == x)%Q) by (rewrite Qred_correct; field).
  rewrite H, !Qred_correct. ring.
Qed.

(** [ms_of x] is the millisecond digit group of [x], whatever its sign. *)
Lemma ms_of_floor (x : float) :
  ms_of x = Qfloor (1000 * (x - inject_Z (Qfloor x))).
Proof.
  unfold ms_of.
  assert (H : (fmul (fmod (fmul x 100) 100) 10
               == 1000 * (x - inject_Z (Qfloor x)))%Q).
  { unfold fmul at 1. rewrite Qred_correct, fmod_hundred. ring. }
  rewrite int_of_float_nonneg.
  - rewrite H. reflexivity.
  - rewrite H. destruct (Qfloor_range x) as [H1 H2]. lra.
Qed.

Lemma ms_of_range (x : float) : 0 <= ms_of x < 1000.
Proof.
  rewrite ms_of_floor. destruct (Qfloor_range x) as [H1 H2].
  set (y := (1000 * (x - inject_Z (Qfloor x)))%Q).
  assert (Hy : (0 <= y)%Q /\ (y < 1000)%Q) by (unfold y; split; lra).
  destruct Hy as [Hy0 Hy1]. split.
  - apply (Qfloor_resp_le 0 y) in Hy0. exact Hy0.
  - destruct (Z_lt_le_dec (Qfloor y) 1000) as [Hlt|Hge]; [exact Hlt|].
    exfalso. pose proof (Qfloor_le y) as Hf.
    assert ((1000 <= inject_Z (Qfloor y))%Q).
    { change 1000%Q with (inject_Z 1000). rewrite <- Zle_Qle. exact Hge. }
    lra.
Qed.

(** ** Splitting strings *)

Lemma startswith_self_app (p s : str) : startswith p (p ++ s) = true.
Proof. apply startswith_app. eauto. Qed.

Lemma split_go_head (sep : str) (s : str) :
  forall (skip : nat) (cur : str),
    exists first rest, split_go sep skip cur s = first :: rest.
Proof.
  induction s as [|c s IH]; intros skip cur; cbn [split_go].
  - eauto.
  - destruct skip as [|k]; [|apply IH].
    destruct (startswith sep (c :: s)); [eauto | apply IH].
Qed.

Lemma split_go_skip (sep x s : str) (cur : str) :
  split_go sep (List.length x) cur (x ++ s) = split_go sep O cur s.
Proof.
  induction x as [|c x IH]; cbn [List.length app split_go].
  - reflexivity.
  - exact IH.
Qed.

Section SplitAtSeparator.

(** The separator [c0 :: sep'] and a piece [a] in which its first
    character does not occur. *)
Variable c0 : char.
Variable sep' : str.
Variable a : str.
Hypothesis c0_not_in_a : ~ In c0 a.

Lemma startswith_later (x : char) (s : str) :
  In x a -> startswith (c0 :: sep') (x :: s) = false.
Proof.
  intros Hx. cbn [startswith].
  destruct (char_eqb c0 x) eqn:E; [|reflexivity].
  apply char_eqb_eq in E. subst x. contradiction.
Qed.

(** The piece is cut off at the separator that follows it. *)
Lemma split_go_piece (b : str) :
  forall cur : str,
    split_go (c0 :: sep') O cur (a ++ (c0 :: sep') ++ b)
    = (rev cur ++ a) :: split_go (c0 :: sep') O [] b.
Proof.
  pose proof startswith_later as Hlater. clear c0_not_in_a.
  induction a as [|x a' IH]; intros cur.
  - cbn [app]. rewrite app_nil_r.
    change (c0 :: sep' ++ b) with ((c0 :: sep') ++ b).
    cbn [split_go app].
    change (c0 :: sep' ++ b) with ((c0 :: sep') ++ b).
    rewrite startswith_self_app. cbn [List.length Nat.pred].
    rewrite split_go_skip. reflexivity.
  - cbn [app split_go]. rewrite Hlater by (left; reflexivity).
    rewrite IH by (intros y s Hy; apply Hlater; right; exact Hy).
    cbn [rev]. rewrite <- app_assoc. reflexivity.
Qed.

(** The last piece. *)
Lemma split_go_last :
  forall cur : str, split_go (c0 :: sep') O cur a = [rev cur ++ a].
Proof.
  pose proof startswith_later as Hlater. clear c0_not_in_a.
  induction a as [|x a' IH]; intros cur.
  - cbn. rewrite app_nil_r. reflexivity.
  - cbn [split_go]. rewrite Hlater by (left; reflexivity).
    rewrite IH by (intros y s Hy; apply Hlater; right; exact Hy).
    cbn [rev]. rewrite <- app_assoc. reflexivity.
Qed.

Lemma split_piece (b : str) :
  split (c0 :: sep') (a ++ (c0 :: sep') ++ b) = a :: split (c0 :: sep') b.
Proof. unfold split. rewrite split_go_piece. reflexivity. Qed.

Lemma split_last : split (c0 :: sep') a = [a].
Proof. unfold split. rewrite split_go_last. reflexivity. Qed.

End SplitAtSeparator.

(** A string with the separator character in it has at least two
    pieces. *)
Lemma split_char_two (c : char) (s : str) :
  In c s ->
  forall cur : str, exists a b rest, split_go [c] O cur s = a :: b :: rest.
Proof.
  induction s as [|x s IH]; intros Hin cur; [destruct Hin|].
  cbn [split_go startswith]. destruct (char_eqb c x) eqn:E; cbn [andb].
  - cbn [List.length Nat.pred].
    destruct (split_go_head [c] s O []) as [f [r ->]]. eauto.
  - apply IH. destruct Hin as [->|H]; [|exact H].
    assert (char_eqb c c = true) by (apply char_eqb_eq; reflexivity).
    congruence.
Qed.

(** ** The record-form constructor *)

Lemma timedelta_new_ok (secs ms : Z) :
  Z.abs secs <= 10000000000000 ->
  0 <= ms < 1500 ->
  exists t,
    timedelta_new secs ms = Ok t
    /\ microseconds t = (ms * 1000) mod 1000000.
Proof.
  intros Hs Hm. unfold timedelta_new.
  set (us := secs * 1000000 + ms * 1000).
  assert (Hd : Z.abs (us / 86400000000) <= 999999999).
  { assert (-999999999 <= us / 86400000000).
    { apply Z.div_le_lower_bound; lia. }
    assert (us / 86400000000 < 999999999).
    { apply Z.div_lt_upper_bound; lia. }
    lia. }
  destruct (Z.abs (us / 86400000000) >? 999999999) eqn:E;
    [apply Z.gtb_lt in E; lia|].
  eexists. split; [reflexivity|]. cbn [microseconds]. unfold us.
  replace (secs * 1000000 + ms * 1000) with (ms * 1000 + secs * 1000000) by lia.
  apply Z.mod_add. lia.
Qed.

Lemma timedelta_str_has_dot (t : timedelta) :
  microseconds t <> 0 -> In 46%N (timedelta_str t).
Proof.
  intros H. unfold timedelta_str.
  destruct (microseconds t =? 0) eqn:E; [apply Z.eqb_eq in E; contradiction|].
  apply in_or_app. right. left. reflexivity.
Qed.

Lemma time_str_ok (t : timedelta) (ms : Z) :
  (ms <> 0 -> microseconds t <> 0) ->
  exists s, time_str t ms = Ok s.
Proof.
  intros H. unfold time_str, split.
  destruct (ms =? 0) eqn:E.
  - destruct (split_go_head (py ".") (timedelta_str t) O []) as [f [r ->]].
    cbn. eauto.
  - apply Z.eqb_neq in E.
    destruct (split_char_two 46%N (timedelta_str t)
                (timedelta_str_has_dot t (H E)) []) as [a [b [r Hs]]].
    assert (Hs' : split_go (py ".") O [] (timedelta_str t) = a :: b :: r)
      by exact Hs.
    rewrite Hs'. cbn. eauto.
Qed.




(** ** Splitting: the division *)

Lemma timedelta_new_raises (secs ms : Z) (e : exn) :
  timedelta_new secs ms = Raise e -> e = OverflowError.
Proof.
  unfold timedelta_new. destruct (_ >? _); intros H; congruence.
Qed.

Lemma of_option_raises {A : Type} (e e' : exn) (o : option A) :
  of_option e o = Raise e' -> e' = e.
Proof. destruct o; cbn; congruence. Qed.

Lemma time_str_raises (t : timedelta) (ms : Z) (e : exn) :
  time_str t ms = Raise e -> e = IndexError.
Proof.
  unfold time_str. destruct (ms =? 0).
  - destruct (@of_option str IndexError _) eqn:E; cbn [bind]; [discriminate|].
    intros H. injection H as <-. eapply of_option_raises. exact E.
  - destruct (@of_option str IndexError (nth_error _ 0%nat)) eqn:E0;
      cbn [bind].
    + destruct (@of_option str IndexError (nth_error _ 1%nat)) eqn:E1;
        cbn [bind]; [discriminate|].
      intros H. injection H as <-. eapply of_option_raises. exact E1.
    + intros H. injection H as <-. eapply of_option_raises. exact E0.
Qed.

(** The record-form constructor raises nothing but [OverflowError] and
    [IndexError]. *)
Lemma init_from_dict_raises (src tgt : lang) (segment : raw_record) (e : exn) :
  init_from_dict src tgt segment = Raise e ->
  e = OverflowError \/ e = IndexError.
Proof.
  unfold init_from_dict. cbv zeta.
  destruct (timedelta_new _ (ms_of (raw_start segment))) eqn:E0; cbn [bind];
    [|intros H; injection H as <-; left; eapply timedelta_new_raises; eauto].
  destruct (timedelta_new (int_of_float (raw_end segment)) _) eqn:E1;
    cbn [bind];
    [|intros H; injection H as <-; left; eapply timedelta_new_raises; eauto].
  destruct (time_str a _) eqn:E2; cbn [bind];
    [|intros H; injection H as <-; right; eapply time_str_raises; eauto].
  destruct (time_str a0 _) eqn:E3; cbn [bind];
    [|intros H; injection H as <-; right; eapply time_str_raises; eauto].
  discriminate.
Qed.

Lemma strip_translation_comma_cases (tgt_comma_str translation : str) :
  strip_translation_comma tgt_comma_str translation = Raise IndexError
  \/ strip_translation_comma tgt_comma_str translation = Ok translation
  \/ (List.length tgt_comma_str = 1%nat
      /\ strip_translation_comma tgt_comma_str translation
         = Ok (skipn 1 translation)).
Proof.
  unfold strip_translation_comma. destruct translation as [|c t];
    cbn [nth_error of_option bind].
  - left. reflexivity.
  - destruct (str_eqb [c] tgt_comma_str) eqn:E; [|right; left; reflexivity].
    right. right. apply str_eqb_eq in E. subst. split; reflexivity.
Qed.

Lemma split_seg_body_no_zero_division
    (rec : SrtSegment -> result (list SrtSegment)) (self : SrtScript)
    (seg : SrtSegment) (text_threshold : Z) (time_threshold : float) :
  2 <= text_threshold
  \/ (1 <= text_threshold
      /\ List.length (comma (punctuation_dict (script_tgt_lang self))) <> 1%nat) ->
  text_threshold < Z.of_nat (List.length (translation seg)) ->
  (forall s, too_long s text_threshold time_threshold = true ->
             rec s <> Raise ZeroDivisionError) ->
  split_seg_body rec self seg text_threshold time_threshold
  <> Raise ZeroDivisionError.
Proof.
  intros Htt Hlen Hrec. unfold split_seg_body. cbn [translation with_source_text].
  set (tgt_comma := comma (punctuation_dict (script_tgt_lang self))) in *.
  assert (Hstrip : strip_translation_comma tgt_comma (translation seg)
                   = Raise IndexError
                   \/ exists stripped,
                        strip_translation_comma tgt_comma (translation seg)
                        = Ok stripped
                        /\ 2 <= Z.of_nat (List.length stripped)).
  { destruct (strip_translation_comma_cases tgt_comma (translation seg))
      as [H|[H|[H1 H]]].
    - left. exact H.
    - right. eexists. split; [exact H|]. lia.
    - right. eexists. split; [exact H|]. rewrite length_skipn. lia. }
  destruct Hstrip as [->|[stripped [-> Hs]]]; [cbn; discriminate|].
  cbn [bind translation with_translation source_text].
  unfold true_div.
  destruct (Z.of_nat (List.length stripped) - 1 =? 0) eqn:E;
    [apply Z.eqb_eq in E; lia|].
  cbn [bind SrtSegment_init].
  destruct (init_from_dict _ _ _) as [seg1|e1] eqn:E1; cbn [bind];
    [|apply init_from_dict_raises in E1; destruct E1; subst; discriminate].
  destruct (init_from_dict _ _ (mk_raw _ (end_ _) _)) as [seg2|e2] eqn:E2;
    cbn [bind];
    [|apply init_from_dict_raises in E2; destruct E2; subst; discriminate].
  destruct (too_long (with_translation seg1 _) _ _) eqn:T1.
  - pose proof (Hrec _ T1) as R1.
    destruct (rec (with_translation seg1 _)) as [l1|e1]; cbn [bind];
      [|congruence].
    destruct (too_long (with_translation seg2 _) _ _) eqn:T2.
    + pose proof (Hrec _ T2) as R2.
      destruct (rec (with_translation seg2 _)) as [l2|e2]; cbn [bind];
        [discriminate | congruence].
    + cbn. discriminate.
  - cbn [bind].
    destruct (too_long (with_translation seg2 _) _ _) eqn:T2.
    + pose proof (Hrec _ T2) as R2.
      destruct (rec (with_translation seg2 _)) as [l2|e2]; cbn [bind];
        [discriminate | congruence].
    + cbn. discriminate.
Qed.

Lemma too_long_length (seg : SrtSegment) (text_threshold : Z)
    (time_threshold : float) :
  too_long seg text_threshold time_threshold = true ->
  text_threshold < Z.of_nat (List.length (translation seg)).
Proof.
  unfold too_long. rewrite andb_true_iff. intros [H _].
  apply Z.ltb_lt. exact H.
Qed.

Lemma split_seg_no_zero_division (self : SrtScript) (text_threshold : Z)
    (time_threshold : float) (limit : nat) :
  2 <= text_threshold
  \/ (1 <= text_threshold
      /\ List.length (comma (punctuation_dict (script_tgt_lang self))) <> 1%nat) ->
  forall seg,
    too_long seg text_threshold time_threshold = true ->
    split_seg limit self seg text_threshold time_threshold
    <> Raise ZeroDivisionError.
Proof.
  intros Htt. induction limit as [|n IH]; intros seg Hseg; cbn [split_seg].
  - discriminate.
  - apply split_seg_body_no_zero_division.
    + exact Htt.
    + eapply too_long_length. exact Hseg.
    + exact IH.
Qed.

(** C10, as the code has it. Every activation of [split_seg] reached from
    [check_len_and_split] has a translation longer than
    [text_threshold]; the divisor is taken after the leading target comma
    has been cut off, which shortens the translation by one when the
    target comma is a single character.  So with [text_threshold >= 2],
    or with [text_threshold >= 1] and a target comma that is not a single
    character, the divisor [len(seg.translation) - 1] is never zero and
    no activation raises [ZeroDivisionError]. *)
Theorem division_by_zero_unreachable (limit : nat) (self : SrtScript)
    (text_threshold : Z) (time_threshold : float) :
  2 <= text_threshold
  \/ (1 <= text_threshold
      /\ List.length (comma (punctuation_dict (script_tgt_lang self))) <> 1%nat) ->
  check_len_and_split limit self text_threshold time_threshold
  <> Raise ZeroDivisionError
  /\ forall seg : SrtSegment,
       too_long seg text_threshold time_threshold = true ->
       2 <= Z.of_nat (List.length (translation seg))
       /\ split_seg limit self seg text_threshold time_threshold
          <> Raise ZeroDivisionError.
Proof.
  intros Htt. split.
  - unfold check_len_and_split.
    assert (H : split_each limit self (segments self) text_threshold
                  time_threshold <> Raise ZeroDivisionError).
    { induction (segments self) as [|seg segs IH]; cbn [split_each].
      - discriminate.
      - destruct (too_long seg text_threshold time_threshold) eqn:T.
        + pose proof (split_seg_no_zero_division self text_threshold
                        time_threshold limit Htt seg T) as Hs.
          destruct (split_seg limit self seg _ _); cbn [bind]; [|congruence].
          destruct (split_each limit self segs _ _); cbn [bind];
            [discriminate | congruence].
        + cbn [bind].
          destruct (split_each limit self segs _ _); cbn [bind];
            [discriminate | congruence]. }
    destruct (split_each limit self (segments self) _ _); cbn [bind];
      [discriminate | congruence].
  - intros seg T. split.
    + apply too_long_length in T. lia.
    + apply split_seg_no_zero_division; assumption.
Qed.

Lemma division_by_zero_unreachable_witness :
  check_len_and_split 1000 comma_then_letter 2 1 <> Raise ZeroDivisionError
  /\ forall seg : SrtSegment,
       too_long seg 2 1 = true ->
       2 <= Z.of_nat (List.length (translation seg))
       /\ split_seg 1000 comma_then_letter seg 2 1 <> Raise ZeroDivisionError.
Proof.
  apply (division_by_zero_unreachable 1000%nat comma_then_letter 2 1%Q).
  left. lia.
Defined.

(** C10 as worded fails: with [text_threshold = 1] the two-character
    translation is split, its leading comma is cut off, and the divisor
    is [1 - 1]. *)
Lemma division_by_zero_counterexample :
  1 <= 1
  /\ List.map (fun seg => too_long seg 1 1) (segments comma_then_letter) = [true]
  /\ List.map (fun seg => List.length (translation seg))
       (segments comma_then_letter) = [2%nat]
  /\ check_len_and_split 1000 comma_then_letter 1 1 = Raise ZeroDivisionError.
Proof. split; [lia|]. repeat split; vm_compute; reflexivity. Qed.

(** ** Splitting: the recursion *)

(** What [split_seg] returns, when it returns, are segments that fail one
    of the two threshold tests. *)
Lemma split_seg_leaves (self : SrtScript) (text_threshold : Z)
    (time_threshold : float) (limit : nat) :
  forall (seg : SrtSegment) (leaves : list SrtSegment),
    split_seg limit self seg text_threshold time_threshold = Ok leaves ->
    Forall (fun leaf => too_long leaf text_threshold time_threshold = false)
      leaves.
Proof.
  induction limit as [|n IH]; intros seg leaves H; cbn [split_seg] in H.
  - discriminate.
  - unfold split_seg_body in H.
    destruct (strip_translation_comma _ _) as [stripped|]; cbn [bind] in H;
      [|discriminate].
    destruct (true_div _ _) as [ratio|]; cbn [bind] in H; [|discriminate].
    destruct (SrtSegment_init _ _ _) as [seg1|]; cbn [bind] in H;
      [|discriminate].
    destruct (SrtSegment_init _ _ (FromDict (mk_raw _ (end_ _) _)))
      as [seg2|]; cbn [bind] in H; [|discriminate].
    destruct (too_long (with_translation seg1 _) _ _) eqn:T1;
      destruct (too_long (with_translation seg2 _) _ _) eqn:T2.
    + destruct (split_seg n self (with_translation seg1 _) _ _) as [l1|] eqn:R1;
        cbn [bind] in H; [|discriminate].
      destruct (split_seg n self (with_translation seg2 _) _ _) as [l2|] eqn:R2;
        cbn [bind] in H; [|discriminate].
      injection H as <-. apply IH in R1, R2.
      apply Forall_app. split; assumption.
    + destruct (split_seg n self (with_translation seg1 _) _ _) as [l1|] eqn:R1;
        cbn [bind] in H; [|discriminate].
      injection H as <-. apply IH in R1.
      apply Forall_app. split; [assumption|].
      constructor; [exact T2 | constructor].
    + cbn [bind] in H.
      destruct (split_seg n self (with_translation seg2 _) _ _) as [l2|] eqn:R2;
        cbn [bind] in H; [|discriminate].
      injection H as <-. apply IH in R2.
      apply (Forall_app _ [_] l2). split; [|assumption].
      constructor; [exact T1 | constructor].
    + cbn [bind] in H. injection H as <-.
      apply (Forall_app _ [_] [_]).
      split; (constructor; [assumption | constructor]).
Qed.

(** The second half starts with the comma at which the first activation
    cut; the English comma string has two characters, so the test
    [seg.translation[0] == tgt_comma_str] does not see it, the split index
    is 0 again, and the activation calls itself on the same segment. *)
Lemma idea_second_half_again (rec : SrtSegment -> result (list SrtSegment)) :
  rec idea_second_half = Raise RecursionError ->
  split_seg_body rec idea_script idea_second_half 30 1 = Raise RecursionError.
Proof.
  intros H. vm_compute in H. vm_compute. rewrite H. reflexivity.
Qed.

Lemma idea_segment_first (rec : SrtSegment -> result (list SrtSegment)) :
  rec idea_second_half = Raise RecursionError ->
  split_seg_body rec idea_script idea_segment 30 1 = Raise RecursionError.
Proof.
  intros H. vm_compute in H. vm_compute. rewrite H. reflexivity.
Qed.

Lemma idea_second_half_never_returns (limit : nat) :
  split_seg limit idea_script idea_second_half 30 1 = Raise RecursionError.
Proof.
  induction limit as [|n IH]; cbn [split_seg].
  - reflexivity.
  - apply idea_second_half_again. exact IH.
Qed.

(** C6 on the code: this segment is over both thresholds, and whatever
    room the stack has, splitting it ends in [RecursionError]: the
    recursion does not terminate. *)
Theorem split_seg_never_returns (limit : nat) :
  too_long idea_segment 30 1 = true
  /\ split_seg limit idea_script idea_segment 30 1 = Raise RecursionError
  /\ check_len_and_split limit idea_script 30 1 = Raise RecursionError.
Proof.
  assert (Hsplit : split_seg limit idea_script idea_segment 30 1
                   = Raise RecursionError).
  { destruct limit as [|n]; cbn [split_seg]; [reflexivity|].
    apply idea_segment_first. apply idea_second_half_never_returns. }
  split; [vm_compute; reflexivity|]. split; [exact Hsplit|].
  unfold check_len_and_split. cbn [segments idea_script split_each].
  replace (too_long idea_segment 30 1) with true by (vm_compute; reflexivity).
  rewrite Hsplit. reflexivity.
Qed.

(** ** Digits *)

Lemma Zbelow_forall (P : Z -> bool) (n : nat) :
  forallb P (Zbelow n) = true ->
  forall z, 0 <= z < Z.of_nat n -> P z = true.
Proof.
  intros H z Hz. rewrite forallb_forall in H. apply H.
  unfold Zbelow. apply in_map_iff. exists (Z.to_nat z).
  split; [lia|]. apply in_seq. lia.
Qed.

Lemma returns_Z_eq (r : result Z) (z : Z) : returns_Z r z = true -> r = Ok z.
Proof.
  destruct r as [v|e]; cbn; [|discriminate].
  intros H. apply Z.eqb_eq in H. congruence.
Qed.

Lemma is_digit_digit_char (d : Z) : 0 <= d < 10 -> is_digit (digit_char d) = true.
Proof.
  intros H. unfold is_digit, digit_char.
  apply andb_true_iff. split; apply N.leb_le; lia.
Qed.

Lemma digits_go_digits (fuel : nat) :
  forall (n : Z) (acc : str),
    forallb is_digit acc = true ->
    forallb is_digit (digits_go fuel n acc) = true.
Proof.
  induction fuel as [|f IH]; intros n acc Hacc; cbn [digits_go].
  - exact Hacc.
  - assert (Hd : forallb is_digit (digit_char (n mod 10) :: acc) = true).
    { cbn [forallb]. rewrite Hacc, is_digit_digit_char; [reflexivity|].
      apply Z.mod_pos_bound. lia. }
    destruct (n / 10 =? 0); [exact Hd | apply IH; exact Hd].
Qed.

Lemma str_of_nonneg_digits (n : Z) : forallb is_digit (str_of_nonneg n) = true.
Proof. apply digits_go_digits. reflexivity. Qed.

Lemma fmt_0d_digits (w : nat) (n : Z) : forallb is_digit (fmt_0d w n) = true.
Proof.
  unfold fmt_0d. rewrite forallb_app, str_of_nonneg_digits, andb_true_r.
  induction (w - _)%nat as [|k IH]; cbn; [reflexivity | exact IH].
Qed.

Lemma str_of_Z_digits (n : Z) : 0 <= n -> forallb is_digit (str_of_Z n) = true.
Proof.
  intros H. unfold str_of_Z. destruct (n <? 0) eqn:E.
  - apply Z.ltb_lt in E. lia.
  - apply str_of_nonneg_digits.
Qed.

Create HintDb digits.
#[local] Hint Resolve str_of_nonneg_digits fmt_0d_digits str_of_Z_digits : digits.

(** Reading back the digit groups of a time stamp. *)
Lemma py_int_hours (h : Z) :
  0 <= h < 24 -> py_int (py "0" ++ str_of_Z h) = Ok h.
Proof.
  intros H. apply returns_Z_eq.
  apply (Zbelow_forall (fun z => returns_Z (py_int (py "0" ++ str_of_Z z)) z) 24);
    [vm_compute; reflexivity | lia].
Qed.

Lemma py_int_two_digits (m : Z) :
  0 <= m < 60 -> py_int (fmt_0d 2 m) = Ok m.
Proof.
  intros H. apply returns_Z_eq.
  apply (Zbelow_forall (fun z => returns_Z (py_int (fmt_0d 2 z)) z) 60);
    [vm_compute; reflexivity | lia].
Qed.

Lemma py_int_three_digits (ms : Z) :
  0 <= ms < 1000 -> py_int (fmt_0d 3 ms) = Ok ms.
Proof.
  intros H. apply returns_Z_eq.
  apply (Zbelow_forall (fun z => returns_Z (py_int (fmt_0d 3 z)) z) 1000);
    [vm_compute; reflexivity | lia].
Qed.

(** The first three of the six microsecond digits are the millisecond
    digits. *)
Lemma microsecond_digits (ms : Z) :
  0 <= ms < 1000 -> firstn 3 (fmt_0d 6 (ms * 1000)) = fmt_0d 3 ms.
Proof.
  intros H. apply str_eqb_eq.
  apply (Zbelow_forall
           (fun z => str_eqb (firstn 3 (fmt_0d 6 (z * 1000))) (fmt_0d 3 z)) 1000);
    [vm_compute; reflexivity | lia].
Qed.

(** ** Time stamps: writing *)

Lemma forallb_weaken {A : Type} (P Q : A -> bool) (l : list A) :
  (forall x, P x = true -> Q x = true) ->
  forallb P l = true -> forallb Q l = true.
Proof.
  intros H. rewrite !forallb_forall. intros Hl x Hx. apply H, Hl, Hx.
Qed.

Lemma forallb_not_in {A : Type} (P : A -> bool) (l : list A) (x : A) :
  P x = false -> forallb P l = true -> ~ In x l.
Proof.
  intros Hx Hl Hin. rewrite forallb_forall in Hl. apply Hl in Hin. congruence.
Qed.

(** [c] is not in a string of digits; [c] is not in a time stamp. *)
Ltac not_a_digit :=
  apply (forallb_not_in is_digit); [reflexivity | auto with digits].

Lemma digits_stamp_chars (s : str) :
  forallb is_digit s = true -> forallb stamp_char s = true.
Proof.
  apply forallb_weaken. intros c H. unfold stamp_char. rewrite H. reflexivity.
Qed.

Lemma clock_text_chars (sec : Z) :
  0 <= sec -> forallb stamp_char (clock_text sec) = true.
Proof.
  intros H. unfold clock_text. rewrite !forallb_app.
  rewrite (digits_stamp_chars (str_of_Z _)).
  - rewrite !(digits_stamp_chars (fmt_0d _ _)) by apply fmt_0d_digits.
    reflexivity.
  - apply str_of_Z_digits. apply Z.div_pos; [apply Z.div_pos|]; lia.
Qed.

Lemma stamp_text_chars (sec ms : Z) :
  0 <= sec -> forallb stamp_char (stamp_text sec ms) = true.
Proof.
  intros H. unfold stamp_text. rewrite !forallb_app.
  rewrite clock_text_chars by exact H.
  rewrite (digits_stamp_chars (fmt_0d _ _)) by apply fmt_0d_digits.
  reflexivity.
Qed.

Lemma clock_text_no_comma (sec : Z) : 0 <= sec -> ~ In 44%N (clock_text sec).
Proof.
  intros H. unfold clock_text. rewrite !in_app_iff.
  assert (Hd : forall s, forallb is_digit s = true -> ~ In 44%N s)
    by (intros s; apply forallb_not_in; reflexivity).
  intros [Hin|[Hin|[Hin|[Hin|Hin]]]].
  - revert Hin. apply Hd, str_of_Z_digits.
    apply Z.div_pos; [apply Z.div_pos|]; lia.
  - destruct Hin as [Hin|[]]. discriminate.
  - revert Hin. apply Hd, fmt_0d_digits.
  - destruct Hin as [Hin|[]]. discriminate.
  - revert Hin. apply Hd, fmt_0d_digits.
Qed.

Lemma timedelta_new_day (sec ms : Z) :
  0 <= sec < 86400 -> 0 <= ms < 1000 ->
  timedelta_new sec ms = Ok (mk_timedelta 0 sec (ms * 1000)).
Proof.
  intros Hs Hm. unfold timedelta_new.
  set (us := sec * 1000000 + ms * 1000).
  assert (H0 : us / 86400000000 = 0) by (apply Z.div_small; lia).
  assert (H1 : us mod 86400000000 = us) by (apply Z.mod_small; lia).
  assert (H2 : us / 1000000 = sec).
  { symmetry. apply (Z.div_unique us 1000000 sec (ms * 1000)); lia. }
  assert (H3 : us mod 1000000 = ms * 1000).
  { symmetry. apply (Z.mod_unique us 1000000 sec (ms * 1000)); lia. }
  rewrite H0, H1, H2, H3. reflexivity.
Qed.

Lemma time_str_stamp (sec ms : Z) :
  0 <= sec < 86400 -> 0 <= ms < 1000 ->
  time_str (mk_timedelta 0 sec (ms * 1000)) ms = Ok (stamp_text sec ms).
Proof.
  intros Hs Hm. unfold time_str, timedelta_str.
  cbn [days seconds microseconds]. change (0 =? 0) with true. cbv iota.
  fold (clock_text sec).
  assert (Hdot : ~ In 46%N (clock_text sec)).
  { apply (forallb_not_in stamp_char); [reflexivity|].
    apply clock_text_chars. lia. }
  destruct (ms =? 0) eqn:E.
  - apply Z.eqb_eq in E. subst ms. change (0 * 1000 =? 0) with true. cbv iota.
    change (py ".") with (46%N :: []).
    rewrite split_last by exact Hdot. cbn [nth_error of_option bind].
    reflexivity.
  - apply Z.eqb_neq in E.
    destruct (ms * 1000 =? 0) eqn:E'; [apply Z.eqb_eq in E'; lia|].
    change (py ".") with (46%N :: []).
    rewrite split_piece by exact Hdot.
    rewrite split_last
      by not_a_digit.
    cbn [nth_error of_option bind].
    rewrite microsecond_digits by lia. reflexivity.
Qed.

(** ** Time stamps: reading *)

Lemma split_comma_stamp (sec ms : Z) :
  0 <= sec ->
  split (py ",") (stamp_text sec ms) = [py "0" ++ clock_text sec; fmt_0d 3 ms].
Proof.
  intros H. unfold stamp_text. change (py ",") with (44%N :: []).
  rewrite app_assoc.
  rewrite split_piece.
  - rewrite split_last
      by not_a_digit.
    reflexivity.
  - rewrite in_app_iff. intros [[Hin|[]]|Hin]; [discriminate|].
    revert Hin. apply clock_text_no_comma. exact H.
Qed.

Lemma split_colon_clock (sec : Z) :
  0 <= sec ->
  split (py ":") (py "0" ++ clock_text sec)
  = [py "0" ++ str_of_Z (sec / 60 / 60); fmt_0d 2 (sec / 60 mod 60);
     fmt_0d 2 (sec mod 60)].
Proof.
  intros H. unfold clock_text. change (py ":") with (58%N :: []).
  assert (Hd : forall s, forallb is_digit s = true -> ~ In 58%N s)
    by (intros s; apply forallb_not_in; reflexivity).
  rewrite app_assoc. rewrite split_piece.
  - rewrite split_piece by apply Hd, fmt_0d_digits.
    rewrite split_last by apply Hd, fmt_0d_digits. reflexivity.
  - rewrite in_app_iff. intros [[Hin|[]]|Hin]; [discriminate|].
    revert Hin. apply Hd, str_of_Z_digits.
    apply Z.div_pos; [apply Z.div_pos|]; lia.
Qed.

Lemma clock_fields (sec : Z) :
  0 <= sec < 86400 ->
  0 <= sec / 60 / 60 < 24
  /\ 0 <= sec / 60 mod 60 < 60
  /\ 0 <= sec mod 60 < 60
  /\ sec / 60 / 60 * 3600 + sec / 60 mod 60 * 60 + sec mod 60 = sec.
Proof.
  intros H.
  pose proof (Z.div_mod sec 60 ltac:(lia)) as E1.
  pose proof (Z.div_mod (sec / 60) 60 ltac:(lia)) as E2.
  pose proof (Z.mod_pos_bound sec 60 ltac:(lia)) as B1.
  pose proof (Z.mod_pos_bound (sec / 60) 60 ltac:(lia)) as B2.
  assert (0 <= sec / 60 < 1440).
  { split; [apply Z.div_pos; lia | apply Z.div_lt_upper_bound; lia]. }
  assert (0 <= sec / 60 / 60 < 24).
  { split; [apply Z.div_pos; lia | apply Z.div_lt_upper_bound; lia]. }
  repeat split; lia.
Qed.

Lemma parse_ms_stamp (sec ms : Z) :
  0 <= sec -> 0 <= ms < 1000 ->
  parse_ms (stamp_text sec ms) = Ok (fdiv (float_of_int ms) 10).
Proof.
  intros Hs Hm. unfold parse_ms. rewrite split_comma_stamp by exact Hs.
  cbn [nth_error of_option bind]. rewrite py_int_three_digits by exact Hm.
  reflexivity.
Qed.

Lemma parse_seconds_stamp (sec ms : Z) (f : float) :
  0 <= sec < 86400 ->
  parse_seconds (stamp_text sec ms) f
  = Ok (fadd (float_of_int sec) (fdiv f 100)).
Proof.
  intros Hs. unfold parse_seconds. rewrite split_comma_stamp by lia.
  cbn [nth_error of_option bind]. rewrite split_colon_clock by lia.
  cbn [nth_error of_option bind].
  destruct (clock_fields sec Hs) as [Hh [Hm [Hss Hsum]]].
  rewrite py_int_hours by exact Hh. cbn [bind].
  rewrite !py_int_two_digits by assumption. cbn [bind].
  rewrite Hsum. reflexivity.
Qed.

Lemma split_arrow_duration (sec0 ms0 sec1 ms1 : Z) :
  0 <= sec0 -> 0 <= sec1 ->
  split (py " --> ") (stamp_text sec0 ms0 ++ py " --> " ++ stamp_text sec1 ms1)
  = [stamp_text sec0 ms0; stamp_text sec1 ms1].
Proof.
  intros H0 H1. change (py " --> ") with (32%N :: py "--> ").
  rewrite split_piece.
  - rewrite split_last; [reflexivity|].
    apply (forallb_not_in stamp_char); [reflexivity|].
    apply stamp_text_chars. exact H1.
  - apply (forallb_not_in stamp_char); [reflexivity|].
    apply stamp_text_chars. exact H0.
Qed.

(** ** The round trip through the duration string *)

Lemma int_of_float_day (x : float) :
  (0 <= x)%Q -> (x < 86400)%Q -> 0 <= int_of_float x < 86400.
Proof.
  intros H0 H1. rewrite int_of_float_nonneg by exact H0. split.
  - apply (Qfloor_resp_le 0 x) in H0. exact H0.
  - pose proof (Qfloor_le x) as Hf.
    assert (Hlt : (inject_Z (Qfloor x) < inject_Z 86400)%Q).
    { change (inject_Z 86400) with 86400%Q. lra. }
    rewrite <- Zlt_Qlt in Hlt. exact Hlt.
Qed.

(** The time read back from a stamp is the original time cut to whole
    milliseconds. *)
Lemma stamp_value_close (x : float) :
  (0 <= x)%Q ->
  let v := fadd (float_of_int (int_of_float x))
                (fdiv (fdiv (float_of_int (ms_of x)) 10) 100) in
  (v <= x)%Q /\ (x < v + (1 # 1000))%Q.
Proof.
  intros H0 v.
  assert (Hv : (v == inject_Z (Qfloor x)
                     + inject_Z (Qfloor (1000 * (x - inject_Z (Qfloor x)))) * (1 # 1000))%Q).
  { unfold v, fadd, fdiv, float_of_int.
    rewrite !Qred_correct, int_of_float_nonneg by exact H0.
    rewrite ms_of_floor. field. }
  rewrite Hv.
  destruct (Qfloor_range (1000 * (x - inject_Z (Qfloor x)))) as [H1 H2].
  set (f := inject_Z (Qfloor x)) in *.
  set (g := inject_Z (Qfloor (1000 * (x - f)))) in *.
  split; lra.
Qed.

(** What the record-form constructor writes for times within a day, when
    the half-second is not added to [end_ms]. *)
Lemma init_from_dict_stamps (src tgt : lang) (segment : raw_record) :
  (0 <= raw_start segment)%Q -> (raw_start segment < 86400)%Q ->
  (0 <= raw_end segment)%Q -> (raw_end segment < 86400)%Q ->
  ~ (ms_of (raw_start segment) = ms_of (raw_end segment)
     /\ int_of_float (raw_start segment) = int_of_float (raw_end segment)) ->
  exists seg : SrtSegment,
    init_from_dict src tgt segment = Ok seg
    /\ source_text seg = lstrip (raw_text segment)
    /\ duration seg
       = stamp_text (int_of_float (raw_start segment)) (ms_of (raw_start segment))
         ++ py " --> "
         ++ stamp_text (int_of_float (raw_end segment)) (ms_of (raw_end segment)).
Proof.
  intros Hs0 Hs1 He0 He1 Hnudge. unfold init_from_dict.
  pose proof (ms_of_range (raw_start segment)) as Hms.
  pose proof (ms_of_range (raw_end segment)) as Hme.
  pose proof (int_of_float_day _ Hs0 Hs1) as Hss.
  pose proof (int_of_float_day _ He0 He1) as Hse.
  assert (Hif : (ms_of (raw_start segment) =? ms_of (raw_end segment))
                && (int_of_float (raw_start segment)
                    =? int_of_float (raw_end segment)) = false).
  { apply not_true_iff_false. rewrite andb_true_iff, !Z.eqb_eq. exact Hnudge. }
  rewrite Hif.
  rewrite !timedelta_new_day by assumption. cbn [bind].
  rewrite !time_str_stamp by assumption. cbn [bind].
  eexists. split; [reflexivity|]. split; reflexivity.
Qed.




(** The specification's scenario: the block of one to four and a half
    seconds is read as [start = 1.0], [end = 4.5]. *)
Lemma parse_block_scenario :
  exists seg : SrtSegment,
    SrtSegment_init EN ES
      (FromList [py "1"; py "00:00:01,000 --> 00:00:04,500"; py "Hello world"; []])
    = Ok seg
    /\ start seg = 1%Q /\ end_ seg = (9 # 2)%Q
    /\ source_text seg = py "Hello world" /\ translation seg = [].
Proof. eexists. split; [vm_compute; reflexivity|]. repeat split. Qed.

(** Both millisecond groups at 500 within one second: the half-second
    makes [end_ms] 1000, the end time has no fraction left to print, and
    [str(self.end_time).split('.')[1]] raises. *)
Lemma init_from_dict_half_second :
  (3 # 2 < 6145 # 4096)%Q
  /\ SrtSegment_init EN ES (FromDict (mk_raw (3 # 2) (6145 # 4096) (py "Hi")))
     = Raise IndexError.
Proof. split; [reflexivity|]. vm_compute. reflexivity. Qed.

(** ** Splitting: where the recursion does end

    With a target comma of one character the leading comma is cut off,
    every half handed to a further activation has a shorter translation,
    and the recursion ends. *)

Lemma finditer_go_bounds (pat : str) (s : str) :
  forall (skip pos p : nat),
    In p (finditer_go pat skip pos s) ->
    (pos <= p < pos + List.length s)%nat
    /\ startswith pat (skipn (p - pos) s) = true.
Proof.
  induction s as [|c s IH]; intros skip pos p Hin; [destruct Hin|].
  cbn [finditer_go] in Hin.
  assert (Hlater : forall k, In p (finditer_go pat k (S pos) s) ->
            (pos <= p < pos + List.length (c :: s))%nat
            /\ startswith pat (skipn (p - pos) (c :: s)) = true).
  { intros k Hk. apply IH in Hk. destruct Hk as [Hb Hs].
    cbn [List.length]. split; [lia|].
    replace (p - pos)%nat with (S (p - S pos)) by lia. exact Hs. }
  destruct skip as [|k]; [|eapply Hlater; exact Hin].
  destruct (startswith pat (c :: s)) eqn:E; [|eapply Hlater; exact Hin].
  destruct Hin as [<-|Hin]; [|eapply Hlater; exact Hin].
  cbn [List.length]. split; [lia|]. rewrite Nat.sub_diag. exact E.
Qed.

Lemma middle_in (l : list nat) : l <> [] -> In (middle l) l.
Proof.
  intros H. unfold middle.
  assert (0 < List.length l)%nat by (destruct l; [congruence | cbn; lia]).
  assert (List.length l / 2 < List.length l)%nat
    by (apply Nat.div_lt; lia).
  destruct (Nat.odd (List.length l)); apply nth_In; lia.
Qed.

Lemma first_non_alpha_bounds (s : str) :
  forall from i : nat,
    first_non_alpha from s = Some i ->
    (from <= i < from + List.length s)%nat.
Proof.
  induction s as [|c s IH]; intros from i H; [discriminate|].
  cbn [first_non_alpha List.length] in *.
  destruct (negb (utf8_isalpha c)).
  - injection H as <-. lia.
  - apply IH in H. lia.
Qed.

(** The split index of the translation is inside the text. *)
Lemma trans_split_index_lt (tgt_comma_str t : str) :
  t <> [] -> (trans_split_index tgt_comma_str t < List.length t)%nat.
Proof.
  intros Ht. unfold trans_split_index.
  assert (0 < List.length t)%nat by (destruct t; [congruence | cbn; lia]).
  destruct (negb (List.length (finditer tgt_comma_str t) =? 0)%nat) eqn:E.
  - assert (Hne : finditer tgt_comma_str t <> []).
    { intros H0. rewrite H0 in E. discriminate. }
    apply middle_in in Hne. apply finditer_go_bounds in Hne. lia.
  - assert (List.length t / 2 < List.length t)%nat by (apply Nat.div_lt; lia).
    destruct (first_non_alpha _ _) as [i|] eqn:F; [|lia].
    apply first_non_alpha_bounds in F. rewrite length_skipn in F. lia.
Qed.

(** It is not 0 when the text has two characters or more and does not
    start with the one-character comma. *)
Lemma trans_split_index_pos (k c : char) (t : str) :
  str_eqb [c] [k] = false ->
  (2 <= List.length (c :: t))%nat ->
  (1 <= trans_split_index [k] (c :: t))%nat.
Proof.
  intros Hck Hlen. unfold trans_split_index.
  destruct (negb (List.length (finditer [k] (c :: t)) =? 0)%nat) eqn:E.
  - assert (Hne : finditer [k] (c :: t) <> []).
    { intros H0. rewrite H0 in E. discriminate. }
    apply middle_in in Hne. apply finditer_go_bounds in Hne.
    destruct Hne as [_ Hs].
    destruct (middle (finditer [k] (c :: t))) as [|m]; [|lia].
    exfalso. cbn in Hs. cbn in Hck.
    rewrite andb_true_r in Hs, Hck.
    apply char_eqb_eq in Hs. subst k.
    assert (char_eqb c c = true) by (apply char_eqb_eq; reflexivity).
    congruence.
  - assert (1 <= List.length (c :: t) / 2)%nat
      by (apply Nat.div_le_lower_bound; lia).
    destruct (first_non_alpha _ _) as [i|] eqn:F; [|lia].
    apply first_non_alpha_bounds in F. lia.
Qed.

Lemma halves_shorter (k c : char) (t stripped : str) :
  (stripped = t /\ str_eqb [c] [k] = true)
  \/ (stripped = c :: t /\ str_eqb [c] [k] = false
      /\ List.length stripped <> 1%nat) ->
  (List.length (firstn (trans_split_index [k] stripped) stripped)
   < List.length (c :: t))%nat
  /\ (List.length (skipn (trans_split_index [k] stripped) stripped)
      < List.length (c :: t))%nat.
Proof.
  rewrite length_firstn, length_skipn. cbn [List.length].
  intros [[-> _]|[-> [Hck Hlen]]].
  - lia.
  - cbn [List.length] in *.
    pose proof (trans_split_index_lt [k] (c :: t) ltac:(discriminate)) as Hlt.
    pose proof (trans_split_index_pos k c t Hck ltac:(cbn [List.length]; lia))
      as Hpos.
    cbn [List.length] in Hlt. lia.
Qed.

Lemma split_seg_body_progress
    (rec : SrtSegment -> result (list SrtSegment)) (self : SrtScript)
    (seg : SrtSegment) (text_threshold : Z) (time_threshold : float) :
  List.length (comma (punctuation_dict (script_tgt_lang self))) = 1%nat ->
  (forall s,
     (List.length (translation s) < List.length (translation seg))%nat ->
     rec s <> Raise RecursionError) ->
  split_seg_body rec self seg text_threshold time_threshold
  <> Raise RecursionError.
Proof.
  intros Hcomma Hrec. unfold split_seg_body.
  cbn [translation with_source_text].
  destruct (comma (punctuation_dict (script_tgt_lang self))) as [|k [|]];
    try discriminate. clear Hcomma.
  unfold strip_translation_comma.
  destruct (translation seg) as [|c t] eqn:Et;
    cbn [nth_error of_option bind]; [discriminate|].
  assert (Hhalves : forall stripped,
    (stripped = t /\ str_eqb [c] [k] = true)
    \/ (stripped = c :: t /\ str_eqb [c] [k] = false) ->
    Z.of_nat (List.length stripped) - 1 <> 0 ->
    (List.length (firstn (trans_split_index [k] stripped) stripped)
     < List.length (c :: t))%nat
    /\ (List.length (skipn (trans_split_index [k] stripped) stripped)
        < List.length (c :: t))%nat).
  { intros stripped Hs Hdiv. apply halves_shorter.
    destruct Hs as [Hs|[Hs1 Hs2]]; [left; exact Hs | right].
    repeat split; try assumption. lia. }
  destruct (str_eqb [c] [k]) eqn:Eck;
    [ set (stripped := skipn 1 (c :: t));
      specialize (Hhalves stripped (or_introl (conj eq_refl eq_refl)))
    | set (stripped := c :: t);
      specialize (Hhalves stripped (or_intror (conj eq_refl eq_refl))) ];
    cbn [bind translation with_translation source_text];
    unfold true_div;
    (destruct (Z.of_nat (List.length stripped) - 1 =? 0) eqn:Ediv;
     [discriminate|]);
    apply Z.eqb_neq in Ediv; specialize (Hhalves Ediv).
  all: destruct Hhalves as [H1 H2].
  all: cbn [bind SrtSegment_init].
  all: destruct (init_from_dict _ _ _) as [seg1|e1] eqn:E1; cbn [bind];
    [|apply init_from_dict_raises in E1; destruct E1; subst; discriminate].
  all: destruct (init_from_dict _ _ (mk_raw _ (end_ _) _)) as [seg2|e2] eqn:E2;
    cbn [bind];
    [|apply init_from_dict_raises in E2; destruct E2; subst; discriminate].
  all: pose proof (Hrec (with_translation seg1
                      (firstn (trans_split_index [k] stripped) stripped)) H1)
    as R1.
  all: pose proof (Hrec (with_translation seg2
                      (skipn (trans_split_index [k] stripped) stripped)) H2)
    as R2.
  all: destruct (too_long (with_translation seg1 _) _ _);
    [ destruct (rec (with_translation seg1 _)) as [l1|x1]; cbn [bind];
      [|congruence]
    | cbn [bind] ].
  all: destruct (too_long (with_translation seg2 _) _ _);
    [ destruct (rec (with_translation seg2 _)) as [l2|x2]; cbn [bind];
      [discriminate | congruence]
    | cbn; discriminate ].
Qed.

(** With a one-character target comma (Chinese, Japanese), a stack with
    room for one activation per character of the translation is enough:
    [split_seg] returns or raises something other than
    [RecursionError]. *)
Lemma split_seg_ends_with_short_comma (self : SrtScript) (text_threshold : Z)
    (time_threshold : float) (limit : nat) :
  List.length (comma (punctuation_dict (script_tgt_lang self))) = 1%nat ->
  forall seg : SrtSegment,
    (List.length (translation seg) < limit)%nat ->
    split_seg limit self seg text_threshold time_threshold
    <> Raise RecursionError.
Proof.
  intros Hcomma. induction limit as [|n IH]; intros seg Hlen; [lia|].
  cbn [split_seg]. apply split_seg_body_progress; [exact Hcomma|].
  intros s Hs. apply IH. lia.
Qed.

(** Outside the day the round trip is lost: from 24 hours on the string
    of the [timedelta] starts with a day count that the text-block
    constructor cannot read, and a negative time is written with the
    whole second and the milliseconds of different signs. *)
Lemma duration_beyond_a_day :
  exists seg : SrtSegment,
    SrtSegment_init EN ES (FromDict (mk_raw 90061 90062 (py "Hi"))) = Ok seg
    /\ duration seg = py "01 day, 1:01:01,000 --> 01 day, 1:01:02,000"
    /\ SrtSegment_init EN ES
         (FromList [py "1"; duration seg; source_text seg; []])
       = Raise ValueError.
Proof.
  eexists. split; [vm_compute; reflexivity|].
  split; vm_compute; reflexivity.
Qed.

Lemma duration_negative_start :
  exists seg seg' : SrtSegment,
    SrtSegment_init EN ES (FromDict (mk_raw (- (1 # 2)) 1 (py "Hi"))) = Ok seg
    /\ duration seg = py "00:00:00,500 --> 00:00:01,000"
    /\ SrtSegment_init EN ES
         (FromList [py "1"; duration seg; source_text seg; []]) = Ok seg'
    /\ start seg' = (1 # 2)%Q.
Proof.
  eexists. eexists. split; [vm_compute; reflexivity|].
  split; [reflexivity|]. split; [vm_compute; reflexivity|]. reflexivity.
Qed.

(** * Further properties *)

(** ** Removing punctuation from translations *)

Lemma str_replace_char (p q : char) (s : str) :
  str_replace [p] [q] s = List.map (fun c => if char_eqb p c then q else c) s.
Proof.
  unfold str_replace. induction s as [|c s IH]; [reflexivity|].
  cbn [replace_go startswith List.map List.length Nat.pred].
  destruct s as [|d s'].
  - destruct (char_eqb p c); reflexivity.
  - rewrite andb_true_r. destruct (char_eqb p c); cbn [app]; rewrite IH;
      reflexivity.
Qed.

Lemma fold_replace_blanked (puncs : str) :
  forall s : str,
    fold_left (fun translation punc => str_replace [punc] (py " ") translation)
      puncs s
    = List.map (blanked puncs) s.
Proof.
  induction puncs as [|p ps IH]; intros s; cbn [fold_left].
  - unfold blanked. cbn. symmetry. apply map_id.
  - rewrite IH. change (py " ") with [32%N]. rewrite str_replace_char.
    rewrite map_map. apply map_ext. intros c. unfold blanked.
    cbn [existsb]. unfold char_eqb. rewrite (N.eqb_sym c p).
    destruct (N.eqb p c); [|reflexivity].
    cbn [orb]. destruct (existsb _ ps); reflexivity.
Qed.

Lemma remove_trans_punc_blanked (seg : SrtSegment) :
  remove_trans_punc seg
  = with_translation seg
      (List.map (blanked (punc_str (punctuation_dict (tgt_lang seg))))
         (translation seg)).
Proof. unfold remove_trans_punc. rewrite fold_replace_blanked. reflexivity. Qed.

(** Removing punctuation works character by character: the translation
    keeps its length, a character of the target language's punctuation
    string becomes a space, every other character stays where it is, and
    nothing but the translation changes. *)
Theorem remove_trans_punc_pointwise (seg : SrtSegment) :
  remove_trans_punc seg
  = with_translation seg
      (List.map (blanked (punc_str (punctuation_dict (tgt_lang seg))))
         (translation seg))
  /\ List.length (translation (remove_trans_punc seg))
     = List.length (translation seg)
  /\ forall (i : nat) (c : char),
       nth_error (translation seg) i = Some c ->
       nth_error (translation (remove_trans_punc seg)) i
       = Some (if existsb (char_eqb c) (punc_str (punctuation_dict (tgt_lang seg)))
               then 32%N else c).
Proof.
  rewrite remove_trans_punc_blanked. cbn [translation with_translation]. split; [reflexivity|].
  split; [apply length_map|].
  intros i c Hc. rewrite nth_error_map, Hc. reflexivity.
Qed.

Lemma blanked_twice (puncs : str) (c : char) :
  blanked puncs (blanked puncs c) = blanked puncs c.
Proof.
  unfold blanked. destruct (existsb (char_eqb c) puncs) eqn:E.
  - destruct (existsb (char_eqb 32%N) puncs); reflexivity.
  - rewrite E. reflexivity.
Qed.

(** The pass over the collection keeps the segments in number and
    order, changes nothing but translations, and a second pass changes
    nothing more. *)
Theorem remove_trans_punctuation_idempotent (self : SrtScript) :
  remove_trans_punctuation (remove_trans_punctuation self)
  = remove_trans_punctuation self
  /\ List.length (segments (remove_trans_punctuation self))
     = List.length (segments self)
  /\ List.map source_text (segments (remove_trans_punctuation self))
     = List.map source_text (segments self)
  /\ List.map duration (segments (remove_trans_punctuation self))
     = List.map duration (segments self).
Proof.
  unfold remove_trans_punctuation. cbn [segments with_segments].
  split; [|split; [|split]].
  - unfold with_segments. cbn. f_equal. rewrite map_map. apply map_ext.
    intros seg.
    rewrite (remove_trans_punc_blanked seg).
    rewrite (remove_trans_punc_blanked
               (with_translation seg
                  (List.map (blanked (punc_str (punctuation_dict (tgt_lang seg))))
                     (translation seg)))).
    cbn. rewrite map_map.
    f_equal. apply map_ext. intros c. apply blanked_twice.
  - apply length_map.
  - rewrite map_map. apply map_ext. intros seg.
    rewrite (remove_trans_punc_blanked seg). reflexivity.
  - rewrite map_map. apply map_ext. intros seg.
    rewrite (remove_trans_punc_blanked seg). reflexivity.
Qed.

(** The scenario of the Spanish greeting. *)
Lemma remove_trans_punc_scenario :
  translation
    (remove_trans_punc (with_translation hello_segment (py "Hola, mundo!")))
  = py "Hola  mundo ".
Proof. reflexivity. Qed.

(** ** Writing and reading subtitle text *)

Lemma splitlines_go_line (a rest : str) :
  one_line a = true ->
  forall cur : str,
    splitlines_go cur (a ++ 10%N :: rest)
    = (rev cur ++ a) :: splitlines_go [] rest.
Proof.
  unfold one_line. induction a as [|c a IH]; intros Ha cur.
  - cbn. rewrite app_nil_r. reflexivity.
  - cbn [forallb] in Ha. apply andb_true_iff in Ha. destruct Ha as [Hc Ha].
    apply negb_true_iff in Hc. cbn [app splitlines_go]. rewrite Hc.
    rewrite IH by exact Ha. cbn [rev]. rewrite <- app_assoc. reflexivity.
Qed.

Lemma splitlines_line (a rest : str) :
  one_line a = true ->
  splitlines (a ++ newline ++ rest) = a :: splitlines rest.
Proof.
  intros H. unfold splitlines, newline. cbn [app].
  rewrite splitlines_go_line by exact H. reflexivity.
Qed.

Lemma splitlines_blank (rest : str) :
  splitlines (newline ++ rest) = [] :: splitlines rest.
Proof. apply (splitlines_line [] rest). reflexivity. Qed.

Lemma one_line_digits (s : str) : forallb is_digit s = true -> one_line s = true.
Proof.
  unfold one_line. apply forallb_weaken. intros c H.
  unfold is_digit in H. unfold is_linebreak.
  apply andb_true_iff in H. destruct H as [H1 H2].
  apply N.leb_le in H1, H2.
  repeat match goal with
         | |- context [(?a <=? ?b)%N] =>
             let E := fresh in destruct (N.leb_spec a b) as [E|E]; try lia
         | |- context [(?a =? ?b)%N] =>
             let E := fresh in destruct (N.eqb_spec a b) as [E|E]; try lia
         end; reflexivity.
Qed.

Lemma one_line_index (i : nat) : one_line (str_of_Z (Z.of_nat i + 1)) = true.
Proof. apply one_line_digits, str_of_Z_digits. lia. Qed.

Lemma splitlines_src (segs : list SrtSegment) :
  Forall (fun seg => one_line (duration seg) = true
                     /\ one_line (source_text seg) = true) segs ->
  forall i : nat,
    splitlines (numbered segment_str i segs) = src_lines i segs.
Proof.
  induction 1 as [|seg segs [Hd Ht] _ IH]; intros i; [reflexivity|].
  cbn [numbered src_lines]. unfold segment_str, newline2.
  change [10%N; 10%N] with (newline ++ newline).
  rewrite <- !app_assoc.
  rewrite splitlines_line by apply one_line_index.
  rewrite splitlines_line by exact Hd.
  rewrite splitlines_line by exact Ht.
  rewrite splitlines_blank.
  rewrite IH. reflexivity.
Qed.

Lemma splitlines_bilingual (segs : list SrtSegment) :
  Forall (fun seg => one_line (duration seg) = true
                     /\ one_line (source_text seg) = true
                     /\ one_line (translation seg) = true) segs ->
  forall i : nat,
    splitlines (numbered get_bilingual_str i segs) = bilingual_lines i segs.
Proof.
  induction 1 as [|seg segs [Hd [Ht Hr]] _ IH]; intros i; [reflexivity|].
  cbn [numbered bilingual_lines]. unfold get_bilingual_str, newline2.
  change [10%N; 10%N] with (newline ++ newline).
  rewrite <- !app_assoc.
  rewrite splitlines_line by apply one_line_index.
  rewrite splitlines_line by exact Hd.
  rewrite splitlines_line by exact Ht.
  rewrite splitlines_line by exact Hr.
  rewrite splitlines_blank.
  rewrite IH. reflexivity.
Qed.

Lemma blocks_go_fuel {A : Type} (n : nat) :
  (1 <= n)%nat ->
  forall (f1 f2 : nat) (l : list A),
    (List.length l <= f1)%nat -> (List.length l <= f2)%nat ->
    blocks_go f1 n l = blocks_go f2 n l.
Proof.
  intros Hn. induction f1 as [|f1 IH]; intros f2 l H1 H2.
  - destruct l; [|cbn in H1; lia]. destruct f2; reflexivity.
  - destruct l as [|x l']; [destruct f2; reflexivity|].
    destruct f2 as [|f2]; [cbn in H2; lia|].
    cbn [blocks_go]. f_equal.
    assert (Hs : (List.length (skipn n (x :: l')) <= List.length l')%nat).
    { rewrite length_skipn. cbn [List.length]. lia. }
    cbn [List.length] in H1, H2. apply IH; lia.
Qed.

(** Cutting off one block of [n] lines. *)
Lemma blocks_app {A : Type} (n : nat) (b rest : list A) :
  (1 <= n)%nat -> List.length b = n ->
  blocks n (b ++ rest) = b :: blocks n rest.
Proof.
  intros Hn Hb. unfold blocks.
  destruct (b ++ rest) as [|x l'] eqn:E.
  - destruct b; [cbn in Hb; lia | discriminate].
  - cbn [List.length blocks_go]. rewrite <- E.
    rewrite firstn_app, <- Hb, firstn_all, Nat.sub_diag, firstn_O, app_nil_r.
    rewrite skipn_app, skipn_all, Nat.sub_diag, skipn_O. cbn [app].
    f_equal. apply blocks_go_fuel; [lia | | lia].
    apply (f_equal (@List.length A)) in E. rewrite length_app in E.
    cbn [List.length] in E. lia.
Qed.

Lemma blocks_src_lines (segs : list SrtSegment) :
  forall i : nat,
    blocks 4 (src_lines i segs)
    = List.map (fun p => [str_of_Z (Z.of_nat (fst p) + 1); duration (snd p);
                          source_text (snd p); []])
        (combine (seq i (List.length segs)) segs).
Proof.
  induction segs as [|seg segs IH]; intros i; [reflexivity|].
  cbn [src_lines List.length seq combine List.map fst snd].
  rewrite <- IH.
  apply (blocks_app 4 [_; _; _; _] (src_lines (S i) segs)); [lia | reflexivity].
Qed.

Lemma blocks_bilingual_lines (segs : list SrtSegment) :
  forall i : nat,
    blocks 5 (bilingual_lines i segs)
    = List.map (fun p => [str_of_Z (Z.of_nat (fst p) + 1); duration (snd p);
                          source_text (snd p); translation (snd p); []])
        (combine (seq i (List.length segs)) segs).
Proof.
  induction segs as [|seg segs IH]; intros i; [reflexivity|].
  cbn [bilingual_lines List.length seq combine List.map fst snd].
  rewrite <- IH.
  apply (blocks_app 5 [_; _; _; _; _] (bilingual_lines (S i) segs));
    [lia | reflexivity].
Qed.

(** The first line of a block, the index, is not read. *)
Lemma init_from_list_index (src tgt : lang) (x y : str) (rest : list str) :
  init_from_list src tgt (x :: rest) = init_from_list src tgt (y :: rest).
Proof. reflexivity. Qed.

(** Rewrites the construction from a block in the goal with [H], which
    states it up to the index line. *)
Ltac block_is H :=
  match goal with
  | |- context [init_from_list ?s ?t ?l] =>
      let E := fresh "E" in
      assert (E : init_from_list s t l = Ok _) by exact H;
      rewrite E; clear E
  end.

Lemma init_all_src_blocks (src tgt : lang) (segs : list SrtSegment) :
  Forall (from_src_block src tgt) segs ->
  forall i : nat,
    init_all src tgt (List.map FromList (blocks 4 (src_lines i segs))) = Ok segs.
Proof.
  intros H i. rewrite blocks_src_lines. revert i.
  induction H as [|seg segs [Hseg _] _ IH]; intros i; [reflexivity|].
  cbn [List.length seq combine List.map init_all SrtSegment_init fst snd].
  block_is Hseg. cbn [bind].
  rewrite IH. reflexivity.
Qed.

Lemma init_all_bilingual_blocks (src tgt : lang) (segs : list SrtSegment) :
  Forall (from_bilingual_block src tgt) segs ->
  forall i : nat,
    init_all src tgt (List.map FromList (blocks 5 (bilingual_lines i segs)))
    = Ok segs.
Proof.
  intros H i. rewrite blocks_bilingual_lines. revert i.
  induction H as [|seg segs [Hseg _] _ IH]; intros i; [reflexivity|].
  cbn [List.length seq combine List.map init_all SrtSegment_init fst snd].
  block_is Hseg. cbn [bind].
  rewrite IH. reflexivity.
Qed.

(** Round trip of the source rendering: a non-empty collection of
    segments that come from one-line monolingual blocks is read back from
    [reform_src_str] exactly as it is. *)
Theorem parse_reform_src_str (self : SrtScript) :
  segments self <> [] ->
  Forall (from_src_block (script_src_lang self) (script_tgt_lang self))
    (segments self) ->
  parse_from_srt_file (script_src_lang self) (script_tgt_lang self)
    None (Some (reform_src_str self))
  = Parsed (Ok self).
Proof.
  destruct self as [src tgt segs]. cbn [segments script_src_lang script_tgt_lang].
  intros Hne H. unfold parse_from_srt_file, reform_src_str. cbn [segments].
  rewrite splitlines_src
    by (eapply List.Forall_impl; [|exact H]; intros s [_ Hs]; exact Hs).
  destruct segs as [|seg segs]; [congruence|].
  cbn [src_lines nth_error of_option bind].
  unfold SrtScript_init.
  change (str_of_Z (Z.of_nat 0 + 1) :: duration seg :: source_text seg :: []
          :: src_lines 1 segs) with (src_lines 0 (seg :: segs)).
  destruct (negb (str_eqb (source_text seg) [])); cbn [bind str_eqb negb];
    rewrite init_all_src_blocks by exact H; reflexivity.
Qed.

(** Round trip of the bilingual rendering, when the first segment has a
    source text and a translation (this is how the reader tells a
    bilingual text). *)
Theorem parse_form_bilingual_str (self : SrtScript) (first : SrtSegment)
    (others : list SrtSegment) :
  segments self = first :: others ->
  source_text first <> [] ->
  translation first <> [] ->
  Forall (from_bilingual_block (script_src_lang self) (script_tgt_lang self))
    (segments self) ->
  parse_from_srt_file (script_src_lang self) (script_tgt_lang self)
    None (Some (form_bilingual_str self))
  = Parsed (Ok self).
Proof.
  destruct self as [src tgt segs]. cbn [segments script_src_lang script_tgt_lang].
  intros -> Hs Ht H. unfold parse_from_srt_file, form_bilingual_str.
  cbn [segments].
  rewrite splitlines_bilingual
    by (eapply List.Forall_impl; [|exact H]; intros s [_ Hl]; exact Hl).
  cbn [bilingual_lines nth_error of_option bind].
  assert (Es : str_eqb (source_text first) [] = false).
  { apply not_true_iff_false. rewrite str_eqb_eq. exact Hs. }
  assert (Et : str_eqb (translation first) [] = false).
  { apply not_true_iff_false. rewrite str_eqb_eq. exact Ht. }
  rewrite Es, Et. cbn [negb bind]. unfold SrtScript_init.
  change (str_of_Z (Z.of_nat 0 + 1) :: duration first :: source_text first
          :: translation first :: [] :: bilingual_lines 1 others)
    with (bilingual_lines 0 (first :: others)).
  rewrite init_all_bilingual_blocks by exact H. reflexivity.
Qed.

(** What the reader refuses: a text of fewer than three lines raises
    [IndexError] at [script_lines[2]], and a call with neither path nor
    string is a [RuntimeError]. *)
Theorem parse_from_srt_file_refuses (src tgt : lang) (srt_str : str) :
  (List.length (splitlines srt_str) <= 2)%nat ->
  parse_from_srt_file src tgt None (Some srt_str) = Parsed (Raise IndexError)
  /\ parse_from_srt_file src tgt None None = NeedInput.
Proof.
  intros H. split; [|reflexivity]. unfold parse_from_srt_file.
  destruct (nth_error (splitlines srt_str) 2) eqn:E.
  - assert (2 < List.length (splitlines srt_str))%nat
      by (apply nth_error_Some; congruence). lia.
  - reflexivity.
Qed.

Lemma parse_from_srt_file_refuses_witness :
  parse_from_srt_file EN ES None (Some (py "1" ++ newline ++ py "Hello"))
  = Parsed (Raise IndexError)
  /\ parse_from_srt_file EN ES None None = NeedInput.
Proof.
  apply (parse_from_srt_file_refuses EN ES (py "1" ++ newline ++ py "Hello")).
  vm_compute. lia.
Defined.

Lemma parse_reform_src_str_witness :
  parse_from_srt_file EN ES None (Some (reform_src_str greeting_script))
  = Parsed (Ok greeting_script).
Proof.
  apply (parse_reform_src_str greeting_script).
  - discriminate.
  - repeat constructor.
Defined.

Lemma parse_form_bilingual_str_witness :
  parse_from_srt_file EN ES None (Some (form_bilingual_str bilingual_script))
  = Parsed (Ok bilingual_script).
Proof.
  apply (parse_form_bilingual_str bilingual_script hello_segment [world_segment]).
  - reflexivity.
  - discriminate.
  - discriminate.
  - repeat constructor.
Defined.

Lemma blocks_four {A : Type} (a b c d : A) (rest : list A) :
  blocks 4 (a :: b :: c :: d :: rest) = [a; b; c; d] :: blocks 4 rest.
Proof. apply (blocks_app 4 [a; b; c; d] rest); [lia | reflexivity]. Qed.

(** A bilingual rendering whose first segment has no translation is
    taken for a monolingual one; the blocks of four lines then fall out
    of step and the second one cannot be constructed. *)
Theorem parse_bilingual_without_first_translation (self : SrtScript)
    (first : SrtSegment) (others : list SrtSegment) :
  segments self = first :: others ->
  translation first = [] ->
  from_bilingual_block (script_src_lang self) (script_tgt_lang self) first ->
  Forall (fun seg => one_line (duration seg) = true
                     /\ one_line (source_text seg) = true
                     /\ one_line (translation seg) = true) others ->
  parse_from_srt_file (script_src_lang self) (script_tgt_lang self)
    None (Some (form_bilingual_str self))
  = Parsed (Raise IndexError).
Proof.
  destruct self as [src tgt segs]. cbn [segments script_src_lang script_tgt_lang].
  intros -> Ht [Hfirst [Hd [Hs Hr]]] Hothers.
  unfold parse_from_srt_file, form_bilingual_str. cbn [segments].
  rewrite splitlines_bilingual by (constructor; [repeat split|]; assumption).
  cbn [bilingual_lines nth_error of_option bind]. rewrite Ht.
  assert (Hbi : (if negb (str_eqb (source_text first) [])
                 then let* line3 := Ok [] in Ok (negb (str_eqb line3 []))
                 else Ok false) = Ok (A := bool) false)
    by (destruct (negb (str_eqb (source_text first) [])); reflexivity).
  match goal with
  | |- Parsed (bind ?b _) = _ => replace b with (Ok (A := bool) false)
  end.
  cbn [bind]. unfold SrtScript_init. f_equal.
  rewrite blocks_four.
  cbn [List.map init_all SrtSegment_init].
  rewrite Ht in Hfirst.
  match goal with
  | |- context [init_from_list ?s ?t ?l] =>
      assert (E : init_from_list s t l = Ok first) by exact Hfirst;
      rewrite E; clear E
  end.
  cbn [bind].
  destruct others as [|o r].
  - reflexivity.
  - cbn [bilingual_lines].
    rewrite blocks_four.
    cbn [List.map init_all SrtSegment_init]. unfold init_from_list.
    cbn [nth_error of_option bind].
    change (py " --> ") with (32%N :: py "--> ").
    rewrite split_last.
    + reflexivity.
    + apply (forallb_not_in is_digit); [reflexivity|].
      apply str_of_Z_digits. lia.
Qed.

Lemma parse_bilingual_without_first_translation_witness :
  parse_from_srt_file EN ES None (Some (form_bilingual_str half_translated_script))
  = Parsed (Raise IndexError).
Proof.
  apply (parse_bilingual_without_first_translation half_translated_script
           (plain_segment EN ES 0 1 "00:00:00,000" "00:00:01,000" "Hello" "")
           [world_segment]).
  - reflexivity.
  - reflexivity.
  - repeat constructor.
  - repeat constructor.
Defined.

(** ** Cutting a script into chunks *)

Lemma chained_app (ranges : list (Z * Z)) :
  forall from next e : Z,
    chained from ranges next ->
    chained from (ranges ++ [(next, e)]) (e + 1).
Proof.
  induction ranges as [|[s e'] rest IH]; intros from next e H; cbn in *.
  - split; [congruence | reflexivity].
  - destruct H as [Hs Hrest]. split; [exact Hs|]. apply IH. exact Hrest.
Qed.

Lemma split_script_loop_chained (chunk_size : Z) (script_split : list str) :
  forall st : chunking,
    List.length (script_arr st) = List.length (range_arr st) ->
    chained 1 (range_arr st) (chunk_start st) ->
    let st' := split_script_loop chunk_size script_split st in
    List.length (script_arr st') = List.length (range_arr st')
    /\ chained 1 (range_arr st') (chunk_start st')
    /\ chunk_end st' = chunk_end st + Z.of_nat (List.length script_split).
Proof.
  induction script_split as [|sentence rest IH]; intros st Hlen Hch.
  - cbn. repeat split; try assumption. lia.
  - cbn [split_script_loop List.length].
    destruct (_ <=? chunk_size).
    + destruct (IH (mk_chunking (script_arr st) (range_arr st) (chunk_start st)
                      (chunk_end st + 1)
                      (chunk_script st ++ sentence ++ newline2)) Hlen Hch)
        as [H1 [H2 H3]].
      cbn [chunk_end] in H3. repeat split; try assumption. lia.
    + destruct (IH (mk_chunking (script_arr st ++ [strip (chunk_script st)])
                      (range_arr st ++ [(chunk_start st, chunk_end st)])
                      (chunk_end st + 1) (chunk_end st + 1)
                      (sentence ++ newline2))) as [H1 [H2 H3]].
      * cbn [script_arr range_arr]. rewrite !length_app, Hlen. reflexivity.
      * cbn [range_arr chunk_start]. apply chained_app. exact Hch.
      * cbn [chunk_end] in H3. repeat split; try assumption. lia.
Qed.

Lemma split_script_ranges_chained_aux (script_in : str) (chunk_size : Z) :
  let st := split_script_loop chunk_size (split newline2 script_in)
              (mk_chunking [] [] 1 0 []) in
  List.length (script_arr st) = List.length (range_arr st)
  /\ chunk_end st = Z.of_nat (List.length (split newline2 script_in)).
Proof.
  destruct (split_script_loop_chained chunk_size (split newline2 script_in)
              (mk_chunking [] [] 1 0 []) eq_refl eq_refl) as [Hlen [_ Hend]].
  split; [exact Hlen | exact Hend].
Qed.

(** The [assert] at the end of [split_script] never fails: there is one
    range for every chunk; and the ranges follow each other, the first
    starting at 1 and each next one right after the end of the one
    before. *)
Theorem split_script_ranges_chained (script_in : str) (chunk_size : Z) :
  exists (chunks : list str) (ranges : list (Z * Z)) (next : Z),
    split_script script_in chunk_size = Holds (chunks, ranges)
    /\ List.length chunks = List.length ranges
    /\ chained 1 ranges next.
Proof.
  unfold split_script.
  destruct (split_script_loop_chained chunk_size (split newline2 script_in)
              (mk_chunking [] [] 1 0 []) eq_refl eq_refl) as [Hlen [Hch Hend]].
  set (st := split_script_loop chunk_size (split newline2 script_in)
               (mk_chunking [] [] 1 0 [])) in *.
  destruct (strip (chunk_script st)) as [|c rest]; cbn [fst snd].
  - rewrite Hlen, Nat.eqb_refl. exists (script_arr st), (range_arr st).
    eexists. split; [reflexivity|]. split; [exact Hlen | exact Hch].
  - rewrite !length_app, Hlen, Nat.eqb_refl.
    eexists. eexists. eexists. split; [reflexivity|].
    split; [rewrite !length_app, Hlen; reflexivity|].
    apply chained_app. exact Hch.
Qed.

Lemma length_lstrip (s : str) : (List.length (lstrip s) <= List.length s)%nat.
Proof.
  induction s as [|c s IH]; cbn [lstrip]; [lia|].
  destruct (is_space c); cbn [List.length]; lia.
Qed.

Lemma length_rstrip (s : str) : (List.length (rstrip s) <= List.length s)%nat.
Proof.
  unfold rstrip. rewrite length_rev.
  pose proof (length_lstrip (rev s)) as H. rewrite length_rev in H. exact H.
Qed.

Lemma rstrip_newline2 (s : str) : rstrip (s ++ newline2) = rstrip s.
Proof. unfold rstrip, newline2. rewrite rev_app_distr. reflexivity. Qed.

Lemma lstrip_app (a b : str) :
  lstrip (a ++ b) = lstrip a ++ b
  \/ (forallb is_space a = true /\ lstrip (a ++ b) = lstrip b).
Proof.
  induction a as [|c a IH]; cbn [app lstrip forallb].
  - right. split; reflexivity.
  - destruct (is_space c); [|left; reflexivity].
    destruct IH as [IH|[H1 H2]]; [left; exact IH | right].
    split; assumption.
Qed.

(** Stripping a text that ends with the two line feeds of a chunk takes
    at least these two away. *)
Lemma length_strip_newline2 (a : str) :
  (List.length (strip (a ++ newline2)) <= List.length a)%nat.
Proof.
  unfold strip. destruct (lstrip_app a newline2) as [->|[_ ->]].
  - rewrite rstrip_newline2.
    pose proof (length_rstrip (lstrip a)). pose proof (length_lstrip a). lia.
  - cbn. lia.
Qed.

Lemma split_script_loop_fit (chunk_size : Z) (script_split : list str) :
  Forall (fun s => Z.of_nat (List.length s) + 1 <= chunk_size) script_split ->
  forall st : chunking,
    (chunk_script st = [] \/ exists a, chunk_script st = a ++ newline2) ->
    Z.of_nat (List.length (chunk_script st)) <= chunk_size + 1 ->
    Forall (fun c => Z.of_nat (List.length c) < chunk_size) (script_arr st) ->
    let st' := split_script_loop chunk_size script_split st in
    (chunk_script st' = [] \/ exists a, chunk_script st' = a ++ newline2)
    /\ Z.of_nat (List.length (chunk_script st')) <= chunk_size + 1
    /\ Forall (fun c => Z.of_nat (List.length c) < chunk_size) (script_arr st').
Proof.
  induction 1 as [|sentence rest Hs _ IH]; intros st Hform Hlen Harr.
  - cbn. repeat split; assumption.
  - cbn [split_script_loop].
    destruct (_ <=? chunk_size) eqn:E.
    + apply Z.leb_le in E. apply IH; cbn [chunk_script script_arr].
      * right. exists (chunk_script st ++ sentence).
        rewrite <- app_assoc. reflexivity.
      * rewrite !length_app. cbn [List.length newline2]. lia.
      * exact Harr.
    + apply Z.leb_gt in E. apply IH; cbn [chunk_script script_arr].
      * right. exists sentence. reflexivity.
      * rewrite length_app. cbn [List.length newline2]. lia.
      * apply Forall_app. split; [exact Harr|].
        constructor; [|constructor].
        destruct Hform as [H0|[a Ha]].
        -- rewrite H0 in E. cbn [List.length] in E. lia.
        -- rewrite Ha. pose proof (length_strip_newline2 a) as Hstrip.
           rewrite Ha, length_app in Hlen. cbn [List.length newline2] in Hlen.
           lia.
Qed.

(** When every piece of the script fits together with one more
    character, every chunk is shorter than [chunk_size]. *)
Theorem split_script_chunks_fit (script_in : str) (chunk_size : Z) :
  Forall (fun s => Z.of_nat (List.length s) + 1 <= chunk_size)
    (split newline2 script_in) ->
  exists (chunks : list str) (ranges : list (Z * Z)),
    split_script script_in chunk_size = Holds (chunks, ranges)
    /\ Forall (fun c => Z.of_nat (List.length c) < chunk_size) chunks.
Proof.
  intros Hfit.
  destruct (split_script_ranges_chained_aux script_in chunk_size)
    as [Hlen Hfinal].
  assert (Hpos : 1 <= chunk_size).
  { destruct (split_go_head newline2 script_in O []) as [f [r Hsplit]].
    unfold split in Hfit. rewrite Hsplit in Hfit.
    apply Forall_inv in Hfit. lia. }
  destruct (split_script_loop_fit chunk_size (split newline2 script_in) Hfit
              (mk_chunking [] [] 1 0 [])) as [Hform [Hlen' Harr]];
    cbn [chunk_script script_arr List.length];
    [left; reflexivity | lia | constructor |].
  unfold split_script in *.
  set (st := split_script_loop chunk_size (split newline2 script_in)
               (mk_chunking [] [] 1 0 [])) in *.
  destruct (strip (chunk_script st)) as [|c rest] eqn:Estrip; cbn [fst snd] in *.
  - rewrite Hlen, Nat.eqb_refl. eauto.
  - rewrite !length_app, Hlen, Nat.eqb_refl.
    eexists. eexists. split; [reflexivity|].
    apply Forall_app. split; [exact Harr|]. constructor; [|constructor].
    rewrite <- Estrip.
    destruct Hform as [H0|[a Ha]].
    + rewrite H0 in Estrip. discriminate.
    + rewrite Ha. pose proof (length_strip_newline2 a) as Hstrip.
      rewrite Ha, length_app in Hlen'. cbn [List.length newline2] in Hlen'.
      lia.
Qed.

Lemma split_script_chunks_fit_witness :
  exists (chunks : list str) (ranges : list (Z * Z)),
    split_script (get_source_only greeting_script) 12 = Holds (chunks, ranges)
    /\ Forall (fun c => Z.of_nat (List.length c) < 12) chunks.
Proof.
  apply (split_script_chunks_fit (get_source_only greeting_script) 12).
  vm_compute. repeat (constructor; [discriminate|]). constructor.
Defined.

Lemma split_script_loop_extends (chunk_size : Z) (script_split : list str) :
  forall st : chunking,
    exists (chunks : list str) (ranges : list (Z * Z)),
      script_arr (split_script_loop chunk_size script_split st)
      = script_arr st ++ chunks
      /\ range_arr (split_script_loop chunk_size script_split st)
         = range_arr st ++ ranges.
Proof.
  induction script_split as [|sentence rest IH]; intros st.
  - exists [], []. cbn. rewrite !app_nil_r. split; reflexivity.
  - cbn [split_script_loop]. destruct (_ <=? chunk_size).
    + destruct (IH (mk_chunking (script_arr st) (range_arr st) (chunk_start st)
                      (chunk_end st + 1)
                      (chunk_script st ++ sentence ++ newline2)))
        as [c [r [H1 H2]]].
      exists c, r. split; assumption.
    + destruct (IH (mk_chunking (script_arr st ++ [strip (chunk_script st)])
                      (range_arr st ++ [(chunk_start st, chunk_end st)])
                      (chunk_end st + 1) (chunk_end st + 1)
                      (sentence ++ newline2))) as [c [r [H1 H2]]].
      cbn [script_arr range_arr] in H1, H2.
      exists (strip (chunk_script st) :: c), ((chunk_start st, chunk_end st) :: r).
      rewrite H1, H2, <- !app_assoc. split; reflexivity.
Qed.

(** A first piece that does not fit opens the result with an empty chunk
    for the empty range from 1 to 0. *)
Theorem split_script_long_first_piece (script_in : str) (chunk_size : Z)
    (first : str) (rest : list str) :
  split newline2 script_in = first :: rest ->
  chunk_size < Z.of_nat (List.length first) + 1 ->
  exists (chunks : list str) (ranges : list (Z * Z)),
    split_script script_in chunk_size
    = Holds ([] :: chunks, (1, 0) :: ranges).
Proof.
  intros Hsplit Hlong.
  destruct (split_script_ranges_chained_aux script_in chunk_size) as [Hlen _].
  unfold split_script in *. rewrite Hsplit in *.
  cbn [split_script_loop chunk_script List.length] in *.
  assert (E : (Z.of_nat 0 + Z.of_nat (List.length first) + 1 <=? chunk_size)
              = false) by (apply Z.leb_gt; lia).
  rewrite E in *. cbn [script_arr range_arr chunk_start chunk_end app] in *.
  destruct (split_script_loop_extends chunk_size rest
              (mk_chunking [strip []] [(1, 0)] (0 + 1) (0 + 1)
                 (first ++ newline2))) as [c [r [H1 H2]]].
  cbn [script_arr range_arr] in H1, H2.
  set (st := split_script_loop chunk_size rest _) in *.
  destruct (strip (chunk_script st)); cbn [fst snd].
  - rewrite Hlen, Nat.eqb_refl, H1, H2. cbn. eauto.
  - rewrite !length_app, Hlen, Nat.eqb_refl, H1, H2. cbn. eauto.
Qed.

Lemma split_script_long_first_piece_witness :
  exists (chunks : list str) (ranges : list (Z * Z)),
    split_script (py "hello world") 3 = Holds ([] :: chunks, (1, 0) :: ranges).
Proof.
  apply (split_script_long_first_piece (py "hello world") 3
           (py "hello world") []).
  - reflexivity.
  - vm_compute. reflexivity.
Defined.

(** ** The chunks of [get_source_only] *)

Lemma has_text_lstrip (s : str) : has_text (lstrip s) = has_text s.
Proof.
  unfold has_text. induction s as [|c s IH]; [reflexivity|].
  cbn [lstrip existsb]. destruct (is_space c) eqn:E; cbn [negb orb].
  - exact IH.
  - cbn [existsb]. rewrite E. reflexivity.
Qed.

Lemma has_text_rev (s : str) : has_text (rev s) = has_text s.
Proof.
  unfold has_text. induction s as [|c s IH]; [reflexivity|].
  cbn [rev existsb]. rewrite existsb_app, IH. cbn [existsb].
  rewrite orb_false_r. apply orb_comm.
Qed.

Lemma has_text_strip (s : str) : has_text s = true -> strip s <> [].
Proof.
  intros H Hnil.
  assert (Hs : has_text (strip s) = true).
  { unfold strip, rstrip.
    rewrite has_text_rev, has_text_lstrip, has_text_rev, has_text_lstrip.
    exact H. }
  rewrite Hnil in Hs. discriminate.
Qed.

Lemma has_text_app (a b : str) :
  has_text (a ++ b) = has_text a || has_text b.
Proof. unfold has_text. apply existsb_app. Qed.

Lemma split_script_loop_app (chunk_size : Z) (l1 l2 : list str) :
  forall st : chunking,
    split_script_loop chunk_size (l1 ++ l2) st
    = split_script_loop chunk_size l2 (split_script_loop chunk_size l1 st).
Proof.
  induction l1 as [|s l1 IH]; intros st; [reflexivity|].
  cbn [app split_script_loop]. destruct (_ <=? chunk_size); apply IH.
Qed.

(** After pieces with text in them the chunk under way has text. *)
Lemma split_script_loop_has_text (chunk_size : Z) (pieces : list str) :
  Forall (fun p => has_text p = true) pieces ->
  forall st : chunking,
    has_text (chunk_script st) = true \/ pieces <> [] ->
    has_text (chunk_script (split_script_loop chunk_size pieces st)) = true.
Proof.
  induction 1 as [|p rest Hp _ IH]; intros st Hst.
  - cbn. destruct Hst as [H|H]; [exact H | congruence].
  - cbn [split_script_loop]. destruct (_ <=? chunk_size); apply IH; left;
      cbn [chunk_script]; rewrite !has_text_app, Hp;
      rewrite ?orb_true_r; reflexivity.
Qed.

(** The pieces of [get_source_only]: the first text, the further texts
    each after a line feed, and a last piece of one line feed. *)
Lemma split_after_text (text rest cur : str) :
  ~ In 10%N text ->
  split_go newline2 O cur (text ++ newline ++ newline2 ++ rest)
  = (rev cur ++ text) :: split_go newline2 O [] (newline ++ rest).
Proof.
  intros H. unfold newline2, newline.
  change (text ++ [10%N] ++ [10%N; 10%N] ++ rest)
    with (text ++ (10%N :: [10%N]) ++ (10%N :: rest)).
  rewrite split_go_piece by exact H. reflexivity.
Qed.

Lemma split_after_newline_text (c : char) (text rest : str) :
  ~ In 10%N (c :: text) ->
  split_go newline2 O []
    (newline ++ (c :: text) ++ newline ++ newline2 ++ rest)
  = (newline ++ c :: text) :: split_go newline2 O [] (newline ++ rest).
Proof.
  intros Hn.
  assert (Ec : char_eqb 10%N c = false).
  { apply not_true_iff_false. rewrite char_eqb_eq. intros <-.
    apply Hn. left. reflexivity. }
  change (split_go newline2 O []
            (newline ++ (c :: text) ++ newline ++ newline2 ++ rest))
    with (if char_eqb 10%N 10%N && (char_eqb 10%N c && true)
          then [] :: split_go newline2 1 []
                       ((c :: text) ++ newline ++ newline2 ++ rest)
          else split_go newline2 O [10%N]
                 ((c :: text) ++ newline ++ newline2 ++ rest)).
  rewrite Ec, andb_false_r.
  rewrite split_after_text by exact Hn. reflexivity.
Qed.

Lemma split_source_only (segs : list SrtSegment) :
  Forall (fun seg => has_text (source_text seg) = true
                     /\ ~ In 10%N (source_text seg)) segs ->
  split_go newline2 O [] (newline ++ source_only segs)
  = List.map (fun seg => newline ++ source_text seg) segs ++ [newline].
Proof.
  induction 1 as [|seg segs [Ht Hn] _ IH]; [reflexivity|].
  cbn [source_only List.map].
  destruct (source_text seg) as [|c text] eqn:E; [discriminate|].
  rewrite split_after_newline_text by exact Hn. rewrite IH. reflexivity.
Qed.

Lemma split_get_source_only (first : SrtSegment) (others : list SrtSegment) :
  Forall (fun seg => has_text (source_text seg) = true
                     /\ ~ In 10%N (source_text seg)) (first :: others) ->
  split newline2 (source_only (first :: others))
  = (source_text first
     :: List.map (fun seg => newline ++ source_text seg) others)
    ++ [newline].
Proof.
  intros H. inversion H as [|? ? [Ht Hn] Hothers]; subst.
  unfold split. cbn [source_only].
  rewrite split_after_text by exact Hn.
  rewrite split_source_only by exact Hothers. reflexivity.
Qed.

(** Cutting the text of [get_source_only] gives ranges that cover the
    segments exactly: with a text in every segment and no line feed in
    any, the ranges follow each other from 1 and the last one ends at the
    number of segments, whatever the chunk size. *)
Theorem split_script_covers_segments (self : SrtScript) (chunk_size : Z) :
  segments self <> [] ->
  Forall (fun seg => has_text (source_text seg) = true
                     /\ ~ In 10%N (source_text seg)) (segments self) ->
  exists (chunks : list str) (ranges : list (Z * Z)),
    split_script (get_source_only self) chunk_size = Holds (chunks, ranges)
    /\ List.length chunks = List.length ranges
    /\ ranges <> []
    /\ chained 1 ranges (Z.of_nat (List.length (segments self)) + 1).
Proof.
  intros Hne Hsegs. unfold split_script, get_source_only.
  destruct (segments self) as [|first others] eqn:Esegs; [congruence|].
  rewrite split_get_source_only by exact Hsegs.
  set (body := source_text first
               :: List.map (fun seg => newline ++ source_text seg) others).
  assert (Hbody_len : List.length body = List.length (first :: others)).
  { unfold body. cbn [List.length]. rewrite length_map. reflexivity. }
  assert (Hbody : Forall (fun p => has_text p = true) body).
  { unfold body. inversion Hsegs as [|? ? [Ht _] Hothers]; subst.
    constructor; [exact Ht|]. apply Forall_map.
    eapply List.Forall_impl; [|exact Hothers].
    intros seg [Hs _]. cbn beta. rewrite has_text_app, Hs.
    apply orb_true_r. }
  rewrite split_script_loop_app.
  destruct (split_script_loop_chained chunk_size body
              (mk_chunking [] [] 1 0 []) eq_refl eq_refl) as [Hlen [Hch Hend]].
  assert (Hbody_ne : body <> []) by (unfold body; discriminate).
  pose proof (split_script_loop_has_text chunk_size body Hbody
                (mk_chunking [] [] 1 0 []) (or_intror Hbody_ne)) as Htext.
  clear Hbody_ne Hbody.
  remember (split_script_loop chunk_size body (mk_chunking [] [] 1 0 []))
    as st eqn:Est.
  clear Est. cbn [chunk_end] in Hend. rewrite length_app. cbn [List.length].
  rewrite Hbody_len in Hend. rewrite Hbody_len.
  clearbody body. cbn [split_script_loop].
  destruct (_ <=? chunk_size); cbn [chunk_script script_arr range_arr chunk_start].
  - destruct (strip (chunk_script st ++ newline ++ newline2)) eqn:Estrip.
    + exfalso. revert Estrip. apply has_text_strip.
      rewrite has_text_app, Htext. reflexivity.
    + cbn [fst snd]. rewrite !length_app, Hlen, Nat.eqb_refl.
      eexists. eexists. split; [reflexivity|].
      split; [rewrite !length_app, Hlen; reflexivity|].
      split; [intros H; apply app_eq_nil in H; destruct H; discriminate|].
      cbn [List.length] in *.
      match goal with
      | |- chained 1 (_ ++ [(_, ?e)]) ?n => replace n with (e + 1) by lia
      end.
      apply chained_app. exact Hch.
  - change (strip (newline ++ newline2)) with (@nil char). cbn [fst snd].
    rewrite !length_app, Hlen, Nat.eqb_refl.
    eexists. eexists. split; [reflexivity|].
    split; [rewrite !length_app, Hlen; reflexivity|].
    split; [intros H; apply app_eq_nil in H; destruct H; discriminate|].
    cbn [List.length] in *.
    match goal with
    | |- chained 1 (_ ++ [(_, ?e)]) ?n => replace n with (e + 1) by lia
    end.
    apply chained_app. exact Hch.
Qed.

Lemma split_script_covers_segments_witness :
  exists (chunks : list str) (ranges : list (Z * Z)),
    split_script (get_source_only greeting_script) 12 = Holds (chunks, ranges)
    /\ List.length chunks = List.length ranges
    /\ ranges <> []
    /\ chained 1 ranges (Z.of_nat (List.length (segments greeting_script)) + 1).
Proof.
  apply (split_script_covers_segments greeting_script 12).
  - discriminate.
  - repeat constructor; cbn; intuition discriminate.
Defined.

(** ** Word windows *)

Lemma in_windows {A : Type} (j : nat) (words w : list A) :
  In w (windows j words) <->
  exists i : nat,
    (i + j <= List.length words)%nat /\ w = firstn j (skipn i words).
Proof.
  unfold windows. rewrite in_map_iff. split.
  - intros [i [Hw Hi]]. apply in_seq in Hi. exists i. split; [lia | congruence].
  - intros [i [Hi Hw]]. exists i. split; [congruence|]. apply in_seq. lia.
Qed.

Lemma in_windows_down {A : Type} (n : nat) (words w : list A) :
  In w (windows_down n words) <->
  exists i j : nat,
    (1 <= j <= n)%nat /\ (i + j <= List.length words)%nat
    /\ w = firstn j (skipn i words).
Proof.
  induction n as [|n IH]; cbn [windows_down].
  - split; [intros [] | intros [i [j [Hj _]]]; lia].
  - rewrite in_app_iff, in_windows, IH. split.
    + intros [[i [Hi Hw]] | [i [j [Hj [Hi Hw]]]]].
      * exists i, (S n). repeat split; try lia; assumption.
      * exists i, j. repeat split; try lia; assumption.
    + intros [i [j [Hj [Hi Hw]]]].
      destruct (Nat.eq_dec j (S n)) as [->|Hne].
      * left. exists i. split; assumption.
      * right. exists i, j. repeat split; try lia; assumption.
Qed.

(** The result of [extract_words] is made of exactly the runs of one to
    [n] consecutive words of the sentence, each of its full length. *)
Theorem extract_words_runs (sentence : str) (n : nat) (w : list str) :
  In w (extract_words sentence n) <->
  exists i j : nat,
    (1 <= j <= n)%nat
    /\ (i + j <= List.length (split_words sentence))%nat
    /\ w = firstn j (skipn i (split_words sentence))
    /\ List.length w = j.
Proof.
  unfold extract_words. rewrite in_windows_down. split.
  - intros [i [j [Hj [Hi Hw]]]]. exists i, j. repeat split; try lia; try assumption.
    rewrite Hw, length_firstn, length_skipn. lia.
  - intros [i [j [Hj [Hi [Hw _]]]]]. exists i, j. repeat split; try lia; assumption.
Qed.

(** ** Splitting: what the pieces are *)

Lemma init_from_dict_fields (src tgt : lang) (segment : raw_record)
    (seg : SrtSegment) :
  init_from_dict src tgt segment = Ok seg ->
  start seg = raw_start segment
  /\ end_ seg = raw_end segment
  /\ source_text seg = lstrip (raw_text segment)
  /\ translation seg = []
  /\ src_lang seg = src
  /\ tgt_lang seg = tgt.
Proof.
  unfold init_from_dict. cbv zeta.
  destruct (timedelta_new _ (ms_of (raw_start segment))); cbn [bind];
    [|discriminate].
  destruct (timedelta_new (int_of_float (raw_end segment)) _); cbn [bind];
    [|discriminate].
  destruct (time_str _ _); cbn [bind]; [|discriminate].
  destruct (time_str _ _); cbn [bind]; [|discriminate].
  intros H. injection H as <-. cbn. repeat split; reflexivity.
Qed.

(** One activation that returns: the segment is cut in two at one
    instant, the translation left after the leading-comma test is shared
    out between the halves, and each half is kept or split further. *)
Lemma split_seg_body_inv (rec : SrtSegment -> result (list SrtSegment))
    (self : SrtScript) (seg : SrtSegment) (text_threshold : Z)
    (time_threshold : float) (leaves : list SrtSegment) :
  split_seg_body rec self seg text_threshold time_threshold = Ok leaves ->
  exists (stripped : str) (seg1 seg2 : SrtSegment)
         (l1 l2 : list SrtSegment),
    strip_translation_comma
      (comma (punctuation_dict (script_tgt_lang self))) (translation seg)
    = Ok stripped
    /\ start seg1 = start seg
    /\ end_ seg1 = start seg2
    /\ end_ seg2 = end_ seg
    /\ translation seg1 ++ translation seg2 = stripped
    /\ (l1 = [seg1]
        \/ too_long seg1 text_threshold time_threshold = true
           /\ rec seg1 = Ok l1)
    /\ (l2 = [seg2]
        \/ too_long seg2 text_threshold time_threshold = true
           /\ rec seg2 = Ok l2)
    /\ leaves = l1 ++ l2.
Proof.
  unfold split_seg_body. intros H.
  destruct (strip_translation_comma _ _) as [stripped|]; cbn [bind] in H;
    [|discriminate].
  destruct (true_div _ _) as [ratio|]; cbn [bind] in H; [|discriminate].
  destruct (SrtSegment_init _ _ _) as [seg1|] eqn:I1; cbn [bind] in H;
    [|discriminate].
  destruct (SrtSegment_init _ _ (FromDict (mk_raw _ (end_ _) _)))
    as [seg2|] eqn:I2; cbn [bind] in H; [|discriminate].
  cbn [SrtSegment_init] in I1, I2.
  apply init_from_dict_fields in I1, I2.
  destruct I1 as [S1 [E1 _]], I2 as [S2 [E2 _]].
  cbn [raw_start raw_end] in S1, E1, S2, E2.
  cbn [translation with_translation with_source_text start end_] in *.
  match type of H with
  | context [too_long (with_translation seg1 ?t1) _ _] =>
      match type of H with
      | context [too_long (with_translation seg2 ?t2) _ _] =>
          set (a := with_translation seg1 t1) in *;
          set (b := with_translation seg2 t2) in *;
          assert (Hab : translation a ++ translation b = stripped)
            by (unfold a, b; cbn [translation with_translation];
                apply firstn_skipn)
      end
  end.
  assert (Sa : start a = start seg) by exact S1.
  assert (Eab : end_ a = start b)
    by (unfold a, b; cbn [with_translation start end_]; congruence).
  assert (Eb : end_ b = end_ seg) by exact E2.
  clearbody a b.
  destruct (too_long a _ _) eqn:T1; destruct (too_long b _ _) eqn:T2.
  - destruct (rec a) as [l1|] eqn:R1; cbn [bind] in H; [|discriminate].
    destruct (rec b) as [l2|] eqn:R2; cbn [bind] in H; [|discriminate].
    injection H as <-. exists stripped, a, b, l1, l2. auto 10.
  - destruct (rec a) as [l1|] eqn:R1; cbn [bind] in H; [|discriminate].
    injection H as <-. exists stripped, a, b, l1, [b]. auto 10.
  - cbn [bind] in H.
    destruct (rec b) as [l2|] eqn:R2; cbn [bind] in H; [|discriminate].
    injection H as <-. exists stripped, a, b, [a], l2. auto 10.
  - cbn [bind] in H. injection H as <-.
    exists stripped, a, b, [a], [b]. auto 10.
Qed.

Lemma tiles_app (l1 l2 : list SrtSegment) :
  forall t0 t1 t2 : float,
    tiles t0 l1 t1 -> tiles t1 l2 t2 -> tiles t0 (l1 ++ l2) t2.
Proof.
  induction l1 as [|seg l1 IH]; intros t0 t1 t2 H1 H2; cbn in *.
  - subst. exact H2.
  - destruct H1 as [Hs H1]. split; [exact Hs|]. eapply IH; eassumption.
Qed.

Lemma tiles_one (seg : SrtSegment) : tiles (start seg) [seg] (end_ seg).
Proof. cbn. split; reflexivity. Qed.

Lemma split_seg_tiles_aux (self : SrtScript) (text_threshold : Z)
    (time_threshold : float) (limit : nat) :
  forall (seg : SrtSegment) (leaves : list SrtSegment),
    split_seg limit self seg text_threshold time_threshold = Ok leaves ->
    tiles (start seg) leaves (end_ seg)
    /\ (2 <= List.length leaves)%nat.
Proof.
  induction limit as [|n IH]; intros seg leaves H; cbn [split_seg] in H.
  - discriminate.
  - apply split_seg_body_inv in H.
    destruct H as [stripped [seg1 [seg2 [l1 [l2
      [_ [S1 [E12 [E2 [_ [H1 [H2 ->]]]]]]]]]]]].
    assert (T1 : tiles (start seg1) l1 (end_ seg1)
                 /\ (1 <= List.length l1)%nat).
    { destruct H1 as [->|[_ R]].
      - split; [apply tiles_one | cbn; lia].
      - apply IH in R. destruct R; split; [assumption | lia]. }
    assert (T2 : tiles (start seg2) l2 (end_ seg2)
                 /\ (1 <= List.length l2)%nat).
    { destruct H2 as [->|[_ R]].
      - split; [apply tiles_one | cbn; lia].
      - apply IH in R. destruct R; split; [assumption | lia]. }
    destruct T1 as [T1 L1], T2 as [T2 L2]. split.
    + rewrite <- S1, <- E2. eapply tiles_app; [exact T1|].
      rewrite E12. exact T2.
    + rewrite length_app. lia.
Qed.

(** A split that returns gives at least two segments, and they tile the
    time of the segment split: the first starts where it started, each
    next one starts at the very instant the one before ends, and the last
    ends where it ended. *)
Theorem split_seg_tiles (limit : nat) (self : SrtScript) (seg : SrtSegment)
    (text_threshold : Z) (time_threshold : float)
    (leaves : list SrtSegment) :
  split_seg limit self seg text_threshold time_threshold = Ok leaves ->
  tiles (start seg) leaves (end_ seg) /\ (2 <= List.length leaves)%nat.
Proof. apply split_seg_tiles_aux. Qed.

Lemma split_seg_tiles_witness :
  exists leaves : list SrtSegment,
    split_seg 10 long_script long_segment 30 1 = Ok leaves
    /\ tiles (start long_segment) leaves (end_ long_segment)
    /\ (2 <= List.length leaves)%nat.
Proof.
  eexists. split; [vm_compute; reflexivity|].
  apply (split_seg_tiles 10 long_script long_segment 30 1%Q).
  vm_compute. reflexivity.
Defined.

Lemma strip_translation_comma_long (tgt_comma_str translation stripped : str) :
  List.length tgt_comma_str <> 1%nat ->
  strip_translation_comma tgt_comma_str translation = Ok stripped ->
  stripped = translation.
Proof.
  intros Hlen H.
  destruct (strip_translation_comma_cases tgt_comma_str translation)
    as [E|[E|[L _]]]; congruence.
Qed.

Lemma split_seg_keeps_translation_aux (self : SrtScript) (text_threshold : Z)
    (time_threshold : float) (limit : nat) :
  List.length (comma (punctuation_dict (script_tgt_lang self))) <> 1%nat ->
  forall (seg : SrtSegment) (leaves : list SrtSegment),
    split_seg limit self seg text_threshold time_threshold = Ok leaves ->
    concat (List.map translation leaves) = translation seg.
Proof.
  intros Hcomma.
  induction limit as [|n IH]; intros seg leaves H; cbn [split_seg] in H.
  - discriminate.
  - apply split_seg_body_inv in H.
    destruct H as [stripped [seg1 [seg2 [l1 [l2
      [Hs [_ [_ [_ [Ht [H1 [H2 ->]]]]]]]]]]]].
    apply strip_translation_comma_long in Hs; [|exact Hcomma]. subst stripped.
    rewrite map_app, concat_app, <- Ht. f_equal.
    + destruct H1 as [->|[_ R]]; [cbn; apply app_nil_r | apply IH; exact R].
    + destruct H2 as [->|[_ R]]; [cbn; apply app_nil_r | apply IH; exact R].
Qed.

(** With a target language whose comma string is not one character (all
    but Chinese and Japanese), a split that returns loses nothing of the
    translation: the translations of the pieces, put end to end, are the
    translation of the segment split. *)
Theorem split_seg_keeps_translation (limit : nat) (self : SrtScript)
    (seg : SrtSegment) (text_threshold : Z) (time_threshold : float)
    (leaves : list SrtSegment) :
  List.length (comma (punctuation_dict (script_tgt_lang self))) <> 1%nat ->
  split_seg limit self seg text_threshold time_threshold = Ok leaves ->
  concat (List.map translation leaves) = translation seg.
Proof. intros Hc. apply split_seg_keeps_translation_aux. exact Hc. Qed.

Lemma split_seg_keeps_translation_witness :
  exists leaves : list SrtSegment,
    split_seg 10 long_script long_segment 30 1 = Ok leaves
    /\ concat (List.map translation leaves) = translation long_segment.
Proof.
  eexists. split; [vm_compute; reflexivity|].
  apply (split_seg_keeps_translation 10 long_script long_segment 30 1%Q).
  - vm_compute. discriminate.
  - vm_compute. reflexivity.
Defined.

(** ** [check_len_and_split] as a whole *)

Lemma with_segments_same (self : SrtScript) :
  with_segments self (segments self) = self.
Proof. destruct self. reflexivity. Qed.

Lemma split_each_result (limit : nat) (self : SrtScript)
    (text_threshold : Z) (time_threshold : float)
    (segs : list SrtSegment) :
  forall out : list SrtSegment,
    split_each limit self segs text_threshold time_threshold = Ok out ->
    Forall (fun seg => too_long seg text_threshold time_threshold = false) out
    /\ (List.length segs <= List.length out)%nat
    /\ forall t0 t1 : float, tiles t0 segs t1 -> tiles t0 out t1.
Proof.
  induction segs as [|seg segs IH]; intros out H; cbn [split_each] in H.
  - injection H as <-. repeat split; [constructor | lia | auto].
  - destruct (split_each limit self segs _ _) as [rest|] eqn:R;
      [|destruct (too_long seg _ _);
        [destruct (split_seg _ _ _ _ _)|]; discriminate].
    destruct (IH rest eq_refl) as [Hshort [Hlen Htiles]].
    destruct (too_long seg text_threshold time_threshold) eqn:T.
    + destruct (split_seg limit self seg _ _) as [seg_list|] eqn:S;
        cbn [bind] in H; [|discriminate].
      injection H as <-.
      pose proof (split_seg_leaves _ _ _ _ _ _ S) as Hleaves.
      apply split_seg_tiles_aux in S. destruct S as [St Sl].
      split; [apply Forall_app; split; assumption|].
      split; [rewrite length_app; cbn [List.length]; lia|].
      intros t0 t1 [Hs Ht]. rewrite <- Hs.
      eapply tiles_app; [exact St | apply Htiles; exact Ht].
    + cbn [bind] in H. injection H as <-.
      split; [apply (Forall_app _ [_] rest); split;
              [constructor; [exact T | constructor] | assumption]|].
      split; [cbn [List.length app]; lia|].
      intros t0 t1 [Hs Ht]. cbn [app tiles]. split; [exact Hs|].
      apply Htiles. exact Ht.
Qed.

Lemma check_len_and_split_short (limit : nat) (self out : SrtScript)
    (text_threshold : Z) (time_threshold : float) :
  check_len_and_split limit self text_threshold time_threshold = Ok out ->
  Forall (fun seg => too_long seg text_threshold time_threshold = false)
    (segments out)
  /\ (List.length (segments self) <= List.length (segments out))%nat
  /\ forall t0 t1 : float,
       tiles t0 (segments self) t1 -> tiles t0 (segments out) t1.
Proof.
  unfold check_len_and_split. intros H.
  destruct (split_each limit self (segments self) _ _) as [segs|] eqn:E;
    cbn [bind] in H; [|discriminate].
  injection H as <-. cbn [segments with_segments].
  eapply split_each_result. exact E.
Qed.

(** When [check_len_and_split] returns, no segment of the collection is
    over both thresholds any more, no segment has been dropped, and a
    collection whose segments followed each other in time without gap
    still does, from the same start to the same end. *)
Theorem check_len_and_split_result (limit : nat) (self out : SrtScript)
    (text_threshold : Z) (time_threshold : float) :
  check_len_and_split limit self text_threshold time_threshold = Ok out ->
  Forall (fun seg => too_long seg text_threshold time_threshold = false)
    (segments out)
  /\ (List.length (segments self) <= List.length (segments out))%nat
  /\ forall t0 t1 : float,
       tiles t0 (segments self) t1 -> tiles t0 (segments out) t1.
Proof. apply check_len_and_split_short. Qed.

Lemma check_len_and_split_result_witness :
  exists out : SrtScript,
    check_len_and_split 10 long_script 30 1 = Ok out
    /\ Forall (fun seg => too_long seg 30 1 = false) (segments out)
    /\ (List.length (segments long_script) <= List.length (segments out))%nat
    /\ forall t0 t1 : float,
         tiles t0 (segments long_script) t1 -> tiles t0 (segments out) t1.
Proof.
  eexists. split; [vm_compute; reflexivity|].
  apply (check_len_and_split_result 10 long_script _ 30 1%Q).
  vm_compute. reflexivity.
Defined.

Lemma split_each_short (limit : nat) (self : SrtScript)
    (text_threshold : Z) (time_threshold : float)
    (segs : list SrtSegment) :
  Forall (fun seg => too_long seg text_threshold time_threshold = false) segs ->
  split_each limit self segs text_threshold time_threshold = Ok segs.
Proof.
  induction 1 as [|seg segs Hseg _ IH]; cbn [split_each].
  - reflexivity.
  - rewrite Hseg, IH. reflexivity.
Qed.

(** Splitting once is enough: run again on its own result, with the same
    thresholds and any room on the stack, [check_len_and_split] returns
    that result unchanged. *)
Theorem check_len_and_split_idempotent (limit limit' : nat)
    (self out : SrtScript) (text_threshold : Z) (time_threshold : float) :
  check_len_and_split limit self text_threshold time_threshold = Ok out ->
  check_len_and_split limit' out text_threshold time_threshold = Ok out.
Proof.
  intros H. apply check_len_and_split_short in H. destruct H as [H _].
  unfold check_len_and_split. rewrite split_each_short by exact H.
  cbn [bind]. rewrite with_segments_same. reflexivity.
Qed.

Lemma check_len_and_split_idempotent_witness :
  exists out : SrtScript,
    check_len_and_split 10 long_script 30 1 = Ok out
    /\ check_len_and_split 0 out 30 1 = Ok out.
Proof.
  eexists. split; [vm_compute; reflexivity|].
  apply (check_len_and_split_idempotent 10 0 long_script _ 30 1%Q).
  vm_compute. reflexivity.
Defined.

(** ** [check_len_and_split_range] *)

Lemma split_range_loop_length (limit : nat) (self : SrtScript)
    (text_threshold : Z) (time_threshold : float)
    (segs : list SrtSegment) :
  forall (acc out : list SrtSegment) (extra_len extra : Z),
    split_range_loop limit self segs text_threshold time_threshold
      acc extra_len = Ok (out, extra) ->
    Z.of_nat (List.length out) - extra
    = Z.of_nat (List.length acc) + Z.of_nat (List.length segs) - extra_len
    /\ extra_len <= extra.
Proof.
  induction segs as [|seg segs IH]; intros acc out extra_len extra H;
    cbn [split_range_loop] in H.
  - injection H as <- <-. cbn [List.length]. lia.
  - destruct (too_long seg _ _).
    + destruct (split_seg limit self seg _ _) as [seg_list|] eqn:S;
        cbn [bind] in H; [|discriminate].
      apply split_seg_tiles_aux in S. destruct S as [_ S].
      apply IH in H. rewrite length_app in H. cbn [List.length]. lia.
    + apply IH in H. rewrite length_app in H. cbn [List.length] in *. lia.
Qed.

Lemma length_py_slice {A : Type} (l : list A) (lo hi : Z) :
  List.length (py_slice l lo hi)
  = (Nat.max (slice_start l lo) (slice_stop l hi) - slice_start l lo)%nat.
Proof.
  unfold py_slice. rewrite length_firstn, length_skipn.
  assert (slice_stop l hi <= List.length l)%nat.
  { unfold slice_stop, slice_index.
    destruct (hi <? 0) eqn:E; [apply Z.ltb_lt in E|]; lia. }
  lia.
Qed.

(** The number [check_len_and_split_range] returns beside the collection
    is the number of segments the collection has gained, whatever the
    range; it is never negative, and the segments before the range are
    the ones that were there. *)
Theorem check_len_and_split_range_extra_len (limit : nat)
    (self out : SrtScript) (range : Z * Z) (text_threshold : Z)
    (time_threshold : float) (extra_len : Z) :
  check_len_and_split_range limit self range text_threshold time_threshold
  = Ok (out, extra_len) ->
  Z.of_nat (List.length (segments out))
  = Z.of_nat (List.length (segments self)) + extra_len
  /\ 0 <= extra_len
  /\ firstn (slice_start (segments self) (fst range - 1)) (segments out)
     = firstn (slice_start (segments self) (fst range - 1)) (segments self).
Proof.
  unfold check_len_and_split_range. intros H.
  destruct (split_range_loop _ _ _ _ _ _ _) as [[new extra]|] eqn:E;
    cbn [bind] in H; [|discriminate].
  cbn [fst snd] in H. injection H as <- <-.
  cbn [segments with_segments].
  apply split_range_loop_length in E. cbn [List.length] in E.
  rewrite length_py_slice in E.
  pose proof (slice_start_le (segments self) (fst range - 1)) as Hlo.
  assert (Hhi : (slice_stop (segments self) (snd range)
                 <= List.length (segments self))%nat).
  { unfold slice_stop, slice_index.
    destruct (snd range <? 0) eqn:E'; [apply Z.ltb_lt in E'|]; lia. }
  unfold assign_slice. split; [|split].
  - rewrite !length_app, length_firstn, length_skipn. lia.
  - lia.
  - rewrite firstn_app, length_firstn, firstn_firstn.
    replace (_ - _)%nat with 0%nat by lia.
    rewrite Nat.min_id. cbn [firstn]. apply app_nil_r.
Qed.

Lemma check_len_and_split_range_extra_len_witness :
  exists (out : SrtScript) (extra_len : Z),
    check_len_and_split_range 10 long_script (1, 1) 30 1 = Ok (out, extra_len)
    /\ Z.of_nat (List.length (segments out))
       = Z.of_nat (List.length (segments long_script)) + extra_len
    /\ 0 <= extra_len
    /\ firstn (slice_start (segments long_script) (fst (1, 1) - 1))
         (segments out)
       = firstn (slice_start (segments long_script) (fst (1, 1) - 1))
           (segments long_script).
Proof.
  eexists. eexists. split; [vm_compute; reflexivity|].
  apply (check_len_and_split_range_extra_len 10 long_script _ (1, 1) 30 1%Q).
  vm_compute. reflexivity.
Defined.

(** ** [merge_segs] over any list of indices *)

Lemma join_space_cons (p q : str) (rest : list str) :
  join_space (p :: q :: rest) = p ++ py " " ++ join_space (q :: rest).
Proof. reflexivity. Qed.

Lemma join_space_merge (a b : str) (l : list str) :
  join_space ((a ++ py " " ++ b) :: l) = join_space (a :: b :: l).
Proof.
  rewrite join_space_cons. destruct l as [|c l].
  - reflexivity.
  - rewrite join_space_cons. rewrite <- !app_assoc. reflexivity.
Qed.

Lemma merge_segs_fold (self : SrtScript) (rest : list nat) :
  forall (others : list SrtSegment) (acc : SrtSegment),
    List.map (nth_error (segments self)) rest = List.map Some others ->
    fold_left
      (fun acc idx =>
         let* seg_result := acc in
         let* seg := of_option IndexError (nth_error (segments self) idx) in
         Ok (add seg_result seg))
      rest (Ok acc)
    = Ok (fold_left add others acc).
Proof.
  induction rest as [|idx rest IH]; intros [|o others] acc H;
    try discriminate; cbn [fold_left].
  - reflexivity.
  - cbn [List.map] in H. injection H as Hidx Hrest.
    cbn [bind]. rewrite Hidx. cbn [of_option bind]. apply IH. exact Hrest.
Qed.

Lemma last_cons_default {A : Type} (others : list A) :
  forall o d : A, List.last (o :: others) d = List.last others o.
Proof.
  induction others as [|x l IH]; intros o d; [reflexivity|].
  change (List.last (o :: x :: l) d) with (List.last (x :: l) d).
  rewrite !IH. reflexivity.
Qed.

Lemma fold_add_fields (others : list SrtSegment) :
  forall acc : SrtSegment,
    let merged := fold_left add others acc in
    source_text merged = join_space (List.map source_text (acc :: others))
    /\ translation merged = join_space (List.map translation (acc :: others))
    /\ start merged = start acc
    /\ start_time_str merged = start_time_str acc
    /\ end_ merged = end_ (List.last others acc)
    /\ end_time_str merged = end_time_str (List.last others acc)
    /\ (others <> [] ->
        duration merged
        = start_time_str acc ++ py " --> "
          ++ end_time_str (List.last others acc)).
Proof.
  induction others as [|o others IH]; intros acc; cbv zeta.
  - cbn [fold_left List.map join_space List.last]. repeat split. congruence.
  - cbn [fold_left]. specialize (IH (add acc o)). cbv zeta in IH.
    destruct IH as [Hs [Ht [Hst [Hsts [He [Hets Hd]]]]]].
    rewrite last_cons_default. cbn [List.map] in *.
    unfold add in Hs, Ht. rewrite merge_seg_fields in Hs, Ht.
    cbn [source_text translation] in Hs, Ht.
    rewrite join_space_merge in Hs, Ht.
    split; [exact Hs|]. split; [exact Ht|].
    split; [rewrite Hst; reflexivity|].
    split; [rewrite Hsts; reflexivity|].
    destruct others as [|o' others'].
    + cbn [fold_left List.last]. repeat split.
    + rewrite last_cons_default in He, Hets, Hd. rewrite last_cons_default.
      split; [exact He|]. split; [exact Hets|].
      intros _. rewrite Hd by discriminate. reflexivity.
Qed.

Lemma merge_segs_picked (self : SrtScript) (i0 : nat) (rest : list nat)
    (first : SrtSegment) (others : list SrtSegment) :
  nth_error (segments self) i0 = Some first ->
  List.map (nth_error (segments self)) rest = List.map Some others ->
  merge_segs self (i0 :: rest) = Ok (fold_left add others first).
Proof.
  intros Hfirst Hrest. unfold merge_segs. rewrite Hfirst.
  cbn [of_option bind]. apply merge_segs_fold. exact Hrest.
Qed.

(** Merging the segments at a list of indices that are all in range gives
    one segment that starts with the first of them and ends with the last,
    and whose source text and translation are theirs in the order of the
    list, with one space between each two. *)
Theorem merge_segs_joins (self : SrtScript) (i0 : nat) (rest : list nat)
    (first : SrtSegment) (others : list SrtSegment) :
  nth_error (segments self) i0 = Some first ->
  List.map (nth_error (segments self)) rest = List.map Some others ->
  exists merged : SrtSegment,
    merge_segs self (i0 :: rest) = Ok merged
    /\ source_text merged = join_space (List.map source_text (first :: others))
    /\ translation merged = join_space (List.map translation (first :: others))
    /\ start merged = start first
    /\ start_time_str merged = start_time_str first
    /\ end_ merged = end_ (List.last others first)
    /\ end_time_str merged = end_time_str (List.last others first)
    /\ (others <> [] ->
        duration merged
        = start_time_str first ++ py " --> "
          ++ end_time_str (List.last others first)).
Proof.
  intros Hfirst Hrest. exists (fold_left add others first). split.
  - apply merge_segs_picked; assumption.
  - apply fold_add_fields.
Qed.

Lemma merge_segs_joins_witness :
  exists merged : SrtSegment,
    merge_segs bilingual_script [0; 1]%nat = Ok merged
    /\ source_text merged
       = join_space (List.map source_text [hello_segment; world_segment])
    /\ translation merged
       = join_space (List.map translation [hello_segment; world_segment])
    /\ start merged = start hello_segment
    /\ start_time_str merged = start_time_str hello_segment
    /\ end_ merged = end_ (List.last [world_segment] hello_segment)
    /\ end_time_str merged
       = end_time_str (List.last [world_segment] hello_segment)
    /\ ([world_segment] <> [] ->
        duration merged
        = start_time_str hello_segment ++ py " --> "
          ++ end_time_str (List.last [world_segment] hello_segment)).
Proof.
  apply (merge_segs_joins bilingual_script 0 [1%nat] hello_segment
           [world_segment]); reflexivity.
Defined.

Lemma merge_segs_fold_raises (self : SrtScript) (rest : list nat) :
  forall acc : result SrtSegment,
    acc = Raise IndexError
    \/ Exists (fun idx => (List.length (segments self) <= idx)%nat) rest ->
    (forall e, acc = Raise e -> e = IndexError) ->
    fold_left
      (fun acc idx =>
         let* seg_result := acc in
         let* seg := of_option IndexError (nth_error (segments self) idx) in
         Ok (add seg_result seg))
      rest acc
    = Raise IndexError.
Proof.
  induction rest as [|idx rest IH]; intros acc H He; cbn [fold_left].
  - destruct H as [H|H]; [exact H | inversion H].
  - apply IH.
    + destruct acc as [a|e]; cbn [bind].
      * destruct H as [H|H]; [discriminate|].
        destruct (nth_error (segments self) idx) as [seg|] eqn:E;
          cbn [of_option bind]; [|left; reflexivity].
        right. inversion H as [? ? Hidx|? ? Hrest]; subst; [|exact Hrest].
        apply nth_error_None in Hidx. congruence.
      * left. rewrite (He e eq_refl). reflexivity.
    + intros e. destruct acc as [a|e']; cbn [bind].
      * destruct (nth_error (segments self) idx); cbn [of_option bind];
          [discriminate | congruence].
      * intros H'. apply He. exact H'.
Qed.

(** An index past the end of the collection anywhere in a non-empty list
    of indices makes [merge_segs] raise [IndexError]. *)
Theorem merge_segs_index_error (self : SrtScript) (idx_list : list nat) :
  idx_list <> [] ->
  Exists (fun idx => (List.length (segments self) <= idx)%nat) idx_list ->
  merge_segs self idx_list = Raise IndexError.
Proof.
  intros Hne H. destruct idx_list as [|i0 rest]; [congruence|].
  unfold merge_segs.
  destruct (nth_error (segments self) i0) as [first|] eqn:E;
    cbn [of_option bind]; [|reflexivity].
  apply merge_segs_fold_raises; [|discriminate].
  right. inversion H as [? ? Hidx|? ? Hrest]; subst; [|exact Hrest].
  apply nth_error_None in Hidx. congruence.
Qed.

Lemma merge_segs_index_error_witness :
  merge_segs greeting_script [0; 5; 1]%nat = Raise IndexError.
Proof.
  apply (merge_segs_index_error greeting_script [0; 5; 1]%nat).
  - discriminate.
  - apply Exists_cons_tl. apply Exists_cons_hd. cbn. lia.
Defined.

(** ** [form_whole_sentence]: what is kept *)

Lemma ends_sentence_closes (ending_puncs : list str) (seg : SrtSegment) :
  source_text seg <> [] ->
  ends_sentence ending_puncs seg = Ok (closes ending_puncs seg).
Proof.
  intros Hne. unfold closes, ends_sentence, last_char.
  destruct (rev (source_text seg)) as [|c r] eqn:E.
  - exfalso. apply Hne. rewrite <- (rev_involutive (source_text seg)), E.
    reflexivity.
  - cbn [bind].
    destruct (existsb _ _ && _ && _); reflexivity.
Qed.

Lemma ends_sentence_empty (ending_puncs : list str) (seg : SrtSegment) :
  source_text seg = [] ->
  ends_sentence ending_puncs seg = Raise IndexError.
Proof. intros H. unfold ends_sentence. rewrite H. reflexivity. Qed.

(** The first loop on segments that all have a text: it comes through,
    with one run for each closing segment, and the run left open is made
    of the segments after the last closing one. *)
Lemma collect_sentences_total (ending_puncs : list str)
    (segs : list SrtSegment) :
  Forall (fun seg => source_text seg <> []) segs ->
  forall (i : nat) (merge_list : list (list nat)) (sentence : list nat),
  exists (merge_list' : list (list nat)) (sentence' : list nat) (k : nat),
    collect_sentences ending_puncs i segs merge_list sentence
    = Ok (merge_list', sentence')
    /\ (Forall (fun run => run <> []) merge_list ->
        Forall (fun run => run <> []) merge_list')
    /\ List.length merge_list'
       = (List.length merge_list
          + List.length (List.filter (closes ending_puncs) segs))%nat
    /\ (k <= List.length segs)%nat
    /\ Forall (fun seg => closes ending_puncs seg = false)
         (skipn (List.length segs - k) segs)
    /\ ((k = List.length segs
         /\ List.length sentence'
            = (List.length sentence + List.length segs)%nat)
        \/ ((k < List.length segs)%nat
            /\ List.length sentence' = k
            /\ exists pre c,
                 firstn (List.length segs - k) segs = pre ++ [c]
                 /\ closes ending_puncs c = true)).
Proof.
  induction 1 as [|seg segs Hseg _ IH]; intros i ml s.
  - exists ml, s, 0%nat. cbn. split; [reflexivity|]. split; [auto|].
    split; [lia|]. split; [lia|]. split; [constructor|].
    left. split; lia.
  - rewrite collect_sentences_step, (ends_sentence_closes _ _ Hseg).
    cbn [List.filter List.length].
    destruct (closes ending_puncs seg) eqn:C.
    + destruct (IH (S i) (ml ++ [s ++ [i]]) [])
        as [ml' [s' [k [Hc [Hne [Hlen [Hk [Htail Hopen]]]]]]]].
      exists ml', s', k. split; [exact Hc|].
      split.
      { intros Hml. apply Hne. apply Forall_app. split; [exact Hml|].
        constructor; [|constructor]. destruct s; discriminate. }
      split; [rewrite Hlen, length_app; cbn [List.length]; lia|].
      split; [lia|].
      replace (S (List.length segs) - k)%nat
        with (S (List.length segs - k)) by lia.
      cbn [skipn firstn]. split; [exact Htail|]. right.
      destruct Hopen as [[-> Hs']|[Hlt [Hs' [pre [c [Hpre Hcl]]]]]].
      * split; [lia|]. split; [cbn [List.length] in Hs'; lia|].
        exists [], seg. rewrite Nat.sub_diag. cbn [firstn]. split;
          [reflexivity | exact C].
      * split; [lia|]. split; [exact Hs'|].
        exists (seg :: pre), c. rewrite Hpre. split; [reflexivity | exact Hcl].
    + destruct (IH (S i) ml (s ++ [i]))
        as [ml' [s' [k [Hc [Hne [Hlen [Hk [Htail Hopen]]]]]]]].
      destruct Hopen as [[-> Hs']|[Hlt [Hs' [pre [c [Hpre Hcl]]]]]].
      * exists ml', s', (S (List.length segs)). split; [exact Hc|].
        split; [exact Hne|]. split; [exact Hlen|]. split; [lia|].
        rewrite Nat.sub_diag in *. cbn [skipn] in *.
        split; [constructor; assumption|]. left.
        split; [reflexivity|]. rewrite Hs', length_app. cbn [List.length]. lia.
      * exists ml', s', k. split; [exact Hc|].
        split; [exact Hne|]. split; [exact Hlen|]. split; [lia|].
        replace (S (List.length segs) - k)%nat
          with (S (List.length segs - k)) by lia.
        cbn [skipn firstn]. split; [exact Htail|]. right.
        split; [lia|]. split; [exact Hs'|].
        exists (seg :: pre), c. rewrite Hpre. split; [reflexivity | exact Hcl].
Qed.

Lemma join_space_app (a b : list str) :
  a <> [] -> b <> [] ->
  join_space (a ++ b) = join_space a ++ py " " ++ join_space b.
Proof.
  intros Ha Hb. induction a as [|x a IH]; [congruence|].
  destruct a as [|y a].
  - destruct b as [|z b]; [congruence|]. reflexivity.
  - cbn [app] in *. rewrite !join_space_cons, IH by discriminate.
    rewrite <- !app_assoc. reflexivity.
Qed.

(** The second loop over runs that are not empty and hold indices of the
    collection: one merged segment for each run, and the texts of the
    merged segments put together are the texts of the segments picked. *)
Lemma merge_runs_joins (self : SrtScript) (runs : list (list nat)) :
  Forall (fun run => run <> []) runs ->
  forall picked : list SrtSegment,
    List.map (nth_error (segments self)) (concat runs)
    = List.map Some picked ->
    exists out : list SrtSegment,
      merge_runs self runs = Ok out
      /\ List.length out = List.length runs
      /\ (out = [] <-> picked = [])
      /\ join_space (List.map source_text out)
         = join_space (List.map source_text picked)
      /\ join_space (List.map translation out)
         = join_space (List.map translation picked).
Proof.
  induction 1 as [|run runs Hrun _ IH]; intros picked Hp.
  - destruct picked; [|discriminate]. exists []. cbn. tauto.
  - cbn [concat] in Hp. rewrite map_app in Hp. symmetry in Hp.
    apply map_eq_app in Hp.
    destruct Hp as [p1 [p2 [-> [Hp1 Hp2]]]].
    symmetry in Hp1, Hp2.
    destruct run as [|i0 rest]; [congruence|].
    destruct p1 as [|first others]; [discriminate|].
    cbn [List.map] in Hp1. injection Hp1 as Hfirst Hrest.
    pose proof (merge_segs_picked self i0 rest first others Hfirst Hrest)
      as Hm.
    destruct (fold_add_fields others first) as [Hs [Ht _]].
    set (merged := fold_left add others first) in *.
    destruct (IH p2 Hp2) as [out [Ho [Hlen [Hnil [Hos Hot]]]]].
    exists (merged :: out). cbn [merge_runs]. rewrite Hm, Ho. cbn [bind].
    split; [reflexivity|]. split; [cbn [List.length]; lia|].
    split; [split; discriminate|].
    destruct out as [|o out].
    + assert (p2 = []) by (apply Hnil; reflexivity). subst p2.
      rewrite app_nil_r. cbn [List.map join_space].
      split; assumption.
    + assert (Hp2ne : p2 <> []).
      { intros E. apply Hnil in E. discriminate. }
      rewrite !map_app.
      rewrite !join_space_app
        by (try discriminate; intros E; apply map_eq_nil in E; congruence).
      cbn [List.map] in *. rewrite !join_space_cons.
      rewrite <- Hs, <- Ht, <- Hos, <- Hot. split; reflexivity.
Qed.

Lemma app_eq_length_r {A : Type} (l1 : list A) :
  forall r1 l2 r2 : list A,
    l1 ++ l2 = r1 ++ r2 -> List.length l2 = List.length r2 ->
    l1 = r1 /\ l2 = r2.
Proof.
  induction l1 as [|x l1 IH]; intros [|y r1] l2 r2 H Hlen.
  - split; [reflexivity | exact H].
  - exfalso. apply (f_equal (@List.length A)) in H.
    cbn [app List.length] in H. rewrite length_app in H. lia.
  - exfalso. apply (f_equal (@List.length A)) in H.
    cbn [app List.length] in H. rewrite length_app in H. lia.
  - cbn [app] in H. injection H as -> H.
    destruct (IH r1 l2 r2 H Hlen) as [-> ->]. split; reflexivity.
Qed.

Lemma map_nth_error_seq {A : Type} (l : list A) (m : nat) :
  (m <= List.length l)%nat ->
  List.map (nth_error l) (seq 0 m) = List.map Some (firstn m l).
Proof.
  revert l. induction m as [|m IH]; intros l Hm; [reflexivity|].
  destruct l as [|x l]; [cbn in Hm; lia|].
  cbn [seq List.map firstn nth_error]. f_equal.
  rewrite <- seq_shift, map_map. cbn [nth_error].
  apply IH. cbn in Hm. lia.
Qed.

(** On a collection in which every segment has a source text,
    [form_whole_sentence] returns; the new collection has one segment for
    each closing segment of the old one; its texts, source and
    translation, are those of the old segments up to the last closing
    one, in order and joined by spaces; the segments after the last
    closing one, none of which closes a sentence, are not in it. *)
Theorem form_whole_sentence_keeps_text (self : SrtScript) :
  Forall (fun seg => source_text seg <> []) (segments self) ->
  exists (out : SrtScript) (kept tail : list SrtSegment),
    form_whole_sentence self = Ok out
    /\ segments self = kept ++ tail
    /\ Forall
         (fun seg =>
            closes (sentence_end (punctuation_dict (script_src_lang self)))
              seg = false) tail
    /\ (kept = []
        \/ exists pre c,
             kept = pre ++ [c]
             /\ closes (sentence_end (punctuation_dict (script_src_lang self)))
                  c = true)
    /\ List.length (segments out)
       = List.length
           (List.filter
              (closes (sentence_end (punctuation_dict (script_src_lang self))))
              (segments self))
    /\ join_space (List.map source_text (segments out))
       = join_space (List.map source_text kept)
    /\ join_space (List.map translation (segments out))
       = join_space (List.map translation kept).
Proof.
  intros Htext. unfold form_whole_sentence. cbv zeta.
  set (puncs := sentence_end (punctuation_dict (script_src_lang self))).
  destruct (collect_sentences_total puncs (segments self) Htext 0%nat [] [])
    as [ml [s [k [Hc [Hne [Hlen [Hk [Htail Hopen]]]]]]]].
  rewrite Hc. cbn [bind fst].
  pose proof (collect_sentences_indices _ _ _ _ _ _ _ Hc) as Hidx.
  cbn [concat app] in Hidx.
  set (n := List.length (segments self)) in *.
  assert (Hs : List.length s = k).
  { destruct Hopen as [[-> Hs]|[_ [Hs _]]]; [cbn in Hs; lia | exact Hs]. }
  assert (Hruns : concat ml = seq 0 (n - k)).
  { replace n with ((n - k) + k)%nat in Hidx at 1 by lia.
    rewrite seq_app in Hidx.
    apply app_eq_length_r in Hidx; [tauto | rewrite length_seq; exact Hs]. }
  destruct (merge_runs_joins self ml (Hne (List.Forall_nil _))
              (firstn (n - k) (segments self)))
    as [out [Ho [Hol [_ [Hos Hot]]]]].
  { rewrite Hruns. apply map_nth_error_seq. unfold n. lia. }
  rewrite Ho. cbn [bind].
  exists (with_segments self out), (firstn (n - k) (segments self)),
    (skipn (n - k) (segments self)).
  cbn [segments with_segments].
  split; [reflexivity|]. split; [symmetry; apply firstn_skipn|].
  split; [exact Htail|].
  split.
  { destruct Hopen as [[-> _]|[_ [_ Hpre]]].
    - left. unfold n. rewrite Nat.sub_diag. reflexivity.
    - right. exact Hpre. }
  split; [rewrite Hol, Hlen; reflexivity|].
  split; assumption.
Qed.

Lemma form_whole_sentence_keeps_text_witness :
  exists (out : SrtScript) (kept tail : list SrtSegment),
    form_whole_sentence bilingual_script = Ok out
    /\ segments bilingual_script = kept ++ tail
    /\ Forall
         (fun seg =>
            closes
              (sentence_end (punctuation_dict (script_src_lang bilingual_script)))
              seg = false) tail
    /\ (kept = []
        \/ exists pre c,
             kept = pre ++ [c]
             /\ closes
                  (sentence_end
                     (punctuation_dict (script_src_lang bilingual_script)))
                  c = true)
    /\ List.length (segments out)
       = List.length
           (List.filter
              (closes
                 (sentence_end
                    (punctuation_dict (script_src_lang bilingual_script))))
              (segments bilingual_script))
    /\ join_space (List.map source_text (segments out))
       = join_space (List.map source_text kept)
    /\ join_space (List.map translation (segments out))
       = join_space (List.map translation kept).
Proof.
  apply (form_whole_sentence_keeps_text bilingual_script).
  repeat constructor; discriminate.
Defined.

Lemma collect_sentences_raises (ending_puncs : list str)
    (segs : list SrtSegment) :
  Exists (fun seg => source_text seg = []) segs ->
  forall (i : nat) (merge_list : list (list nat)) (sentence : list nat),
    collect_sentences ending_puncs i segs merge_list sentence
    = Raise IndexError.
Proof.
  induction segs as [|seg segs IH]; intros H i ml s; [inversion H|].
  rewrite collect_sentences_step.
  destruct (source_text seg) as [|c t] eqn:E.
  - rewrite ends_sentence_empty by exact E. reflexivity.
  - rewrite ends_sentence_closes by (rewrite E; discriminate).
    assert (Hrest : Exists (fun seg => source_text seg = []) segs).
    { inversion H as [? ? Hh|? ? Ht]; subst; [congruence | exact Ht]. }
    destruct (closes ending_puncs seg); apply IH; exact Hrest.
Qed.

(** One segment with an empty source text anywhere in the collection
    makes [form_whole_sentence] raise [IndexError]: the test reads the
    last character of every segment. *)
Theorem form_whole_sentence_empty_text (self : SrtScript) :
  Exists (fun seg => source_text seg = []) (segments self) ->
  form_whole_sentence self = Raise IndexError.
Proof.
  intros H. unfold form_whole_sentence. cbv zeta.
  rewrite collect_sentences_raises by exact H. reflexivity.
Qed.

Lemma form_whole_sentence_empty_text_witness :
  form_whole_sentence silent_script = Raise IndexError.
Proof.
  apply (form_whole_sentence_empty_text silent_script).
  apply Exists_cons_tl. apply Exists_cons_hd. reflexivity.
Defined.

(** ** [set_translation]: what it leaves alone *)

Lemma same_but_translation_refl (seg : SrtSegment) :
  same_but_translation seg seg.
Proof. destruct seg. reflexivity. Qed.

Lemma Forall2_same_refl (segs : list SrtSegment) :
  Forall2 same_but_translation segs segs.
Proof.
  induction segs; constructor; [apply same_but_translation_refl | assumption].
Qed.

Lemma assign_lines_frame (segs : list SrtSegment) :
  forall (lines : list str) (i : nat) (out : list SrtSegment),
    assign_lines lines i segs = Ok out ->
    Forall2 same_but_translation segs out.
Proof.
  induction segs as [|seg segs IH]; intros lines i out H;
    cbn [assign_lines] in H.
  - injection H as <-. constructor.
  - destruct (i <? List.length lines)%nat.
    + destruct (nth_error lines i) as [line|]; cbn [of_option bind] in H;
        [|discriminate].
      destruct (contains (py "Note:") line); [discriminate|].
      destruct (nth_error line 0) as [c|]; cbn [of_option bind] in H;
        [|discriminate].
      destruct (nth_error _ i) as [line'|]; cbn [of_option bind] in H;
        [|discriminate].
      destruct (assign_lines _ (S i) segs) as [rest|] eqn:R;
        cbn [bind] in H; [|discriminate].
      injection H as <-. constructor; [reflexivity|].
      eapply IH. exact R.
    + destruct (assign_lines _ (S i) segs) as [rest|] eqn:R;
        cbn [bind] in H; [|discriminate].
      injection H as <-. constructor; [apply same_but_translation_refl|].
      eapply IH. exact R.
Qed.

Lemma store_lines_frame (self out : SrtScript) (id_range : Z * Z)
    (lines : list str) :
  store_lines self id_range lines = Ok out ->
  Forall2 same_but_translation (segments self) (segments out)
  /\ firstn (slice_start (segments self) (fst id_range - 1)) (segments out)
     = firstn (slice_start (segments self) (fst id_range - 1)) (segments self)
  /\ script_src_lang out = script_src_lang self
  /\ script_tgt_lang out = script_tgt_lang self.
Proof.
  unfold store_lines. cbv zeta.
  destruct (assign_lines lines 0 _) as [sliced'|] eqn:A; cbn [bind];
    [|discriminate].
  intros H. injection H as <-. cbn [segments with_segments script_src_lang
    script_tgt_lang].
  apply assign_lines_frame in A.
  pose proof (slice_start_le (segments self) (fst id_range - 1)) as Hlo.
  split; [|split; [|split; reflexivity]].
  - rewrite (py_slice_in_place (segments self) (fst id_range - 1)
               (snd id_range)) at 1.
    apply List.Forall2_app; [apply Forall2_same_refl|].
    apply List.Forall2_app; [exact A | apply Forall2_same_refl].
  - rewrite firstn_app, length_firstn, firstn_firstn.
    replace (_ - _)%nat with 0%nat by lia.
    rewrite Nat.min_id. cbn [firstn]. apply app_nil_r.
Qed.

(** Whatever the translator sends back, a run of [set_translation] that
    ends without exception has changed nothing but translations: the
    collection has the same segments, each with all its attributes but
    the translation as before, and the segments before the range have
    their translation as before too. *)
Theorem set_translation_frame (self out : SrtScript) (translate : str)
    (id_range : Z * Z) (world : list outcome) (run : translation_run) :
  set_translation self translate id_range world = Some run ->
  run_script run = Ok out ->
  Forall2 same_but_translation (segments self) (segments out)
  /\ firstn (slice_start (segments self) (fst id_range - 1)) (segments out)
     = firstn (slice_start (segments self) (fst id_range - 1)) (segments self)
  /\ script_src_lang out = script_src_lang self
  /\ script_tgt_lang out = script_tgt_lang self.
Proof.
  unfold set_translation. cbv zeta.
  destruct (_ <? _).
  - destruct (solve_unmatched _ _ _) as [st|]; [|discriminate].
    intros H. injection H as <-. cbn [run_script].
    apply store_lines_frame.
  - intros H. injection H as <-. cbn [run_script].
    apply store_lines_frame.
Qed.

Lemma set_translation_frame_witness :
  exists (out : SrtScript) (run : translation_run),
    set_translation greeting_script
      (py " Hola." ++ newline2 ++ py "Adios.") (1, 2) [] = Some run
    /\ run_script run = Ok out
    /\ Forall2 same_but_translation (segments greeting_script) (segments out)
    /\ firstn (slice_start (segments greeting_script) (fst (1, 2) - 1))
         (segments out)
       = firstn (slice_start (segments greeting_script) (fst (1, 2) - 1))
           (segments greeting_script)
    /\ script_src_lang out = script_src_lang greeting_script
    /\ script_tgt_lang out = script_tgt_lang greeting_script.
Proof.
  eexists. eexists. split; [vm_compute; reflexivity|].
  split; [reflexivity|].
  eapply (set_translation_frame greeting_script _
            (py " Hola." ++ newline2 ++ py "Adios.") (1, 2) []).
  - vm_compute. reflexivity.
  - reflexivity.
Defined.

(** ** [Task.postprocess]: the two steps together *)

Lemma too_long_remove_trans_punc (seg : SrtSegment) (text_threshold : Z)
    (time_threshold : float) :
  too_long (remove_trans_punc seg) text_threshold time_threshold
  = too_long seg text_threshold time_threshold.
Proof.
  rewrite remove_trans_punc_blanked. unfold too_long.
  cbn [translation with_translation start end_]. rewrite length_map.
  reflexivity.
Qed.

Lemma tiles_remove_trans_punc (segs : list SrtSegment) :
  forall t0 t1 : float,
    tiles t0 segs t1 -> tiles t0 (List.map remove_trans_punc segs) t1.
Proof.
  induction segs as [|seg segs IH]; intros t0 t1 H; [exact H|].
  cbn [List.map tiles] in *. destruct H as [Hs Ht].
  rewrite remove_trans_punc_blanked. cbn [start end_ with_translation].
  split; [exact Hs|].
  specialize (IH _ _ Ht). exact IH.
Qed.

Lemma blanked_cases (puncs : str) (c : char) :
  blanked puncs c = 32%N \/ ~ In (blanked puncs c) puncs.
Proof.
  unfold blanked. destruct (existsb (char_eqb c) puncs) eqn:E.
  - left. reflexivity.
  - right. intros Hin.
    assert (existsb (char_eqb c) puncs = true); [|congruence].
    apply existsb_exists. exists c. split; [exact Hin|].
    apply char_eqb_eq. reflexivity.
Qed.

(** With both steps switched on, a post-processing that ends without
    exception leaves a collection in which no segment is over both
    default thresholds, no translation holds a punctuation character of
    its target language other than the space, and segments that followed
    each other in time without gap still do. *)
Theorem postprocess_result (limit : nat) (script out : SrtScript) :
  postprocess limit (mk_post_setting true true) script = Ok out ->
  Forall
    (fun seg =>
       too_long seg 30 1 = false
       /\ Forall
            (fun c => c = 32%N
                      \/ ~ In c (punc_str (punctuation_dict (tgt_lang seg))))
            (translation seg))
    (segments out)
  /\ forall t0 t1 : float,
       tiles t0 (segments script) t1 -> tiles t0 (segments out) t1.
Proof.
  unfold postprocess. cbn [setting_check_len_and_split
    setting_remove_trans_punctuation].
  destruct (check_len_and_split limit script 30 1) as [mid|] eqn:E;
    cbn [bind]; [|discriminate].
  intros H. injection H as <-.
  apply check_len_and_split_short in E. destruct E as [Hshort [_ Htiles]].
  unfold remove_trans_punctuation. cbn [segments with_segments]. split.
  - apply Forall_map. eapply List.Forall_impl; [|exact Hshort].
    intros seg Hseg. cbn beta. split.
    + rewrite too_long_remove_trans_punc. exact Hseg.
    + rewrite remove_trans_punc_blanked.
      cbn [translation tgt_lang with_translation].
      apply Forall_map. apply Forall_forall. intros c _.
      apply blanked_cases.
  - intros t0 t1 H. apply tiles_remove_trans_punc. apply Htiles. exact H.
Qed.

Lemma postprocess_result_witness :
  exists out : SrtScript,
    postprocess 10 (mk_post_setting true true) long_script = Ok out
    /\ Forall
         (fun seg =>
            too_long seg 30 1 = false
            /\ Forall
                 (fun c => c = 32%N
                           \/ ~ In c (punc_str (punctuation_dict (tgt_lang seg))))
                 (translation seg))
         (segments out)
    /\ forall t0 t1 : float,
         tiles t0 (segments long_script) t1 -> tiles t0 (segments out) t1.
Proof.
  eexists. split; [vm_compute; reflexivity|].
  apply (postprocess_result 10 long_script).
  vm_compute. reflexivity.
Defined.

(** ** [get_real_word] *)

Lemma slice_index_neg (len : nat) (k : nat) :
  (1 <= k)%nat ->
  Z.to_nat (slice_index (Z.of_nat len) (- Z.of_nat k)) = (len - k)%nat.
Proof.
  intros Hk. unfold slice_index.
  destruct (- Z.of_nat k <? 0) eqn:E; [|apply Z.ltb_ge in E; lia]. lia.
Qed.

Lemma slice_index_nonneg (len : nat) (n : nat) :
  Z.to_nat (slice_index (Z.of_nat len) (Z.of_nat n)) = Nat.min n len.
Proof.
  unfold slice_index.
  destruct (Z.of_nat n <? 0) eqn:E; [apply Z.ltb_lt in E; lia|]. lia.
Qed.

Lemma slice_start_zero {A : Type} (l : list A) : slice_start l 0 = 0%nat.
Proof. unfold slice_start, slice_index. cbn [Z.ltb Z.compare]. lia. Qed.

Lemma py_slice_prefix {A : Type} (l : list A) (k : nat) :
  (1 <= k)%nat ->
  py_slice l 0 (- Z.of_nat k) = firstn (List.length l - k) l.
Proof.
  intros Hk. unfold py_slice. rewrite slice_start_zero. unfold slice_stop.
  rewrite slice_index_neg by exact Hk.
  change (skipn 0 l) with l. rewrite Nat.sub_0_r. reflexivity.
Qed.

Lemma py_slice_suffix {A : Type} (l : list A) (k : nat) :
  (1 <= k)%nat ->
  py_slice l (- Z.of_nat k) (Z.of_nat (List.length l))
  = skipn (List.length l - k) l.
Proof.
  intros Hk. unfold py_slice, slice_start, slice_stop.
  rewrite slice_index_neg by exact Hk.
  rewrite slice_index_nonneg, Nat.min_id.
  apply firstn_all2. rewrite length_skipn. lia.
Qed.

Lemma py_slice_upto {A : Type} (l : list A) (n : nat) :
  py_slice l 0 (Z.of_nat n) = firstn n l.
Proof.
  unfold py_slice. rewrite slice_start_zero. unfold slice_stop.
  rewrite slice_index_nonneg. change (skipn 0 l) with l.
  rewrite Nat.sub_0_r.
  destruct (Nat.le_gt_cases n (List.length l)) as [H|H].
  - rewrite Nat.min_l by exact H. reflexivity.
  - rewrite Nat.min_r by lia. rewrite firstn_all. symmetry.
    apply firstn_all2. lia.
Qed.

(** The position returned by [get_real_word] lies inside the word, and
    the word cut there is the text whose lower-case form is returned as
    the real word. *)
Theorem get_real_word_position (lower : str -> str) (word_list : list str) :
  let word := fst (fst (get_real_word lower word_list)) in
  let real_word := snd (fst (get_real_word lower word_list)) in
  let pos := snd (get_real_word lower word_list) in
  0 <= pos <= Z.of_nat (List.length word)
  /\ real_word = lower (py_slice word 0 pos).
Proof.
  cbv zeta. unfold get_real_word. cbv zeta.
  match goal with
  | |- context [str_eqb (py_slice ?w (-2) _) _] => set (word := w)
  end.
  destruct (str_eqb (py_slice word (-2) _) _) eqn:E2.
  - cbn [fst snd]. apply str_eqb_eq in E2.
    change (-2) with (- Z.of_nat 2) in E2.
    rewrite py_slice_suffix in E2 by lia.
    assert (Hlen : (2 <= List.length word)%nat).
    { apply (f_equal (@List.length char)) in E2.
      rewrite length_skipn in E2. cbn [List.length] in E2.
      destruct (List.length word) as [|[|n]]; cbn in E2; lia. }
    split; [lia|].
    replace (Z.of_nat (List.length word) + -2)
      with (Z.of_nat (List.length word - 2)) by lia.
    rewrite py_slice_upto.
    change (-2) with (- Z.of_nat 2). rewrite py_slice_prefix by lia.
    reflexivity.
  - destruct (existsb _ _) eqn:E1; cbn [fst snd].
    + assert (Hlen : (1 <= List.length word)%nat).
      { destruct word as [|c w]; [|cbn; lia].
        cbn in E1. discriminate. }
      split; [lia|].
      replace (Z.of_nat (List.length word) + -1)
        with (Z.of_nat (List.length word - 1)) by lia.
      rewrite py_slice_upto.
      change (-1) with (- Z.of_nat 1). rewrite py_slice_prefix by lia.
      reflexivity.
    + split; [lia|]. rewrite Z.add_0_r, py_slice_upto, firstn_all.
      reflexivity.
Qed.

Lemma split_words_go_words (s : str) :
  forall cur : str,
    forallb (fun c => negb (is_space c)) cur = true ->
    Forall (fun w => w <> [] /\ forallb (fun c => negb (is_space c)) w = true)
      (split_words_go cur s).
Proof.
  assert (Hrev : forall cur : str,
            cur <> [] ->
            forallb (fun c => negb (is_space c)) cur = true ->
            rev cur <> []
            /\ forallb (fun c => negb (is_space c)) (rev cur) = true).
  { intros cur Hne Hcur. split.
    - intros E. apply Hne. rewrite <- (rev_involutive cur), E. reflexivity.
    - rewrite forallb_forall in *. intros c Hc. apply Hcur.
      apply in_rev. exact Hc. }
  induction s as [|c s IH]; intros cur Hcur; cbn [split_words_go].
  - destruct cur as [|d cur']; [constructor|].
    constructor; [|constructor]. apply Hrev; [discriminate | exact Hcur].
  - destruct (is_space c) eqn:E.
    + destruct cur as [|d cur']; [apply IH; reflexivity|].
      constructor; [apply Hrev; [discriminate | exact Hcur]|].
      apply IH. reflexivity.
    + apply IH. cbn [forallb]. rewrite E, Hcur. reflexivity.
Qed.

Lemma join_space_last (words : list str) :
  words <> [] ->
  Forall (fun w => w <> [] /\ forallb (fun c => negb (is_space c)) w = true)
    words ->
  exists (pre : str) (c : char),
    join_space words = pre ++ [c] /\ is_space c = false.
Proof.
  intros Hne H. revert Hne.
  induction H as [|w words [Hw Hc] _ IH]; intros Hne;
    [exfalso; apply Hne; reflexivity|].
  destruct words as [|w' rest].
  - cbn [join_space]. destruct (exists_last Hw) as [pre [c ->]].
    exists pre, c. split; [reflexivity|].
    rewrite forallb_app in Hc. apply andb_true_iff in Hc.
    destruct Hc as [_ Hc]. cbn [forallb] in Hc.
    rewrite andb_true_r in Hc. apply negb_true_iff in Hc. exact Hc.
  - destruct IH as [pre [c [E Hsp]]]; [discriminate|].
    exists (w ++ py " " ++ pre), c. split; [|exact Hsp].
    rewrite join_space_cons, <- !app_assoc. do 2 f_equal. exact E.
Qed.

Lemma fold_join_space (words : list str) :
  forall acc : str,
    words <> [] ->
    fold_left (fun word w => word ++ w ++ py " ") words acc
    = acc ++ join_space words ++ py " ".
Proof.
  induction words as [|w words IH]; intros acc Hne;
    [exfalso; apply Hne; reflexivity|].
  cbn [fold_left]. destruct words as [|w' rest].
  - cbn [fold_left join_space]. reflexivity.
  - rewrite IH by discriminate. rewrite join_space_cons.
    rewrite <- !app_assoc. reflexivity.
Qed.

Lemma in_firstn_skipn {A : Type} (l : list A) (i j : nat) (x : A) :
  In x (firstn j (skipn i l)) -> In x l.
Proof.
  intros H. rewrite <- (firstn_skipn i l). apply in_or_app. right.
  rewrite <- (firstn_skipn j (skipn i l)). apply in_or_app. left. exact H.
Qed.

(** On the word lists that [spell_check_term] takes from
    [extract_words], the word is the words joined by single spaces; it
    never ends with a line feed, so the test for a final full stop and
    line feed is never met and only a final [.], [,], [!] or [?] is cut
    off. *)
Theorem get_real_word_of_extracted (lower : str -> str) (sentence : str)
    (n : nat) (word_list : list str) :
  In word_list (extract_words sentence n) ->
  get_real_word lower word_list
  = let word := join_space word_list in
    let len := Z.of_nat (List.length word) in
    if existsb (str_eqb (py_slice word (-1) len))
         [py "."; py ","; py "!"; py "?"]
    then (word, lower (py_slice word 0 (-1)), len - 1)
    else (word, lower word, len).
Proof.
  intros Hin. unfold extract_words in Hin. apply in_windows_down in Hin.
  destruct Hin as [i [j [Hj [Hi Hw]]]].
  assert (Hne : word_list <> []).
  { intros E. apply (f_equal (@List.length str)) in Hw.
    rewrite length_firstn, length_skipn, E in Hw. cbn in Hw. lia. }
  assert (Hwords : Forall (fun w => w <> []
                     /\ forallb (fun c => negb (is_space c)) w = true)
                     word_list).
  { apply List.Forall_forall. intros w Hwin. rewrite Hw in Hwin.
    apply in_firstn_skipn in Hwin.
    pose proof (split_words_go_words sentence [] eq_refl) as Hall.
    rewrite List.Forall_forall in Hall. apply Hall. exact Hwin. }
  destruct (join_space_last word_list Hne Hwords) as [pre [c [Ejoin Hc]]].
  unfold get_real_word. cbv zeta.
  rewrite fold_join_space by exact Hne. cbn [app].
  assert (Hword : py_slice (join_space word_list ++ py " ") 0 (-1)
                  = join_space word_list).
  { change (-1) with (- Z.of_nat 1). rewrite py_slice_prefix by lia.
    change (py " ") with [32%N]. rewrite length_app.
    change (List.length [32%N]) with 1%nat.
    replace (List.length (join_space word_list) + 1 - 1)%nat
      with (List.length (join_space word_list)) by lia.
    rewrite firstn_app, Nat.sub_diag, firstn_all.
    change (firstn 0 [32%N]) with (@nil char). apply app_nil_r. }
  rewrite Hword. set (word := join_space word_list) in *.
  assert (Hlast2 : str_eqb (py_slice word (-2) (Z.of_nat (List.length word)))
                     [46%N; 10%N] = false).
  { destruct (str_eqb _ _) eqn:E; [|reflexivity]. exfalso.
    apply str_eqb_eq in E. change (-2) with (- Z.of_nat 2) in E.
    rewrite py_slice_suffix in E by lia. rewrite Ejoin in E.
    rewrite length_app in E. cbn [List.length] in E.
    rewrite skipn_app in E.
    replace (List.length pre + 1 - 2 - List.length pre)%nat with 0%nat in E
      by lia.
    cbn [skipn] in E. change [46%N; 10%N] with ([46%N] ++ [10%N]) in E.
    apply app_inj_tail in E. destruct E as [_ E]. subst c.
    discriminate. }
  rewrite Hlast2.
  assert (Hlast1 : py_slice word (-1) (Z.of_nat (List.length word)) = [c]).
  { change (-1) with (- Z.of_nat 1). rewrite py_slice_suffix by lia.
    rewrite Ejoin, length_app. cbn [List.length].
    replace (List.length pre + 1 - 1)%nat with (List.length pre) by lia.
    rewrite skipn_app, Nat.sub_diag, skipn_all. reflexivity. }
  rewrite Hlast1. cbn [existsb].
  assert (Hnl : str_eqb [c] newline = false).
  { destruct (str_eqb [c] newline) eqn:E; [|reflexivity].
    apply str_eqb_eq in E. injection E as ->. discriminate. }
  rewrite Hnl. cbn [orb].
  rewrite Z.add_0_r. replace (Z.of_nat (List.length word) + -1)
    with (Z.of_nat (List.length word) - 1) by lia.
  reflexivity.
Qed.

Lemma get_real_word_of_extracted_witness :
  get_real_word (fun s => s) [py "Hello,"]
  = let word := join_space [py "Hello,"] in
    let len := Z.of_nat (List.length word) in
    if existsb (str_eqb (py_slice word (-1) len))
         [py "."; py ","; py "!"; py "?"]
    then (word, (fun s => s) (py_slice word 0 (-1)), len - 1)
    else (word, (fun s => s) word, len).
Proof.
  apply (get_real_word_of_extracted (fun s => s) (py "Hello, world") 2
           [py "Hello,"]).
  vm_compute. tauto.
Defined.
